(** * Chroma-key video pipeline: shaders, GPU pass, frame pipeline

    A shallow embedding of
    - the two GLSL fragment shaders ([maskFragmentShader],
      [blackBgFragmentShader]) and the helpers [createShader],
      [createProgram] of the shader module,
    - [ChromaKeyProcessor] (construction, [renderWithProgram],
      [processFrameAll], [destroy]) of [lib/webgl/chromaKey.ts],
    - [VideoProcessor] ([extractFrames], [processFrames], [createVideo]).

    Numbers.  GLSL [float]s and JavaScript [number]s are modelled as exact
    rationals ([Q]): every arithmetic operation is the mathematical one, with
    no rounding.  Statements below are therefore statements about the
    formulas the code evaluates.  Equality of rationals is [==] ([Qeq]). *)

From Stdlib Require Import QArith Qabs Qminmax Qround ZArith List Lia Lqa Bool.
From Stdlib Require Import Morphisms Setoid.
Import ListNotations.
Local Open Scope Q_scope.

(** ** GLSL vectors and built-in functions *)

Record vec2 := Vec2 { v2x : Q; v2y : Q }.
Record vec3 := Vec3 { v3x : Q; v3y : Q; v3z : Q }.
Record vec4 := Vec4 { v4x : Q; v4y : Q; v4z : Q; v4w : Q }.

(** Component-wise equality up to [Qeq]. *)
Definition veq3 (a b : vec3) : Prop :=
  v3x a == v3x b /\ v3y a == v3y b /\ v3z a == v3z b.
Definition veq4 (a b : vec4) : Prop :=
  v4x a == v4x b /\ v4y a == v4y b /\ v4z a == v4z b /\ v4w a == v4w b.

(** [step(edge, x)]: 0.0 if [x < edge], else 1.0. *)
Definition step (edge x : Q) : Q :=
  if Qlt_le_dec x edge then 0 else 1.

(** [mix(x, y, a) = x * (1 - a) + y * a], on scalars and on [vec4]. *)
Definition mix (x y a : Q) : Q := x * (1 - a) + y * a.
Definition mix4 (x y : vec4) (a : Q) : vec4 :=
  Vec4 (mix (v4x x) (v4x y) a) (mix (v4y x) (v4y y) a)
       (mix (v4z x) (v4z y) a) (mix (v4w x) (v4w y) a).

(** [clamp(x, lo, hi) = min(max(x, lo), hi)]. *)
Definition clamp (x lo hi : Q) : Q := Qmin (Qmax x lo) hi.

(** [smoothstep(edge0, edge1, x)]: with
    [t = clamp((x - edge0) / (edge1 - edge0), 0, 1)], the value
    [t * t * (3 - 2 * t)].  GLSL leaves the result undefined when
    [edge0 >= edge1]; the model evaluates the same formula, where a division
    by zero yields 0. *)
Definition smoothstep (edge0 edge1 x : Q) : Q :=
  let t := clamp ((x - edge0) / (edge1 - edge0)) 0 1 in
  t * t * (3 - 2 * t).

(** [vec3 * float]. *)
Definition scale3 (v : vec3) (k : Q) : vec3 :=
  Vec3 (v3x v * k) (v3y v * k) (v3z v * k).

(** [color.rgb]. *)
Definition rgb (c : vec4) : vec3 := Vec3 (v4x c) (v4y c) (v4z c).

(** A [sampler2D] bound to a texture answers [texture2D(u_texture, tc)]. *)
Definition sampler2D := vec2 -> vec4.

(** ** Key settings ([ChromaKeySettings]) and the two presets *)

Record ChromaKeySettings := {
  hueTarget : Q;
  hueRange : Q;
  satMin : Q;
  valMin : Q;
  valMax : Q;
  smoothness : Q;
  spillSuppression : Q
}.

Definition GREEN_SCREEN_SETTINGS : ChromaKeySettings := {|
  hueTarget := 120;
  hueRange := 80;
  satMin := 0.15;
  valMin := 0.1;
  valMax := 0.98;
  smoothness := 0.12;
  spillSuppression := 0.7
|}.

Definition BLUE_SCREEN_SETTINGS : ChromaKeySettings := {|
  hueTarget := 240;
  hueRange := 80;
  satMin := 0.15;
  valMin := 0.1;
  valMax := 0.98;
  smoothness := 0.12;
  spillSuppression := 0.7
|}.

(** The uniforms of a shader program, as [renderWithProgram] sets them. *)
Record Uniforms := {
  u_hueTarget : Q;
  u_hueRange : Q;
  u_satMin : Q;
  u_valMin : Q;
  u_valMax : Q;
  u_smoothness : Q;
  u_spillSuppression : Q
}.

(** ** [maskFragmentShader] *)

Module MaskShader.

Definition rgb2hsv (c : vec3) : vec3 :=
  let K := Vec4 0 (-1 / 3) (2 / 3) (-1) in
  let p := mix4 (Vec4 (v3z c) (v3y c) (v4w K) (v4z K))
                (Vec4 (v3y c) (v3z c) (v4x K) (v4y K))
                (step (v3z c) (v3y c)) in
  let q := mix4 (Vec4 (v4x p) (v4y p) (v4w p) (v3x c))
                (Vec4 (v3x c) (v4y p) (v4z p) (v4x p))
                (step (v4x p) (v3x c)) in
  let d := v4x q - Qmin (v4w q) (v4y q) in
  let e := 1.0e-10 in
  Vec3 (Qabs (v4z q + (v4w q - v4y q) / (6 * d + e)))
       (d / (v4x q + e))
       (v4x q).

(** The body of [main] up to the computation of [alpha]. *)
Definition main_alpha (u : Uniforms) (color : vec4) : Q :=
  let hsv := rgb2hsv (rgb color) in
  let hue := v3x hsv * 360 in
  let sat := v3y hsv in
  let val := v3z hsv in
  let hueDiff := Qabs (hue - u_hueTarget u) in
  let hueDiff := if Qlt_le_dec 180 hueDiff then 360 - hueDiff else hueDiff in
  let hueMatch := 1 - smoothstep (u_hueRange u * 0.5) (u_hueRange u) hueDiff in
  let satMatch := smoothstep (u_satMin u * 0.5) (u_satMin u) sat in
  let valMatch := step (u_valMin u) val * step val (u_valMax u) in
  let dominance :=
    if Qlt_le_dec (u_hueTarget u) 180
    then smoothstep 0 0.1 (v4y color - Qmax (v4x color) (v4z color))
    else smoothstep 0 0.1 (v4z color - Qmax (v4x color) (v4y color)) in
  let keyStrength := hueMatch * satMatch * valMatch * dominance in
  1 - smoothstep (0.3 - u_smoothness u) (0.3 + u_smoothness u) keyStrength.

(** [main]: [gl_FragColor = vec4(vec3(alpha), 1.0)]. *)
Definition main (u_texture : sampler2D) (u : Uniforms) (v_texCoord : vec2)
  : vec4 :=
  let color := u_texture v_texCoord in
  let alpha := main_alpha u color in
  Vec4 alpha alpha alpha 1.

End MaskShader.

(** ** [blackBgFragmentShader] *)

Module BlackBgShader.

Definition rgb2hsv (c : vec3) : vec3 :=
  let K := Vec4 0 (-1 / 3) (2 / 3) (-1) in
  let p := mix4 (Vec4 (v3z c) (v3y c) (v4w K) (v4z K))
                (Vec4 (v3y c) (v3z c) (v4x K) (v4y K))
                (step (v3z c) (v3y c)) in
  let q := mix4 (Vec4 (v4x p) (v4y p) (v4w p) (v3x c))
                (Vec4 (v3x c) (v4y p) (v4z p) (v4x p))
                (step (v4x p) (v3x c)) in
  let d := v4x q - Qmin (v4w q) (v4y q) in
  let e := 1.0e-10 in
  Vec3 (Qabs (v4z q + (v4w q - v4y q) / (6 * d + e)))
       (d / (v4x q + e))
       (v4x q).

(** Spill suppression: removes the colour cast of the key channel. *)
Definition suppressSpill (color : vec3) (amount : Q) (isGreen : bool) : vec3 :=
  if isGreen then
    let avg := (v3x color + v3z color) * 0.5 in
    let excess := Qmax 0 (v3y color - avg) in
    let result_g := v3y color - excess * amount in
    let result_r := Qmin 1 (v3x color + excess * amount * 0.2) in
    let result_b := Qmin 1 (v3z color + excess * amount * 0.2) in
    Vec3 result_r result_g result_b
  else
    let avg := (v3x color + v3y color) * 0.5 in
    let excess := Qmax 0 (v3z color - avg) in
    let result_b := v3z color - excess * amount in
    let result_r := Qmin 1 (v3x color + excess * amount * 0.2) in
    let result_g := Qmin 1 (v3y color + excess * amount * 0.2) in
    Vec3 result_r result_g result_b.

Definition isGreen (u : Uniforms) : bool :=
  if Qlt_le_dec (u_hueTarget u) 180 then true else false.

(** The body of [main] up to the computation of [alpha]. *)
Definition main_alpha (u : Uniforms) (color : vec4) : Q :=
  let hsv := rgb2hsv (rgb color) in
  let hue := v3x hsv * 360 in
  let sat := v3y hsv in
  let val := v3z hsv in
  let hueDiff := Qabs (hue - u_hueTarget u) in
  let hueDiff := if Qlt_le_dec 180 hueDiff then 360 - hueDiff else hueDiff in
  let hueMatch := 1 - smoothstep (u_hueRange u * 0.5) (u_hueRange u) hueDiff in
  let satMatch := smoothstep (u_satMin u * 0.5) (u_satMin u) sat in
  let valMatch := step (u_valMin u) val * step val (u_valMax u) in
  let dominance :=
    if isGreen u
    then smoothstep 0 0.1 (v4y color - Qmax (v4x color) (v4z color))
    else smoothstep 0 0.1 (v4z color - Qmax (v4x color) (v4y color)) in
  let keyStrength := hueMatch * satMatch * valMatch * dominance in
  1 - smoothstep (0.3 - u_smoothness u) (0.3 + u_smoothness u) keyStrength.

(** The rest of [main]: spill suppression, then the blend with black. *)
Definition main_color (u : Uniforms) (color : vec4) : vec3 :=
  let alpha := main_alpha u color in
  let spillStrength := u_spillSuppression u * (1 - alpha * 0.5) in
  let despilled := suppressSpill (rgb color) spillStrength (isGreen u) in
  scale3 despilled alpha.

(** [main]: [gl_FragColor = vec4(finalColor, 1.0)]. *)
Definition main (u_texture : sampler2D) (u : Uniforms) (v_texCoord : vec2)
  : vec4 :=
  let color := u_texture v_texCoord in
  let finalColor := main_color u color in
  Vec4 (v3x finalColor) (v3y finalColor) (v3z finalColor) 1.

End BlackBgShader.

(** ** Frame buffers ([ImageData]) *)

(** RGBA bytes, row-major, top row first; [data] has [width * height * 4]
    entries in a well-formed frame. *)
Record ImageData := {
  data : list Z;
  width : nat;
  height : nat
}.

Definition well_formed (img : ImageData) : Prop :=
  length (data img) = (width img * height img * 4)%nat /\
  Forall (fun b => (0 <= b <= 255)%Z) (data img).

(** A frame filled with one RGBA pixel. *)
Definition solid (w h : nat) (px : list Z) : ImageData :=
  {| data := concat (repeat px (w * h)); width := w; height := h |}.

(** The [k]-th pixel (row-major) of a frame, as its four bytes. *)
Definition pixelAt (img : ImageData) (k : nat) : list Z :=
  firstn 4 (skipn (4 * k) (data img)).

(** ** The WebGL pass of [renderWithProgram]

    What WebGL does between [texImage2D] and [readPixels] is modelled from
    its specification: the frame is an RGBA8 texture whose first row lies at
    t = 0, sampled with LINEAR filtering and CLAMP_TO_EDGE wrapping; the quad
    of [positionBuffer] covers the viewport; a fragment colour is clamped to
    [0, 1] and rounded to a byte of the drawing buffer; [readPixels] returns
    the rows bottom row first. *)

(** An unsigned byte read as a normalised float. *)
Definition unorm (b : Z) : Q := inject_Z b / 255.

Definition texelFetch (img : ImageData) (i j : nat) : vec4 :=
  let o := (4 * (j * width img + i))%nat in
  Vec4 (unorm (nth o (data img) 0%Z))
       (unorm (nth (o + 1) (data img) 0%Z))
       (unorm (nth (o + 2) (data img) 0%Z))
       (unorm (nth (o + 3) (data img) 0%Z)).

Definition natQ (n : nat) : Q := inject_Z (Z.of_nat n).

(** CLAMP_TO_EDGE: a coordinate is clamped to the centres of the border
    texels. *)
Definition clampToEdge (n : nat) (s : Q) : Q :=
  clamp s (1 / (2 * natQ n)) (1 - 1 / (2 * natQ n)).

(** [texture2D] on the texture holding [img]: the bilinear blend of the four
    texels around the sample point. *)
Definition texture2D (img : ImageData) : sampler2D := fun tc =>
  let u := clampToEdge (width img) (v2x tc) * natQ (width img) - 0.5 in
  let v := clampToEdge (height img) (v2y tc) * natQ (height img) - 0.5 in
  let i0 := Qfloor u in
  let j0 := Qfloor v in
  let a := u - inject_Z i0 in
  let b := v - inject_Z j0 in
  let i1 := Z.min (i0 + 1) (Z.of_nat (width img) - 1) in
  let j1 := Z.min (j0 + 1) (Z.of_nat (height img) - 1) in
  let t i j := texelFetch img (Z.to_nat i) (Z.to_nat j) in
  mix4 (mix4 (t i0 j0) (t i1 j0) a) (mix4 (t i0 j1) (t i1 j1) a) b.

(** The two vertex attribute buffers of the constructor, as (x, y) pairs. *)
Definition positionBuffer : list vec2 :=
  [Vec2 (-1) (-1); Vec2 1 (-1); Vec2 (-1) 1; Vec2 (-1) 1; Vec2 1 (-1); Vec2 1 1].
Definition texCoordBuffer : list vec2 :=
  [Vec2 0 1; Vec2 1 1; Vec2 0 0; Vec2 0 0; Vec2 1 1; Vec2 1 0].

(** The vertex shader passes [a_texCoord] through; interpolated over the two
    triangles it is this affine function of the position. *)
Definition v_texCoord_at (pos : vec2) : vec2 :=
  Vec2 ((v2x pos + 1) / 2) ((1 - v2y pos) / 2).

(** Centre of the drawing-buffer pixel (i, j), j counted from the bottom, in
    normalised device coordinates for a [W] x [H] viewport. *)
Definition pixelCentre (W H i j : nat) : vec2 :=
  Vec2 (2 * (natQ i + 0.5) / natQ W - 1) (2 * (natQ j + 0.5) / natQ H - 1).

(** A float colour component stored in an 8-bit channel. *)
Definition toByte (x : Q) : Z := Qfloor (clamp x 0 1 * 255 + 0.5).

Definition storeColor (c : vec4) : list Z :=
  [toByte (v4x c); toByte (v4y c); toByte (v4z c); toByte (v4w c)].

(** [drawArrays] followed by [readPixels]: every pixel of the viewport is
    covered by the quad and shaded once. *)
Definition readPixels (W H : nat) (shade : vec2 -> vec4) : list Z :=
  flat_map (fun j =>
    flat_map (fun i => storeColor (shade (v_texCoord_at (pixelCentre W H i j))))
             (seq 0 W))
    (seq 0 H).

(** [Uint8ClampedArray.subarray(begin, end)] and [set(src, offset)]. *)
Definition subarray (l : list Z) (b e : nat) : list Z :=
  firstn (e - b) (skipn b l).
Definition set (dst src : list Z) (offset : nat) : list Z :=
  firstn offset dst ++ src ++ skipn (offset + length src) dst.

(** The "Flip Y" loop of [renderWithProgram]. *)
Definition flipY (W H : nat) (output : list Z) : list Z :=
  let rowSize := (W * 4)%nat in
  fold_left
    (fun flipped y =>
       let srcRow := ((H - 1 - y) * rowSize)%nat in
       let dstRow := (y * rowSize)%nat in
       set flipped (subarray output srcRow (srcRow + rowSize)) dstRow)
    (seq 0 H)
    (repeat 0%Z (length output)).

(** ** [ChromaKeyProcessor] *)

Inductive Program := MaskProgram | BlackBgProgram.

Definition fragmentShader (p : Program) : sampler2D -> Uniforms -> vec2 -> vec4 :=
  match p with
  | MaskProgram => MaskShader.main
  | BlackBgProgram => BlackBgShader.main
  end.

(** The object: its size and the handles of its GL objects. *)
Record ChromaKeyProcessor := {
  cw : nat;
  ch : nat;
  maskProgram : nat;
  blackBgProgram : nat;
  positionBufferId : nat;
  texCoordBufferId : nat;
  texture : nat
}.

(** The [gl.uniform1f] calls of [renderWithProgram]. *)
Definition setUniforms (settings : ChromaKeySettings) : Uniforms := {|
  u_hueTarget := hueTarget settings;
  u_hueRange := hueRange settings;
  u_satMin := satMin settings;
  u_valMin := valMin settings;
  u_valMax := valMax settings;
  u_smoothness := smoothness settings;
  u_spillSuppression := spillSuppression settings
|}.

Definition renderWithProgram (this : ChromaKeyProcessor) (program : Program)
    (imageData : ImageData) (settings : ChromaKeySettings) : ImageData :=
  let shade := fragmentShader program (texture2D imageData) (setUniforms settings) in
  let output := readPixels (cw this) (ch this) shade in
  let flipped := flipY (cw this) (ch this) output in
  {| data := flipped; width := cw this; height := ch this |}.

Record ProcessingResult := {
  mask : ImageData;
  black : ImageData
}.

Definition processFrameAll (this : ChromaKeyProcessor) (imageData : ImageData)
    (settings : ChromaKeySettings) : ProcessingResult :=
  let mask := renderWithProgram this MaskProgram imageData settings in
  let black := renderWithProgram this BlackBgProgram imageData settings in
  {| mask := mask; black := black |}.

(** ** The browser: capabilities, mutable state, effects *)

(** A JavaScript [number] that may be [NaN] or [Infinity]
    ([HTMLVideoElement.duration] is [NaN] while unknown and [Infinity] for
    an unbounded stream). *)
Inductive number := NaN | Infinity | Num (q : Q).

Inductive GLKind := KShader | KProgram | KBuffer | KTexture.
Inductive ShaderType := VERTEX_SHADER | FRAGMENT_SHADER.
Inductive ShaderSource :=
  vertexShaderSource | maskFragmentShader | blackBgFragmentShader.

(** What the host can do; fixed during a run. *)
Record Browser := {
  has_canvas2d : bool;        (* canvas.getContext('2d') is not null *)
  has_webgl : bool;           (* canvas.getContext('webgl') is not null *)
  gl_creates : GLKind -> bool;   (* gl.createX() is not null *)
  gl_compiles : ShaderType -> ShaderSource -> bool;   (* COMPILE_STATUS *)
  gl_links : bool;            (* LINK_STATUS *)
  has_requestFrame : bool;    (* 'requestFrame' in videoTrack *)
  clock : nat -> Q            (* the n-th reading of performance.now() *)
}.

Inductive Error :=
| Failed_to_get_canvas_context
| WebGL_not_supported
| Failed_to_create_mask_shaders
| Failed_to_create_mask_program
| Failed_to_create_black_bg_shaders
| Failed_to_create_black_bg_program
| Failed_to_create_position_buffer
| Failed_to_create_texCoord_buffer
| Failed_to_create_texture
| No_frames_to_process.

Inductive Callback := DrawNextFrame | StopRecorder.

(** Calls that leave the pipeline, in the order they are made. *)
Inductive Event :=
| EvProgress (current : nat) (total : number)
| EvSeek (time : Q)
| EvYield
| EvRecorderStart
| EvPutImageData (frame : ImageData)
| EvRequestFrame
| EvSetTimeout (cb : Callback) (delay : Q)
| EvRecorderStop.

Record World := {
  canvases : nat;                     (* canvas elements created *)
  gl_next : nat;                      (* next GL object name *)
  gl_live : list (GLKind * nat);      (* GL objects created, not deleted *)
  processor : option ChromaKeyProcessor;   (* [this.processor] *)
  currentTime : Q;                    (* of the video element *)
  canvas_image : option ImageData;    (* content of the capture canvas *)
  captured : list ImageData;          (* frames taken by the recorder *)
  clock_reads : nat;
  timers : list (Callback * Q);       (* pending [setTimeout]s *)
  trace : list Event
}.

(** A world in which nothing has happened yet. *)
Definition initial_world : World := {|
  canvases := 0; gl_next := 0; gl_live := []; processor := None;
  currentTime := 0; canvas_image := None; captured := []; clock_reads := 0;
  timers := []; trace := []
|}.

(** Outcome of a call: a value, a thrown error / rejected promise, or no
    outcome within the steps allowed. *)
Inductive Result (A : Type) :=
| Ok (a : A)
| Throw (e : Error)
| Pending.
Arguments Ok {A} a.
Arguments Throw {A} e.
Arguments Pending {A}.

Definition M (A : Type) : Type := World -> Result A * World.

Definition ret {A} (a : A) : M A := fun w => (Ok a, w).
Definition throw {A} (e : Error) : M A := fun w => (Throw e, w).
Definition bind {A B} (m : M A) (k : A -> M B) : M B := fun w =>
  match m w with
  | (Ok a, w') => k a w'
  | (Throw e, w') => (Throw e, w')
  | (Pending, w') => (Pending, w')
  end.

Notation "x <- m ;; k" := (bind m (fun x => k))
  (at level 61, m at next level, right associativity).
Notation "m ;; k" := (bind m (fun _ => k))
  (at level 61, right associativity).

Definition modify (f : World -> World) : M unit := fun w => (Ok tt, f w).
Definition emit (e : Event) : M unit :=
  modify (fun w => {| canvases := canvases w; gl_next := gl_next w;
    gl_live := gl_live w; processor := processor w;
    currentTime := currentTime w; canvas_image := canvas_image w;
    captured := captured w; clock_reads := clock_reads w;
    timers := timers w; trace := trace w ++ [e] |}).

Definition createCanvas : M unit :=
  modify (fun w => {| canvases := S (canvases w); gl_next := gl_next w;
    gl_live := gl_live w; processor := processor w;
    currentTime := currentTime w; canvas_image := canvas_image w;
    captured := captured w; clock_reads := clock_reads w;
    timers := timers w; trace := trace w |}).

Definition set_gl (next : nat) (live : list (GLKind * nat)) : M unit :=
  modify (fun w => {| canvases := canvases w; gl_next := next;
    gl_live := live; processor := processor w;
    currentTime := currentTime w; canvas_image := canvas_image w;
    captured := captured w; clock_reads := clock_reads w;
    timers := timers w; trace := trace w |}).

Definition set_processor (p : option ChromaKeyProcessor) : M unit :=
  modify (fun w => {| canvases := canvases w; gl_next := gl_next w;
    gl_live := gl_live w; processor := p;
    currentTime := currentTime w; canvas_image := canvas_image w;
    captured := captured w; clock_reads := clock_reads w;
    timers := timers w; trace := trace w |}).

Definition set_currentTime (t : Q) : M unit :=
  modify (fun w => {| canvases := canvases w; gl_next := gl_next w;
    gl_live := gl_live w; processor := processor w;
    currentTime := t; canvas_image := canvas_image w;
    captured := captured w; clock_reads := clock_reads w;
    timers := timers w; trace := trace w |}).

Definition set_canvas_image (img : option ImageData) : M unit :=
  modify (fun w => {| canvases := canvases w; gl_next := gl_next w;
    gl_live := gl_live w; processor := processor w;
    currentTime := currentTime w; canvas_image := img;
    captured := captured w; clock_reads := clock_reads w;
    timers := timers w; trace := trace w |}).

Definition set_captured (l : list ImageData) : M unit :=
  modify (fun w => {| canvases := canvases w; gl_next := gl_next w;
    gl_live := gl_live w; processor := processor w;
    currentTime := currentTime w; canvas_image := canvas_image w;
    captured := l; clock_reads := clock_reads w;
    timers := timers w; trace := trace w |}).

Definition set_timers (l : list (Callback * Q)) : M unit :=
  modify (fun w => {| canvases := canvases w; gl_next := gl_next w;
    gl_live := gl_live w; processor := processor w;
    currentTime := currentTime w; canvas_image := canvas_image w;
    captured := captured w; clock_reads := clock_reads w;
    timers := l; trace := trace w |}).

Definition get {A} (f : World -> A) : M A := fun w => (Ok (f w), w).

Definition GLKind_eqb (a b : GLKind) : bool :=
  match a, b with
  | KShader, KShader | KProgram, KProgram
  | KBuffer, KBuffer | KTexture, KTexture => true
  | _, _ => false
  end.

Definition same_object (a b : GLKind * nat) : bool :=
  GLKind_eqb (fst a) (fst b) && Nat.eqb (snd a) (snd b).

Section Host.

Variable env : Browser.

(** [gl.createShader], [gl.createProgram], [gl.createBuffer],
    [gl.createTexture]: a fresh name, or [None] for null. *)
Definition gl_create (k : GLKind) : M (option nat) :=
  if gl_creates env k then
    n <- get gl_next ;;
    live <- get gl_live ;;
    set_gl (S n) (live ++ [(k, n)]) ;;
    ret (Some n)
  else ret None.

(** [gl.deleteShader], [gl.deleteProgram], [gl.deleteBuffer],
    [gl.deleteTexture]. *)
Definition gl_delete (k : GLKind) (n : nat) : M unit :=
  next <- get gl_next ;;
  live <- get gl_live ;;
  set_gl next (filter (fun o => negb (same_object o (k, n))) live).

(** [performance.now()]. *)
Definition performance_now : M Q := fun w =>
  (Ok (clock env (clock_reads w)),
   {| canvases := canvases w; gl_next := gl_next w;
      gl_live := gl_live w; processor := processor w;
      currentTime := currentTime w; canvas_image := canvas_image w;
      captured := captured w; clock_reads := S (clock_reads w);
      timers := timers w; trace := trace w |}).

(** [setTimeout(cb, delay)]. *)
Definition setTimeout (cb : Callback) (delay : Q) : M unit :=
  emit (EvSetTimeout cb delay) ;;
  pending <- get timers ;;
  set_timers (pending ++ [(cb, delay)]).

(** *** [createShader] and [createProgram] of the shader module *)

Definition createShader (type : ShaderType) (source : ShaderSource)
  : M (option nat) :=
  shader <- gl_create KShader ;;
  match shader with
  | None => ret None
  | Some s =>
      if gl_compiles env type source then ret (Some s)
      else gl_delete KShader s ;; ret None
  end.

Definition createProgram (vertexShader fragmentShader : nat) : M (option nat) :=
  program <- gl_create KProgram ;;
  match program with
  | None => ret None
  | Some p =>
      if gl_links env then ret (Some p)
      else gl_delete KProgram p ;; ret None
  end.

(** *** [new ChromaKeyProcessor(width, height)] *)

Definition ChromaKeyProcessor_new (width height : nat) : M ChromaKeyProcessor :=
  createCanvas ;;
  (if has_webgl env then ret tt else throw WebGL_not_supported) ;;
  maskVS <- createShader VERTEX_SHADER vertexShaderSource ;;
  maskFS <- createShader FRAGMENT_SHADER maskFragmentShader ;;
  match maskVS, maskFS with
  | Some maskVS, Some maskFS =>
  maskProg <- createProgram maskVS maskFS ;;
  match maskProg with
  | None => throw Failed_to_create_mask_program
  | Some maskProg =>
  blackVS <- createShader VERTEX_SHADER vertexShaderSource ;;
  blackFS <- createShader FRAGMENT_SHADER blackBgFragmentShader ;;
  match blackVS, blackFS with
  | Some blackVS, Some blackFS =>
  blackProg <- createProgram blackVS blackFS ;;
  match blackProg with
  | None => throw Failed_to_create_black_bg_program
  | Some blackProg =>
  positionBuffer <- gl_create KBuffer ;;
  match positionBuffer with
  | None => throw Failed_to_create_position_buffer
  | Some positionBuffer =>
  texCoordBuffer <- gl_create KBuffer ;;
  match texCoordBuffer with
  | None => throw Failed_to_create_texCoord_buffer
  | Some texCoordBuffer =>
  texture <- gl_create KTexture ;;
  match texture with
  | None => throw Failed_to_create_texture
  | Some texture =>
  ret {| cw := width; ch := height;
         maskProgram := maskProg; blackBgProgram := blackProg;
         positionBufferId := positionBuffer;
         texCoordBufferId := texCoordBuffer;
         texture := texture |}
  end end end end
  | _, _ => throw Failed_to_create_black_bg_shaders
  end end
  | _, _ => throw Failed_to_create_mask_shaders
  end.

(** [destroy()]. *)
Definition destroy (this : ChromaKeyProcessor) : M unit :=
  gl_delete KBuffer (positionBufferId this) ;;
  gl_delete KBuffer (texCoordBufferId this) ;;
  gl_delete KTexture (texture this) ;;
  gl_delete KProgram (maskProgram this) ;;
  gl_delete KProgram (blackBgProgram this).

End Host.

(** ** [VideoProcessor] *)

(** The video element as the extractor sees it: its size, its duration and
    the picture it shows once a seek to a time has completed. *)
Record HTMLVideoElement := {
  videoWidth : nat;
  videoHeight : nat;
  duration : number;
  picture : Q -> list Z
}.

Inductive ColorType := green | blue.

(** [duration * fps] for a finite [fps].  (For [fps < 0] JavaScript yields
    [-Infinity] from [Infinity]; the loop test is false on it as on [NaN].) *)
Definition times (d : number) (k : Q) : number :=
  match d with
  | NaN => NaN
  | Infinity => if Qlt_le_dec 0 k then Infinity else NaN
  | Num q => Num (q * k)
  end.

Definition Math_floor (x : number) : number :=
  match x with
  | Num q => Num (inject_Z (Qfloor q))
  | other => other
  end.

(** [i < n] for an integer [i]: false on [NaN]. *)
Definition lt_number (i : nat) (n : number) : bool :=
  match n with
  | NaN => false
  | Infinity => true
  | Num q => if Qlt_le_dec (natQ i) q then true else false
  end.

(** State of the closure of [createVideo]. *)
Record Reassembly := {
  frameIndex : nat;
  startTime : Q;
  nextFrameTime : Q
}.

(** The encoded asset, as the frames the recorder took. *)
Definition Blob := list ImageData.

Section VideoProcessor.

Variable env : Browser.
Variable fps : Q.     (* [this.fps] *)

(** [seekToTime]: set [currentTime]; the promise resolves on [seeked]. *)
Definition seekToTime (video : HTMLVideoElement) (time : Q) : M unit :=
  emit (EvSeek time) ;;
  set_currentTime time.

(** [ctx.drawImage(video, ...)] then [ctx.getImageData(...)]. *)
Definition captureImage (video : HTMLVideoElement) : M ImageData :=
  t <- get currentTime ;;
  ret {| data := picture video t;
         width := videoWidth video; height := videoHeight video |}.

(** The [for] loop of [extractFrames], from index [i]; [fuel] bounds the
    number of iterations. *)
Fixpoint extractLoop (video : HTMLVideoElement) (onProgress : bool)
    (totalFrames : number) (frameInterval : Q)
    (fuel i : nat) (frames : list ImageData) : M (list ImageData) :=
  if lt_number i totalFrames then
    match fuel with
    | O => fun w => (Pending, w)
    | S fuel' =>
        let time := natQ i * frameInterval in
        seekToTime video time ;;
        imageData <- captureImage video ;;
        (if onProgress then emit (EvProgress (i + 1) totalFrames)
         else ret tt) ;;
        extractLoop video onProgress totalFrames frameInterval
                    fuel' (S i) (frames ++ [imageData])
    end
  else ret frames.

Definition extractFrames (videoElement : HTMLVideoElement)
    (onProgress : bool) (fuel : nat) : M (list ImageData) :=
  createCanvas ;;
  (if has_canvas2d env then ret tt
   else throw Failed_to_get_canvas_context) ;;
  let duration := duration videoElement in
  let totalFrames := Math_floor (times duration fps) in
  let frameInterval := 1 / fps in
  extractLoop videoElement onProgress totalFrames frameInterval fuel 0 [].

(** The [for] loop of [processFrames], from index [i], with [n] frames
    still to do. *)
Fixpoint processLoop (this_processor : ChromaKeyProcessor)
    (settings : ChromaKeySettings) (frames : list ImageData)
    (onProgress : bool) (n i : nat)
    (maskFrames blackFrames : list ImageData)
  : M (list ImageData * list ImageData) :=
  match n with
  | O => ret (maskFrames, blackFrames)
  | S n' =>
      match nth_error frames i with
      | None => ret (maskFrames, blackFrames)
      | Some frame =>
          let result := processFrameAll this_processor frame settings in
          (if onProgress
           then emit (EvProgress (i + 1) (Num (natQ (length frames))))
           else ret tt) ;;
          (if Nat.eqb (i mod 5) 0 then emit EvYield else ret tt) ;;
          processLoop this_processor settings frames onProgress n' (S i)
                      (maskFrames ++ [mask result])
                      (blackFrames ++ [black result])
      end
  end.

Definition processFrames (frames : list ImageData) (colorType : ColorType)
    (onProgress : bool) : M (list ImageData * list ImageData) :=
  match frames with
  | [] => ret ([], [])
  | frame0 :: _ =>
      p <- ChromaKeyProcessor_new env (width frame0) (height frame0) ;;
      set_processor (Some p) ;;
      let settings := match colorType with
                      | green => GREEN_SCREEN_SETTINGS
                      | blue => BLUE_SCREEN_SETTINGS
                      end in
      r <- processLoop p settings frames onProgress (length frames) 0 [] [] ;;
      destroy p ;;
      set_processor None ;;
      ret r
  end.

(** [ctx.putImageData(frame, 0, 0)]. *)
Definition putImageData (frame : ImageData) : M unit :=
  emit (EvPutImageData frame) ;;
  set_canvas_image (Some frame).

(** [videoTrack.requestFrame()]: the recorder takes the canvas content. *)
Definition requestFrame : M unit :=
  emit EvRequestFrame ;;
  img <- get canvas_image ;;
  taken <- get captured ;;
  set_captured (taken ++ match img with Some i => [i] | None => [] end).

(** [drawNextFrame], as a step on the closure state. *)
Definition drawNextFrame (frames : list ImageData) (frameInterval : Q)
    (onProgress : bool) (st : Reassembly) : M Reassembly :=
  match nth_error frames (frameIndex st) with
  | None =>
      (* frameIndex >= frames.length *)
      setTimeout StopRecorder 100 ;;
      ret st
  | Some frame =>
      now <- performance_now env ;;
      putImageData frame ;;
      (if has_requestFrame env then requestFrame else ret tt) ;;
      (if onProgress
       then emit (EvProgress (frameIndex st + 1) (Num (natQ (length frames))))
       else ret tt) ;;
      let st' := {| frameIndex := S (frameIndex st);
                    startTime := startTime st;
                    nextFrameTime := nextFrameTime st + frameInterval |} in
      t <- performance_now env ;;
      let delay := Qmax 0 (nextFrameTime st' - t) in
      setTimeout DrawNextFrame delay ;;
      ret st'
  end.

(** The event loop firing the pending timers, at most [fuel] of them.
    [StopRecorder] is [mediaRecorder.stop()], whose [onstop] resolves the
    promise with the blob.  The recorder is taken not to raise [error]. *)
Fixpoint runTimers (frames : list ImageData) (frameInterval : Q)
    (onProgress : bool) (fuel : nat) (st : Reassembly) : M Blob :=
  match fuel with
  | O => fun w => (Pending, w)
  | S fuel' =>
      pending <- get timers ;;
      match pending with
      | [] => fun w => (Pending, w)
      | (DrawNextFrame, _) :: rest =>
          set_timers rest ;;
          st' <- drawNextFrame frames frameInterval onProgress st ;;
          runTimers frames frameInterval onProgress fuel' st'
      | (StopRecorder, _) :: rest =>
          set_timers rest ;;
          emit EvRecorderStop ;;
          get captured
      end
  end.

Definition createVideo (frames : list ImageData) (onProgress : bool)
    (fuel : nat) : M Blob :=
  match frames with
  | [] => throw No_frames_to_process
  | frame0 :: _ =>
      createCanvas ;;
      (if has_canvas2d env then ret tt
       else throw Failed_to_get_canvas_context) ;;
      emit EvRecorderStart ;;
      let frameInterval := 1000 / fps in
      startTime <- performance_now env ;;
      let st := {| frameIndex := 0; startTime := startTime;
                   nextFrameTime := startTime |} in
      st <- drawNextFrame frames frameInterval onProgress st ;;
      runTimers frames frameInterval onProgress fuel st
  end.

End VideoProcessor.

(** ** Reference definitions, following the wording of the specification

    These are not taken from the code: they restate the classifier the way
    the specification describes it, to be compared with the shaders. *)

Module Reference.

(** Circular distance of two hues in degrees (wrap at 360). *)
Definition hueDiff (hue target : Q) : Q :=
  Qmin (Qabs (hue - target)) (360 - Qabs (hue - target)).

Definition hueMatch (s : ChromaKeySettings) (hue : Q) : Q :=
  1 - smoothstep (hueRange s / 2) (hueRange s) (hueDiff hue (hueTarget s)).

Definition satMatch (s : ChromaKeySettings) (sat : Q) : Q :=
  smoothstep (satMin s / 2) (satMin s) sat.

(** 1 iff [valMin <= val <= valMax], else 0. *)
Definition valMatch (s : ChromaKeySettings) (val : Q) : Q :=
  if Qle_bool (valMin s) val && Qle_bool val (valMax s) then 1 else 0.

(** The key channel is green if [hueTarget < 180] and blue otherwise. *)
Definition keyIsGreen (s : ChromaKeySettings) : bool :=
  negb (Qle_bool 180 (hueTarget s)).

Definition dominance (s : ChromaKeySettings) (c : vec3) : Q :=
  if keyIsGreen s
  then smoothstep 0 0.1 (v3y c - Qmax (v3x c) (v3z c))
  else smoothstep 0 0.1 (v3z c - Qmax (v3x c) (v3y c)).

(** [hue] (in degrees), [sat] and [val] are the pixel's HSV coordinates,
    [c] its RGB channels. *)
Definition keyStrength (s : ChromaKeySettings) (hue sat val : Q) (c : vec3)
  : Q :=
  hueMatch s hue * satMatch s sat * valMatch s val * dominance s c.

Definition alpha (s : ChromaKeySettings) (hue sat val : Q) (c : vec3) : Q :=
  1 - smoothstep (0.3 - smoothness s) (0.3 + smoothness s)
                 (keyStrength s hue sat val c).

Definition spillStrength (s : ChromaKeySettings) (alpha : Q) : Q :=
  spillSuppression s * (1 - alpha * 0.5).

(** Positive part of (key channel - average of the other two). *)
Definition excess (s : ChromaKeySettings) (c : vec3) : Q :=
  if keyIsGreen s
  then Qmax 0 (v3y c - (v3x c + v3z c) / 2)
  else Qmax 0 (v3z c - (v3x c + v3y c) / 2).

(** Despill: the key channel loses [taken]; each other channel becomes
    [other c'] of its old value. *)
Definition despill (s : ChromaKeySettings) (c : vec3)
    (taken : Q) (other : Q -> Q) : vec3 :=
  if keyIsGreen s
  then Vec3 (other (v3x c)) (v3y c - taken) (other (v3z c))
  else Vec3 (other (v3x c)) (other (v3y c)) (v3z c - taken).

(** The composite as the specification words it: a fraction 0.2 of the
    excess is added to each of the other two channels. *)
Definition composite_stated (s : ChromaKeySettings) (alpha : Q) (c : vec3)
  : vec3 :=
  let k := spillStrength s alpha in
  let ex := excess s c in
  scale3 (despill s c (ex * k) (fun x => x + 0.2 * ex)) alpha.

(** The same with the fraction taken of the amount removed,
    [excess * spillStrength]. *)
Definition composite_stated_removed (s : ChromaKeySettings) (alpha : Q)
    (c : vec3) : vec3 :=
  let k := spillStrength s alpha in
  let ex := excess s c in
  scale3 (despill s c (ex * k) (fun x => x + 0.2 * (ex * k))) alpha.

(** Amended: the fraction is taken of the amount removed and each
    receiving channel is capped at 1. *)
Definition composite (s : ChromaKeySettings) (alpha : Q) (c : vec3) : vec3 :=
  let k := spillStrength s alpha in
  let ex := excess s c in
  scale3 (despill s c (ex * k) (fun x => Qmin 1 (x + 0.2 * (ex * k)))) alpha.


End Reference.

(** ** Predicates used in the statements *)


Definition in_unit (x : Q) : Prop := 0 <= x <= 1.
Definition in_unit3 (c : vec3) : Prop := in_unit (v3x c) /\ in_unit (v3y c) /\ in_unit (v3z c).
Definition in_unit4 (c : vec4) : Prop :=
  in_unit (v4x c) /\ in_unit (v4y c) /\ in_unit (v4z c) /\ in_unit (v4w c).




(** A browser in which every canvas and GL call succeeds. *)
Definition capable (env : Browser) : Prop :=
  has_canvas2d env = true /\ has_webgl env = true /\
  (forall k, gl_creates env k = true) /\
  (forall t s, gl_compiles env t s = true) /\
  gl_links env = true.

Definition a_browser : Browser := {|
  has_canvas2d := true; has_webgl := true;
  gl_creates := fun _ => true; gl_compiles := fun _ _ => true;
  gl_links := true; has_requestFrame := true;
  clock := fun n => 40 * natQ n
|}.

(** Frames handed to [putImageData], and timers set, along a trace. *)
Definition puts (tr : list Event) : list ImageData :=
  flat_map (fun e => match e with EvPutImageData f => [f] | _ => [] end) tr.
Definition timeouts (tr : list Event) : list (Callback * Q) :=
  flat_map (fun e => match e with EvSetTimeout cb d => [(cb, d)] | _ => [] end) tr.
Definition seeks (tr : list Event) : list Q :=
  flat_map (fun e => match e with EvSeek t => [t] | _ => [] end) tr.
Definition progress (tr : list Event) : list (nat * number) :=
  flat_map (fun e => match e with EvProgress c t => [(c, t)] | _ => [] end) tr.

(** [nextFrameTime] after [k] frames: [k] additions of the interval. *)
Fixpoint target (start interval : Q) (k : nat) : Q :=
  match k with
  | O => start
  | S k' => target start interval k' + interval
  end.

(** What [drawNextFrame] emits for frame [k], when the clock had been read
    [r] times before [createVideo] started. *)
Definition frame_events (env : Browser) (onProgress : bool)
    (interval : Q) (n r k : nat) (f : ImageData) : list Event :=
  [EvPutImageData f]
  ++ (if has_requestFrame env then [EvRequestFrame] else [])
  ++ (if onProgress then [EvProgress (k + 1) (Num (natQ n))] else [])
  ++ [EvSetTimeout DrawNextFrame
        (Qmax 0 (target (clock env r) interval (S k)
                 - clock env (r + 2 * k + 2)))].

Fixpoint schedule_events (env : Browser) (onProgress : bool)
    (interval : Q) (n r k : nat) (frames : list ImageData) : list Event :=
  match frames with
  | [] => []
  | f :: rest =>
      frame_events env onProgress interval n r k f
      ++ schedule_events env onProgress interval n r (S k) rest
  end.

(** The key settings [processFrames] selects for a colour mode. *)
Definition settings_of (colorType : ColorType) : ChromaKeySettings :=
  match colorType with
  | green => GREEN_SCREEN_SETTINGS
  | blue => BLUE_SCREEN_SETTINGS
  end.

(** What [extractFrames] does for frame [i]: the time it seeks to, the
    frame it captures there, the calls it makes. *)
Definition seek_time (fps : Q) (i : nat) : Q := natQ i * (1 / fps).

Definition frame_at (video : HTMLVideoElement) (fps : Q) (i : nat) : ImageData :=
  {| data := picture video (seek_time fps i);
     width := videoWidth video; height := videoHeight video |}.

Definition extract_events (fps : Q) (onProgress : bool) (total : number)
    (i : nat) : list Event :=
  EvSeek (seek_time fps i)
  :: (if onProgress then [EvProgress (i + 1) total] else []).

(** Every live GL object has a name that was handed out already. *)
Definition fresh (w : World) : Prop :=
  Forall (fun o => (snd o < gl_next w)%nat) (gl_live w).

(** What [processFrames] emits for frame [i] of [n]. *)
Definition process_events (onProgress : bool) (n i : nat) : list Event :=
  (if onProgress then [EvProgress (i + 1) (Num (natQ n))] else [])
  ++ (if Nat.eqb (i mod 5) 0 then [EvYield] else []).

(** The times a trace hands control back to the event loop. *)
Definition yields (tr : list Event) : nat :=
  length (filter (fun e => match e with EvYield => true | _ => false end) tr).

(** Lists of chunks that all have length [n]. *)
Definition uniform {A : Type} (n : nat) (rows : list (list A)) : Prop :=
  Forall (fun r => length r = n) rows.

(** ** Intermediate values of the shaders' [main], named for the statements *)

Definition hue_of (c : vec4) : Q := v3x (MaskShader.rgb2hsv (rgb c)) * 360.
Definition sat_of (c : vec4) : Q := v3y (MaskShader.rgb2hsv (rgb c)).
Definition val_of (c : vec4) : Q := v3z (MaskShader.rgb2hsv (rgb c)).

Definition hueDiff_of (u : Uniforms) (c : vec4) : Q :=
  let hueDiff := Qabs (hue_of c - u_hueTarget u) in
  if Qlt_le_dec 180 hueDiff then 360 - hueDiff else hueDiff.

Definition hueMatch_of (u : Uniforms) (c : vec4) : Q :=
  1 - smoothstep (u_hueRange u * 0.5) (u_hueRange u) (hueDiff_of u c).

Definition satMatch_of (u : Uniforms) (c : vec4) : Q :=
  smoothstep (u_satMin u * 0.5) (u_satMin u) (sat_of c).

Definition valMatch_of (u : Uniforms) (c : vec4) : Q :=
  step (u_valMin u) (val_of c) * step (val_of c) (u_valMax u).

Definition dominance_of (u : Uniforms) (c : vec4) : Q :=
  if Qlt_le_dec (u_hueTarget u) 180
  then smoothstep 0 0.1 (v4y c - Qmax (v4x c) (v4z c))
  else smoothstep 0 0.1 (v4z c - Qmax (v4x c) (v4y c)).

Definition keyStrength_of (u : Uniforms) (c : vec4) : Q :=
  hueMatch_of u c * satMatch_of u c * valMatch_of u c * dominance_of u c.

(** The key channel of a colour and the average of the other two. *)
Definition keyChannel (isGreen : bool) (c : vec3) : Q :=
  if isGreen then v3y c else v3z c.
Definition othersAverage (isGreen : bool) (c : vec3) : Q :=
  if isGreen then (v3x c + v3z c) / 2 else (v3x c + v3y c) / 2.

(** Channels of at most 1: what a texture of bytes up to 255 holds. *)
Definition at_most_one (c : vec4) : Prop :=
  v4x c <= 1 /\ v4y c <= 1 /\ v4z c <= 1 /\ v4w c <= 1.

(** Frames of the size of the video. *)
Definition video_sized (video : HTMLVideoElement) (f : ImageData) : Prop :=
  width f = videoWidth video /\ height f = videoHeight video.

(** What a world computation leaves alone when it only draws and sets
    timers: the canvases, the GL objects, the processor, the video time. *)
Definition same_resources (w w' : World) : Prop :=
  canvases w' = canvases w /\ gl_next w' = gl_next w
  /\ gl_live w' = gl_live w /\ processor w' = processor w
  /\ currentTime w' = currentTime w.

(** A colour with its green and blue channels exchanged, and the uniforms
    with the hue target reflected (120 becomes 240). *)
Definition swap_gb (c : vec4) : vec4 := Vec4 (v4x c) (v4z c) (v4y c) (v4w c).
Definition swap_gb3 (c : vec3) : vec3 := Vec3 (v3x c) (v3z c) (v3y c).
Definition mirror (u : Uniforms) : Uniforms := {|
  u_hueTarget := 360 - u_hueTarget u;
  u_hueRange := u_hueRange u;
  u_satMin := u_satMin u;
  u_valMin := u_valMin u;
  u_valMax := u_valMax u;
  u_smoothness := u_smoothness u;
  u_spillSuppression := u_spillSuppression u
|}.

(** * Properties *)

(** ** The GLSL built-ins *)

Lemma step_ge (edge x : Q) : edge <= x -> step edge x = 1.
Proof.
  intros H. unfold step. destruct (Qlt_le_dec x edge) as [L | L]; [lra | reflexivity].
Qed.

Lemma step_lt (edge x : Q) : x < edge -> step edge x = 0.
Proof.
  intros H. unfold step. destruct (Qlt_le_dec x edge) as [L | L]; [reflexivity | lra].
Qed.

Lemma step_cases (edge x : Q) : step edge x = 0 \/ step edge x = 1.
Proof. unfold step. destruct (Qlt_le_dec x edge); auto. Qed.

#[global] Instance step_Proper : Proper (Qeq ==> Qeq ==> eq) step.
Proof.
  intros e1 e2 He x1 x2 Hx. unfold step.
  destruct (Qlt_le_dec x1 e1), (Qlt_le_dec x2 e2); trivial; lra.
Qed.

#[global] Instance mix_Proper : Proper (Qeq ==> Qeq ==> Qeq ==> Qeq) mix.
Proof. intros x1 x2 Hx y1 y2 Hy a1 a2 Ha. unfold mix. now rewrite Hx, Hy, Ha. Qed.

Lemma mix_0 (x y : Q) : mix x y 0 == x.
Proof. unfold mix. ring. Qed.

Lemma mix_1 (x y : Q) : mix x y 1 == y.
Proof. unfold mix. ring. Qed.


#[global] Instance clamp_Proper : Proper (Qeq ==> Qeq ==> Qeq ==> Qeq) clamp.
Proof. intros x1 x2 Hx l1 l2 Hl h1 h2 Hh. unfold clamp. now rewrite Hx, Hl, Hh. Qed.

Lemma clamp_bounds (x lo hi : Q) : lo <= hi -> lo <= clamp x lo hi <= hi.
Proof.
  intros H. unfold clamp.
  destruct (Q.min_spec (Qmax x lo) hi) as [[? E] | [? E]]; rewrite E;
  destruct (Q.max_spec x lo) as [[? F] | [? F]]; rewrite ?F in *; lra.
Qed.

Lemma clamp_low (x lo hi : Q) : lo <= hi -> x <= lo -> clamp x lo hi == lo.
Proof.
  intros H L. unfold clamp. rewrite (Q.max_r x lo) by lra. now apply Q.min_l.
Qed.

Lemma clamp_high (x lo hi : Q) : lo <= hi -> hi <= x -> clamp x lo hi == hi.
Proof.
  intros H L. unfold clamp. rewrite (Q.max_l x lo) by lra. now apply Q.min_r.
Qed.

Lemma clamp_inside (x lo hi : Q) : lo <= x <= hi -> clamp x lo hi == x.
Proof.
  intros H. unfold clamp. rewrite (Q.max_l x lo) by lra. apply Q.min_l; lra.
Qed.

#[global] Instance smoothstep_Proper :
  Proper (Qeq ==> Qeq ==> Qeq ==> Qeq) smoothstep.
Proof.
  intros a1 a2 Ha b1 b2 Hb x1 x2 Hx. unfold smoothstep.
  now rewrite Ha, Hb, Hx.
Qed.

Lemma cubic_unit (t : Q) : 0 <= t <= 1 -> 0 <= t * t * (3 - 2 * t) <= 1.
Proof.
  intros H. split.
  - assert (0 <= t * t) by nra. assert (0 <= 3 - 2 * t) by lra. nra.
  - assert (0 <= (1 - t) * (1 - t) * (1 + 2 * t)).
    { assert (0 <= (1 - t) * (1 - t)) by nra.
      assert (0 <= 1 + 2 * t) by lra. nra. }
    lra.
Qed.

Lemma smoothstep_unit (e0 e1 x : Q) : 0 <= smoothstep e0 e1 x <= 1.
Proof.
  unfold smoothstep. apply cubic_unit. apply clamp_bounds. lra.
Qed.

Lemma smoothstep_below (e0 e1 x : Q) :
  e0 < e1 -> x <= e0 -> smoothstep e0 e1 x == 0.
Proof.
  intros H L. unfold smoothstep.
  rewrite (clamp_low ((x - e0) / (e1 - e0)) 0 1); [ring | lra | ].
  apply Qle_shift_div_r; lra.
Qed.

Lemma smoothstep_above (e0 e1 x : Q) :
  e0 < e1 -> e1 <= x -> smoothstep e0 e1 x == 1.
Proof.
  intros H L. unfold smoothstep.
  rewrite (clamp_high ((x - e0) / (e1 - e0)) 0 1); [ring | lra | ].
  apply Qle_shift_div_l; lra.
Qed.

(** Reduce the projections of [setUniforms] only. *)
Ltac uniforms :=
  cbn [setUniforms u_hueTarget u_hueRange u_satMin u_valMin u_valMax
       u_smoothness u_spillSuppression] in *.

(** ** The two shaders compute the same key *)

Lemma rgb2hsv_same (c : vec3) : BlackBgShader.rgb2hsv c = MaskShader.rgb2hsv c.
Proof. reflexivity. Qed.

Lemma main_alpha_view (u : Uniforms) (c : vec4) :
  MaskShader.main_alpha u c
  = 1 - smoothstep (0.3 - u_smoothness u) (0.3 + u_smoothness u)
                   (keyStrength_of u c).
Proof.
  unfold MaskShader.main_alpha, keyStrength_of, hueMatch_of, hueDiff_of,
    satMatch_of, valMatch_of, dominance_of, hue_of, sat_of, val_of.
  cbv zeta. reflexivity.
Qed.

Lemma main_alpha_same (u : Uniforms) (c : vec4) :
  BlackBgShader.main_alpha u c = MaskShader.main_alpha u c.
Proof.
  unfold BlackBgShader.main_alpha, MaskShader.main_alpha, BlackBgShader.isGreen.
  rewrite rgb2hsv_same.
  destruct (Qlt_le_dec (u_hueTarget u) 180); reflexivity.
Qed.



Lemma keyIsGreen_isGreen (s : ChromaKeySettings) :
  Reference.keyIsGreen s = BlackBgShader.isGreen (setUniforms s).
Proof.
  unfold Reference.keyIsGreen, BlackBgShader.isGreen. uniforms.
  destruct (Qlt_le_dec (hueTarget s) 180) as [L | L].
  - destruct (Qle_bool 180 (hueTarget s)) eqn:E; [ | reflexivity].
    apply Qle_bool_iff in E. lra.
  - apply Qle_bool_iff in L. now rewrite L.
Qed.

(** ** Comparison with the reference classifier *)

Lemma wrap_is_circular (d : Q) :
  (if Qlt_le_dec 180 d then 360 - d else d) == Qmin d (360 - d).
Proof.
  destruct (Qlt_le_dec 180 d) as [L | L].
  - symmetry. apply Q.min_r. lra.
  - symmetry. apply Q.min_l. lra.
Qed.

Lemma circular_at_most_180 (hue target : Q) :
  Reference.hueDiff hue target <= 180.
Proof.
  unfold Reference.hueDiff.
  destruct (Q.min_spec (Qabs (hue - target)) (360 - Qabs (hue - target)))
    as [[L E] | [L E]]; rewrite E; lra.
Qed.

Lemma hueDiff_of_reference (s : ChromaKeySettings) (c : vec4) :
  hueDiff_of (setUniforms s) c == Reference.hueDiff (hue_of c) (hueTarget s).
Proof. unfold hueDiff_of, Reference.hueDiff. uniforms. apply wrap_is_circular. Qed.

Lemma valMatch_of_reference (s : ChromaKeySettings) (c : vec4) :
  valMatch_of (setUniforms s) c == Reference.valMatch s (val_of c).
Proof.
  unfold valMatch_of, Reference.valMatch, step. uniforms.
  destruct (Qlt_le_dec (val_of c) (valMin s)) as [L1 | L1];
  destruct (Qlt_le_dec (valMax s) (val_of c)) as [L2 | L2];
  destruct (Qle_bool (valMin s) (val_of c)) eqn:E1;
  destruct (Qle_bool (val_of c) (valMax s)) eqn:E2; cbn [andb];
  try reflexivity;
  try (apply Qle_bool_iff in E1); try (apply Qle_bool_iff in E2);
  try lra;
  try (apply Qle_bool_iff in L1; congruence);
  try (apply Qle_bool_iff in L2; congruence).
Qed.

Lemma dominance_of_reference (s : ChromaKeySettings) (c : vec4) :
  dominance_of (setUniforms s) c = Reference.dominance s (rgb c).
Proof.
  unfold dominance_of, Reference.dominance.
  rewrite keyIsGreen_isGreen. unfold BlackBgShader.isGreen. uniforms.
  destruct (Qlt_le_dec (hueTarget s) 180); reflexivity.
Qed.

Lemma half_is_div2 (x : Q) : x * 0.5 == x / 2.
Proof. field. Qed.

Lemma keyStrength_of_reference (s : ChromaKeySettings) (c : vec4) :
  keyStrength_of (setUniforms s) c
  == Reference.keyStrength s (hue_of c) (sat_of c) (val_of c) (rgb c).
Proof.
  unfold keyStrength_of, Reference.keyStrength.
  rewrite valMatch_of_reference, dominance_of_reference.
  unfold hueMatch_of, Reference.hueMatch, satMatch_of, Reference.satMatch.
  rewrite hueDiff_of_reference. uniforms.
  now rewrite !half_is_div2.
Qed.

(** C2. For every pixel and every key settings value, the alpha computed by
    the mask shader and by the black-background shader is the reference
    alpha: 1 - smoothstep(0.3 - smoothness, 0.3 + smoothness, keyStrength),
    where keyStrength = hueMatch * satMatch * valMatch * dominance, hueMatch
    falls off over the circular hue distance (which never exceeds 180),
    satMatch is a smoothstep of the saturation, valMatch is the 0/1 gate
    valMin <= val <= valMax, and dominance is taken on green when
    hueTarget < 180 and on blue otherwise.  Both shaders use the same
    RGB-to-HSV conversion. *)
Theorem alpha_is_reference_alpha (s : ChromaKeySettings) (c : vec4) :
  let hsv := MaskShader.rgb2hsv (rgb c) in
  let hue := v3x hsv * 360 in
  let sat := v3y hsv in
  let val := v3z hsv in
  MaskShader.main_alpha (setUniforms s) c
    == Reference.alpha s hue sat val (rgb c)
  /\ BlackBgShader.main_alpha (setUniforms s) c
    == Reference.alpha s hue sat val (rgb c)
  /\ BlackBgShader.rgb2hsv (rgb c) = hsv
  /\ Reference.hueDiff hue (hueTarget s) <= 180.
Proof.
  intros hsv hue sat val.
  assert (A : MaskShader.main_alpha (setUniforms s) c
              == Reference.alpha s hue sat val (rgb c)).
  { rewrite main_alpha_view. unfold Reference.alpha.
    rewrite keyStrength_of_reference. reflexivity. }
  repeat split.
  - exact A.
  - rewrite main_alpha_same. exact A.
  - apply circular_at_most_180.
Qed.

(** ** The composite pass *)

Ltac projections :=
  cbn [v2x v2y v3x v3y v3z v4x v4y v4z v4w rgb scale3] in *.

Lemma despill_key (key sum k : Q) :
  key - Qmax 0 (key - sum * 0.5) * k == key - Qmax 0 (key - sum / 2) * k.
Proof. now rewrite half_is_div2. Qed.

Lemma despill_other (other key sum k : Q) :
  Qmin 1 (other + Qmax 0 (key - sum * 0.5) * k * 0.2)
  == Qmin 1 (other + 0.2 * (Qmax 0 (key - sum / 2) * k)).
Proof.
  rewrite half_is_div2. apply Q.min_compat; [reflexivity | ring].
Qed.

(** C3, amended.  For every pixel and every key settings value, the colour
    written by the composite pass is despilled * alpha, where
    spillStrength = spillSuppression * (1 - alpha * 0.5), excess is the
    positive part of (key channel - average of the other two), the key
    channel loses excess * spillStrength, and each of the other two channels
    gains 0.2 * excess * spillStrength and is capped at 1. *)
Theorem composite_is_reference_composite (s : ChromaKeySettings) (c : vec4) :
  veq3 (BlackBgShader.main_color (setUniforms s) c)
       (Reference.composite s (BlackBgShader.main_alpha (setUniforms s) c)
                            (rgb c)).
Proof.
  unfold BlackBgShader.main_color, Reference.composite, Reference.despill,
    Reference.excess, Reference.spillStrength.
  rewrite keyIsGreen_isGreen.
  set (alpha := BlackBgShader.main_alpha (setUniforms s) c).
  uniforms.
  set (k := spillSuppression s * (1 - alpha * 0.5)).
  unfold BlackBgShader.suppressSpill.
  destruct (BlackBgShader.isGreen (setUniforms s));
    unfold veq3; projections; repeat split;
    try (apply Qmult_comp; [ | reflexivity]);
    try apply despill_key; try apply despill_other.
Qed.

(** C3 as stated fails on yellow under the green preset: the red channel,
    already 1, is capped at 1 by the shader, whereas adding a fraction of
    the excess to it would exceed 1 (whether the fraction is taken of the
    excess or of the amount removed). *)
Lemma composite_as_stated_fails_on_yellow :
  let s := GREEN_SCREEN_SETTINGS in
  let c := Vec4 1 1 0 1 in
  let alpha := BlackBgShader.main_alpha (setUniforms s) c in
  ~ veq3 (BlackBgShader.main_color (setUniforms s) c)
         (Reference.composite_stated s alpha (rgb c))
  /\ ~ veq3 (BlackBgShader.main_color (setUniforms s) c)
            (Reference.composite_stated_removed s alpha (rgb c))
  /\ v3x (BlackBgShader.main_color (setUniforms s) c) == 1
  /\ v3x (Reference.composite_stated s alpha (rgb c)) == 1.1
  /\ v3x (Reference.composite_stated_removed s alpha (rgb c)) == 1.035.
Proof.
  cbv zeta. repeat split.
  - intros [H _]. vm_compute in H. discriminate.
  - intros [H _]. vm_compute in H. discriminate.
Qed.

(** ** Range of the colours *)

Lemma unit_mult (x y : Q) : in_unit x -> in_unit y -> in_unit (x * y).
Proof. unfold in_unit. intros. nra. Qed.

Lemma main_alpha_unit (u : Uniforms) (c : vec4) :
  in_unit (MaskShader.main_alpha u c).
Proof.
  rewrite main_alpha_view. unfold in_unit.
  pose proof (smoothstep_unit (0.3 - u_smoothness u) (0.3 + u_smoothness u)
                              (keyStrength_of u c)).
  lra.
Qed.

Lemma spill_bounds (key o1 o2 amount : Q) :
  in_unit key -> in_unit o1 -> in_unit o2 -> in_unit amount ->
  let excess := Qmax 0 (key - (o1 + o2) * 0.5) in
  in_unit (key - excess * amount)
  /\ in_unit (Qmin 1 (o1 + excess * amount * 0.2))
  /\ in_unit (Qmin 1 (o2 + excess * amount * 0.2))
  /\ Qmin key ((o1 + o2) / 2) <= key - excess * amount.
Proof.
  unfold in_unit. intros Hk H1 H2 Ha.
  set (excess := Qmax 0 (key - (o1 + o2) * 0.5)).
  assert (Hx : 0 <= excess /\ excess <= key /\
               (excess == 0 \/ excess == key - (o1 + o2) * 0.5)).
  { subst excess.
    destruct (Q.max_spec 0 (key - (o1 + o2) * 0.5)) as [[L E] | [L E]];
      rewrite E; repeat split; try lra;
      try (right; reflexivity); try (left; reflexivity). }
  clearbody excess. destruct Hx as (X0 & X1 & X2).
  assert (P : 0 <= excess * amount <= excess) by nra.
  set (p := excess * amount) in *. clearbody p.
  rewrite <- half_is_div2.
  repeat split.
  - lra.
  - lra.
  - destruct (Q.min_spec 1 (o1 + p * 0.2)) as [[L E] | [L E]]; rewrite E; lra.
  - apply Q.le_min_l.
  - destruct (Q.min_spec 1 (o2 + p * 0.2)) as [[L E] | [L E]]; rewrite E; lra.
  - apply Q.le_min_l.
  - destruct (Q.min_spec key ((o1 + o2) * 0.5)) as [[L E] | [L E]]; rewrite E;
      destruct X2 as [X2 | X2]; lra.
Qed.

(** C10. For a colour with all channels in [0,1] and an amount in [0,1],
    [suppressSpill] returns a colour with all channels in [0,1]: the two
    receiving channels are capped at 1, and the key channel, reduced by
    amount * excess, stays at or above the smaller of its old value and the
    average of the other two channels -- so it is not taken below that
    average when it started above it, and never below 0.  With a spill
    suppression setting in [0,1] every pixel of the composite pass is a
    colour with all channels in [0,1]. *)
Theorem suppressSpill_stays_in_range
    (color : vec3) (amount : Q) (isGreen : bool) (u : Uniforms) (c : vec4) :
  in_unit3 color -> in_unit amount ->
  in_unit4 c -> in_unit (u_spillSuppression u) ->
  let out := BlackBgShader.suppressSpill color amount isGreen in
  in_unit3 out
  /\ Qmin (keyChannel isGreen color) (othersAverage isGreen color)
     <= keyChannel isGreen out
  /\ (othersAverage isGreen color <= keyChannel isGreen color ->
      othersAverage isGreen color <= keyChannel isGreen out)
  /\ v3x out <= 1 /\ v3y out <= 1 /\ v3z out <= 1
  /\ in_unit3 (BlackBgShader.main_color u c).
Proof.
  intros Hcol Ham Hc Hss out.
  assert (S : forall col am g, in_unit3 col -> in_unit am ->
            in_unit3 (BlackBgShader.suppressSpill col am g)
            /\ Qmin (keyChannel g col) (othersAverage g col)
               <= keyChannel g (BlackBgShader.suppressSpill col am g)).
  { intros [r g0 b] am g Hu Hm. destruct Hu as (Hr & Hg & Hb). projections.
    unfold BlackBgShader.suppressSpill, keyChannel, othersAverage, in_unit3.
    destruct g; projections.
    - destruct (spill_bounds g0 r b am Hg Hr Hb Hm) as (A & B & C & D).
      cbv zeta in *. tauto.
    - destruct (spill_bounds b r g0 am Hb Hr Hg Hm) as (A & B & C & D).
      cbv zeta in *. tauto. }
  destruct (S color amount isGreen Hcol Ham) as [U K]. fold out in U, K.
  split; [exact U | ]. split; [exact K | ].
  split.
  { intros L. eapply Qle_trans; [ | exact K].
    apply Q.min_glb; [exact L | apply Qle_refl]. }
  destruct U as (Ux & Uy & Uz).
  split; [apply Ux | ]. split; [apply Uy | ]. split; [apply Uz | ].
  unfold BlackBgShader.main_color.
  rewrite main_alpha_same.
  pose proof (main_alpha_unit u c) as Ha.
  set (alpha := MaskShader.main_alpha u c) in *.
  assert (Hk : in_unit (u_spillSuppression u * (1 - alpha * 0.5))).
  { apply unit_mult; [exact Hss | ]. unfold in_unit in *. lra. }
  assert (Hrgb : in_unit3 (rgb c)).
  { unfold in_unit4, in_unit3, in_unit in *. projections. tauto. }
  destruct (S (rgb c) _ (BlackBgShader.isGreen u) Hrgb Hk) as [(Vx & Vy & Vz) _].
  unfold in_unit3. projections.
  repeat split; apply unit_mult; assumption.
Qed.

(** ** The shaders respect equality of rationals *)

#[global] Instance veq3_Equivalence : Equivalence veq3.
Proof.
  split.
  - intros a. repeat split; reflexivity.
  - intros a b (H1 & H2 & H3). repeat split; symmetry; assumption.
  - intros a b c (H1 & H2 & H3) (K1 & K2 & K3).
    repeat split; etransitivity; eassumption.
Qed.

#[global] Instance veq4_Equivalence : Equivalence veq4.
Proof.
  split.
  - intros a. repeat split; reflexivity.
  - intros a b (H1 & H2 & H3 & H4). repeat split; symmetry; assumption.
  - intros a b c (H1 & H2 & H3 & H4) (K1 & K2 & K3 & K4).
    repeat split; etransitivity; eassumption.
Qed.

#[global] Instance step_Proper_Qeq : Proper (Qeq ==> Qeq ==> Qeq) step.
Proof. intros e1 e2 He x1 x2 Hx. now rewrite (step_Proper e1 e2 He x1 x2 Hx). Qed.

#[global] Instance rgb2hsv_Proper : Proper (veq3 ==> veq3) MaskShader.rgb2hsv.
Proof.
  intros [r1 g1 b1] [r2 g2 b2] (Hr & Hg & Hb). projections.
  unfold MaskShader.rgb2hsv, mix4, veq3. cbv zeta. projections.
  rewrite Hr, Hg, Hb. repeat split; reflexivity.
Qed.

#[global] Instance hue_of_Proper : Proper (veq4 ==> Qeq) hue_of.
Proof.
  intros c1 c2 (Hr & Hg & Hb & _). unfold hue_of.
  assert (E : veq3 (MaskShader.rgb2hsv (rgb c1)) (MaskShader.rgb2hsv (rgb c2))).
  { apply rgb2hsv_Proper. repeat split; projections; assumption. }
  destruct E as (E & _). now rewrite E.
Qed.

#[global] Instance sat_of_Proper : Proper (veq4 ==> Qeq) sat_of.
Proof.
  intros c1 c2 (Hr & Hg & Hb & _). unfold sat_of.
  assert (E : veq3 (MaskShader.rgb2hsv (rgb c1)) (MaskShader.rgb2hsv (rgb c2))).
  { apply rgb2hsv_Proper. repeat split; projections; assumption. }
  destruct E as (_ & E & _). exact E.
Qed.

#[global] Instance val_of_Proper : Proper (veq4 ==> Qeq) val_of.
Proof.
  intros c1 c2 (Hr & Hg & Hb & _). unfold val_of.
  assert (E : veq3 (MaskShader.rgb2hsv (rgb c1)) (MaskShader.rgb2hsv (rgb c2))).
  { apply rgb2hsv_Proper. repeat split; projections; assumption. }
  destruct E as (_ & _ & E). exact E.
Qed.

Lemma hueDiff_of_circular (u : Uniforms) (c : vec4) :
  hueDiff_of u c == Reference.hueDiff (hue_of c) (u_hueTarget u).
Proof. unfold hueDiff_of, Reference.hueDiff. apply wrap_is_circular. Qed.

#[global] Instance keyStrength_of_Proper :
  Proper (eq ==> veq4 ==> Qeq) keyStrength_of.
Proof.
  intros u ? <- c1 c2 Hc. unfold keyStrength_of.
  assert (H1 : hueMatch_of u c1 == hueMatch_of u c2).
  { unfold hueMatch_of. rewrite !hueDiff_of_circular.
    unfold Reference.hueDiff. now rewrite (hue_of_Proper c1 c2 Hc). }
  assert (H2 : satMatch_of u c1 == satMatch_of u c2).
  { unfold satMatch_of. now rewrite (sat_of_Proper c1 c2 Hc). }
  assert (H3 : valMatch_of u c1 == valMatch_of u c2).
  { unfold valMatch_of. now rewrite (val_of_Proper c1 c2 Hc). }
  assert (H4 : dominance_of u c1 == dominance_of u c2).
  { unfold dominance_of. destruct Hc as (Hr & Hg & Hb & _).
    destruct (Qlt_le_dec (u_hueTarget u) 180); now rewrite Hr, Hg, Hb. }
  now rewrite H1, H2, H3, H4.
Qed.

#[global] Instance main_alpha_Proper :
  Proper (eq ==> veq4 ==> Qeq) MaskShader.main_alpha.
Proof.
  intros u ? <- c1 c2 Hc. rewrite !main_alpha_view.
  now rewrite (keyStrength_of_Proper u u eq_refl c1 c2 Hc).
Qed.

#[global] Instance suppressSpill_Proper :
  Proper (veq3 ==> Qeq ==> eq ==> veq3) BlackBgShader.suppressSpill.
Proof.
  intros [r1 g1 b1] [r2 g2 b2] (Hr & Hg & Hb) a1 a2 Ha g ? <-. projections.
  unfold BlackBgShader.suppressSpill, veq3.
  destruct g; projections; rewrite Hr, Hg, Hb, Ha; repeat split; reflexivity.
Qed.

#[global] Instance main_color_Proper :
  Proper (eq ==> veq4 ==> veq3) BlackBgShader.main_color.
Proof.
  intros u ? <- c1 c2 Hc. unfold BlackBgShader.main_color.
  rewrite !main_alpha_same.
  pose proof (main_alpha_Proper u u eq_refl c1 c2 Hc) as Ea.
  set (a1 := MaskShader.main_alpha u c1) in *.
  set (a2 := MaskShader.main_alpha u c2) in *.
  assert (Ergb : veq3 (rgb c1) (rgb c2)).
  { destruct Hc as (Hr & Hg & Hb & _). repeat split; projections; assumption. }
  assert (Ek : u_spillSuppression u * (1 - a1 * 0.5)
               == u_spillSuppression u * (1 - a2 * 0.5)) by now rewrite Ea.
  destruct (suppressSpill_Proper _ _ Ergb _ _ Ek (BlackBgShader.isGreen u) _ eq_refl)
    as (S1 & S2 & S3).
  unfold veq3, scale3. cbn [v3x v3y v3z].
  repeat split; apply Qmult_comp; assumption.
Qed.

#[global] Instance toByte_Proper : Proper (Qeq ==> eq) toByte.
Proof. intros x y H. unfold toByte. now rewrite H. Qed.

#[global] Instance storeColor_Proper : Proper (veq4 ==> eq) storeColor.
Proof.
  intros a b (H1 & H2 & H3 & H4). unfold storeColor.
  now rewrite (toByte_Proper _ _ H1), (toByte_Proper _ _ H2),
              (toByte_Proper _ _ H3), (toByte_Proper _ _ H4).
Qed.

(** ** The classifier on particular colours *)

Lemma epsilon_bounds : 0 < 1.0e-10 /\ 1.0e-10 <= 1 # 1000.
Proof. split; [reflexivity | discriminate]. Qed.

(** HSV of a colour whose green channel is the largest. *)
Lemma rgb2hsv_green_max (r g b : Q) :
  b <= g -> r < g ->
  veq3 (MaskShader.rgb2hsv (Vec3 r g b))
       (Vec3 (Qabs (-1 / 3 + (r - b) / (6 * (g - Qmin r b) + 1.0e-10)))
             ((g - Qmin r b) / (g + 1.0e-10))
             g).
Proof.
  intros Hb Hr.
  unfold MaskShader.rgb2hsv, mix4, veq3. cbv zeta. projections.
  rewrite (step_ge b g Hb). rewrite !mix_1.
  rewrite (step_lt g r Hr). rewrite !mix_0.
  repeat split; reflexivity.
Qed.

Lemma keyStrength_zero_alpha_one (u : Uniforms) (c : vec4) :
  0 < u_smoothness u -> u_smoothness u <= 0.3 ->
  keyStrength_of u c == 0 ->
  MaskShader.main_alpha u c == 1.
Proof.
  intros H0 H1 K. rewrite main_alpha_view, K.
  rewrite smoothstep_below; [ring | lra | lra].
Qed.

Lemma keyStrength_one_alpha_zero (u : Uniforms) (c : vec4) :
  0 < u_smoothness u -> u_smoothness u <= 0.7 ->
  keyStrength_of u c == 1 ->
  MaskShader.main_alpha u c == 0.
Proof.
  intros H0 H1 K. rewrite main_alpha_view, K.
  rewrite smoothstep_above; [ring | lra | lra].
Qed.

(** A pixel brighter than [valMax] is never keyed. *)
Lemma too_bright_not_keyed (u : Uniforms) (c : vec4) :
  0 < u_smoothness u -> u_smoothness u <= 0.3 ->
  u_valMax u < val_of c ->
  MaskShader.main_alpha u c == 1.
Proof.
  intros H0 H1 V. apply keyStrength_zero_alpha_one; trivial.
  unfold keyStrength_of, valMatch_of.
  rewrite (step_lt (val_of c) (u_valMax u) V). ring.
Qed.

(** A pixel whose key channel does not exceed the larger of the other two
    is never keyed. *)
Lemma not_dominant_not_keyed (u : Uniforms) (c : vec4) :
  0 < u_smoothness u -> u_smoothness u <= 0.3 ->
  keyChannel (BlackBgShader.isGreen u) (rgb c)
    <= (if BlackBgShader.isGreen u then Qmax (v4x c) (v4z c)
        else Qmax (v4x c) (v4y c)) ->
  MaskShader.main_alpha u c == 1.
Proof.
  intros H0 H1 D. apply keyStrength_zero_alpha_one; trivial.
  unfold keyStrength_of, dominance_of.
  unfold BlackBgShader.isGreen, keyChannel in D.
  destruct (Qlt_le_dec (u_hueTarget u) 180); projections;
    (rewrite smoothstep_below; [ring | reflexivity | lra]).
Qed.

(** Pure green, value 1, under the green preset: not keyed, and despilled. *)
Lemma pure_green_pixel :
  let u := setUniforms GREEN_SCREEN_SETTINGS in
  let c := Vec4 0 1 0 1 in
  MaskShader.main_alpha u c == 1
  /\ veq3 (BlackBgShader.main_color u c) (Vec3 0.07 0.65 0.07).
Proof.
  cbv zeta. split.
  - vm_compute. reflexivity.
  - repeat split; vm_compute; reflexivity.
Qed.


(** Without excess there is nothing to suppress. *)
Lemma despill_identity (color : vec3) (amount : Q) (isGreen : bool) :
  in_unit3 color ->
  keyChannel isGreen color <= othersAverage isGreen color ->
  veq3 (BlackBgShader.suppressSpill color amount isGreen) color.
Proof.
  destruct color as [r g b]. unfold in_unit3, in_unit, keyChannel, othersAverage.
  projections. intros (Hr & Hg & Hb) K.
  unfold BlackBgShader.suppressSpill, veq3.
  destruct isGreen; projections; rewrite <- half_is_div2 in K.
  - rewrite (Q.max_l 0 (g - (r + b) * 0.5)) by lra.
    repeat split; try ring.
    + setoid_replace (r + 0 * amount * 0.2) with r by ring. apply Q.min_r. lra.
    + setoid_replace (b + 0 * amount * 0.2) with b by ring. apply Q.min_r. lra.
  - rewrite (Q.max_l 0 (b - (r + g) * 0.5)) by lra.
    repeat split; try ring.
    + setoid_replace (r + 0 * amount * 0.2) with r by ring. apply Q.min_r. lra.
    + setoid_replace (g + 0 * amount * 0.2) with g by ring. apply Q.min_r. lra.
Qed.






(** ** The GL pass: rows, the flip, pixels *)

Section Chunks.

Context {A : Type} (n : nat).

Lemma length_concat_uniform (rows : list (list A)) :
  uniform n rows -> length (concat rows) = (length rows * n)%nat.
Proof.
  induction 1 as [ | r rs Hr _ IH]; simpl; [reflexivity | ].
  rewrite length_app, IH, Hr. reflexivity.
Qed.

Lemma chunk_of_concat (rows : list (list A)) (k : nat) :
  uniform n rows -> (k < length rows)%nat ->
  firstn n (skipn (k * n) (concat rows)) = nth k rows [].
Proof.
  intros U. revert k. induction U as [ | r rs Hr _ IH]; intros k Hk.
  - simpl in Hk. lia.
  - destruct k as [ | k].
    + simpl. rewrite firstn_app, Hr, Nat.sub_diag, firstn_O, app_nil_r.
      rewrite <- Hr. apply firstn_all.
    + simpl concat. simpl nth. rewrite <- IH by (simpl in Hk; lia).
      rewrite skipn_app, Hr.
      replace (S k * n - n)%nat with (k * n)%nat by lia.
      rewrite skipn_all2 by lia. reflexivity.
Qed.

End Chunks.

Lemma map_nth_reversed (rows : list (list Z)) :
  map (fun k => nth (length rows - 1 - k) rows []) (seq 0 (length rows))
  = rev rows.
Proof.
  apply (nth_ext _ _ [] []).
  - now rewrite length_map, length_seq, length_rev.
  - intros k Hk. rewrite length_map, length_seq in Hk.
    rewrite (nth_indep _ [] (nth (length rows - 1 - 0) rows []))
      by now rewrite length_map, length_seq.
    rewrite (map_nth (fun k => nth (length rows - 1 - k) rows [])).
    rewrite seq_nth by assumption.
    rewrite rev_nth by assumption.
    f_equal. lia.
Qed.

Lemma subarray_row (W : nat) (rows : list (list Z)) (k : nat) :
  uniform (W * 4) rows -> (k < length rows)%nat ->
  subarray (concat rows) (k * (W * 4)) (k * (W * 4) + W * 4) = nth k rows [].
Proof.
  intros U Hk. unfold subarray.
  replace (k * (W * 4) + W * 4 - k * (W * 4))%nat with (W * 4)%nat by lia.
  now apply chunk_of_concat.
Qed.

Lemma set_after_prefix (done rest src : list Z) :
  (length src <= length rest)%nat ->
  set (done ++ rest) src (length done) = done ++ src ++ skipn (length src) rest.
Proof.
  intros H. unfold set.
  rewrite firstn_app, Nat.sub_diag, firstn_O, app_nil_r, firstn_all.
  rewrite skipn_app.
  rewrite skipn_all2 by lia.
  replace (length done + length src - length done)%nat with (length src) by lia.
  reflexivity.
Qed.

Lemma skipn_repeat (x : Z) (a b : nat) :
  skipn a (repeat x b) = repeat x (b - a).
Proof.
  revert b. induction a as [ | a IH]; intros [ | b]; simpl; auto.
Qed.

(** The flip loop reverses the order of the rows. *)
Lemma flipY_reverses_rows (W H : nat) (rows : list (list Z)) :
  uniform (W * 4) rows -> length rows = H ->
  flipY W H (concat rows) = concat (rev rows).
Proof.
  intros U HL. unfold flipY.
  rewrite (length_concat_uniform _ rows U), HL.
  set (F := fun (flipped : list Z) (y : nat) =>
              set flipped
                (subarray (concat rows) ((H - 1 - y) * (W * 4))
                          ((H - 1 - y) * (W * 4) + W * 4)) (y * (W * 4))).
  assert (Inv : forall y, (y <= H)%nat ->
            fold_left F (seq 0 y) (repeat 0%Z (H * (W * 4)))
            = concat (map (fun k => nth (H - 1 - k) rows []) (seq 0 y))
              ++ repeat 0%Z ((H - y) * (W * 4))).
  { induction y as [ | y IH]; intros Hy.
    - simpl. now rewrite Nat.sub_0_r.
    - rewrite seq_S, fold_left_app, IH by lia. simpl fold_left.
      rewrite map_app, concat_app. simpl map. simpl (concat [_]).
      rewrite app_nil_r. unfold F.
      rewrite subarray_row by (trivial; lia).
      set (done := concat (map (fun k => nth (H - 1 - k) rows []) (seq 0 y))).
      set (R := nth (H - 1 - y) rows []).
      assert (LR : length R = (W * 4)%nat).
      { unfold uniform in U. rewrite Forall_forall in U. apply U.
        apply nth_In. lia. }
      assert (LD : length done = (y * (W * 4))%nat).
      { unfold done. rewrite (length_concat_uniform (W * 4)).
        - now rewrite length_map, length_seq.
        - unfold uniform in *. rewrite Forall_forall in *.
          intros x Hx. apply in_map_iff in Hx. destruct Hx as (k & <- & Hk).
          apply in_seq in Hk. apply U. apply nth_In. lia. }
      rewrite <- LD. rewrite set_after_prefix.
      + rewrite skipn_repeat, LR. rewrite <- app_assoc. do 3 f_equal. nia.
      + rewrite repeat_length, LR. nia. }
  rewrite Inv by lia. rewrite Nat.sub_diag. simpl repeat. rewrite app_nil_r.
  subst H. now rewrite map_nth_reversed.
Qed.

Lemma concat_map_concat {A : Type} (L : list (list (list A))) :
  concat (map (@concat A) L) = concat (concat L).
Proof.
  induction L as [ | l L IH]; simpl; [reflexivity | ].
  now rewrite concat_app, IH.
Qed.

Lemma storeColor_length (c : vec4) : length (storeColor c) = 4%nat.
Proof. reflexivity. Qed.

(** The output of [renderWithProgram] pixel by pixel: every pixel is the
    stored colour of one run of the fragment shader. *)
Lemma render_pixels (this : ChromaKeyProcessor) (program : Program)
    (img : ImageData) (s : ChromaKeySettings) :
  exists PX : list (list Z),
    data (renderWithProgram this program img s) = concat PX
    /\ length PX = (cw this * ch this)%nat
    /\ Forall (fun px => exists tc,
                 px = storeColor (fragmentShader program (texture2D img)
                                                 (setUniforms s) tc)) PX.
Proof.
  set (W := cw this). set (H := ch this).
  set (shade := fragmentShader program (texture2D img) (setUniforms s)).
  set (px := fun j i => storeColor (shade (v_texCoord_at (pixelCentre W H i j)))).
  set (rowpx := fun j => map (px j) (seq 0 W)).
  exists (concat (rev (map rowpx (seq 0 H)))).
  assert (RP : readPixels W H shade = concat (map (fun j => concat (rowpx j)) (seq 0 H))).
  { unfold readPixels. rewrite flat_map_concat_map. f_equal.
    apply map_ext. intros j. now rewrite flat_map_concat_map. }
  assert (UR : uniform (W * 4) (map (fun j => concat (rowpx j)) (seq 0 H))).
  { unfold uniform. rewrite Forall_forall. intros r Hr.
    apply in_map_iff in Hr. destruct Hr as (j & <- & _).
    rewrite (length_concat_uniform 4).
    - unfold rowpx. now rewrite length_map, length_seq.
    - unfold uniform. rewrite Forall_forall. intros x Hx.
      apply in_map_iff in Hx. destruct Hx as (i & <- & _). reflexivity. }
  split; [ | split].
  - unfold renderWithProgram. cbn [data]. fold W H shade.
    rewrite RP, (flipY_reverses_rows W H _ UR)
      by now rewrite length_map, length_seq.
    rewrite <- concat_map_concat. f_equal.
    rewrite <- map_rev. rewrite <- (map_map rowpx (@concat _)).
    now rewrite map_rev.
  - rewrite (length_concat_uniform W).
    + now rewrite length_rev, length_map, length_seq, Nat.mul_comm.
    + unfold uniform. rewrite Forall_forall. intros r Hr.
      apply in_rev, in_map_iff in Hr. destruct Hr as (j & <- & _).
      unfold rowpx. now rewrite length_map, length_seq.
  - rewrite Forall_forall. intros x Hx.
    apply in_concat in Hx. destruct Hx as (r & Hr & Hx).
    apply in_rev, in_map_iff in Hr. destruct Hr as (j & <- & _).
    apply in_map_iff in Hx. destruct Hx as (i & <- & _).
    now exists (v_texCoord_at (pixelCentre W H i j)).
Qed.

Lemma pixelAt_concat (img : ImageData) (PX : list (list Z)) (k : nat) :
  data img = concat PX -> uniform 4 PX -> (k < length PX)%nat ->
  pixelAt img k = nth k PX [].
Proof.
  intros E U Hk. unfold pixelAt. rewrite E, Nat.mul_comm.
  now apply chunk_of_concat.
Qed.

Lemma stored_pixels_uniform (P : list Z -> Prop) (PX : list (list Z)) :
  (forall px, P px -> length px = 4%nat) -> Forall P PX -> uniform 4 PX.
Proof.
  intros HP F. unfold uniform. eapply Forall_impl; [ | exact F]. exact HP.
Qed.

(** Every pixel of a rendered frame is the stored colour of one run of the
    fragment shader, and the frame has the size of the processor. *)
Lemma render_pixelAt (this : ChromaKeyProcessor) (program : Program)
    (img : ImageData) (s : ChromaKeySettings) (k : nat) :
  (k < cw this * ch this)%nat ->
  exists tc,
    pixelAt (renderWithProgram this program img s) k
    = storeColor (fragmentShader program (texture2D img) (setUniforms s) tc).
Proof.
  intros Hk. destruct (render_pixels this program img s) as (PX & E & L & F).
  assert (U : uniform 4 PX).
  { eapply stored_pixels_uniform; [ | exact F].
    intros px (tc & ->). reflexivity. }
  rewrite (pixelAt_concat _ PX k E U) by lia.
  rewrite Forall_forall in F. apply F. apply nth_In. lia.
Qed.

Lemma render_length (this : ChromaKeyProcessor) (program : Program)
    (img : ImageData) (s : ChromaKeySettings) :
  length (data (renderWithProgram this program img s))
  = (cw this * ch this * 4)%nat.
Proof.
  destruct (render_pixels this program img s) as (PX & E & L & F).
  rewrite E, (length_concat_uniform 4), L; [reflexivity | ].
  eapply stored_pixels_uniform; [ | exact F]. intros px (tc & ->). reflexivity.
Qed.

Lemma toByte_range (x : Q) : (0 <= toByte x <= 255)%Z.
Proof.
  unfold toByte. pose proof (clamp_bounds x 0 1) as B.
  assert (B' : 0 <= clamp x 0 1 <= 1) by (apply B; lra).
  set (y := clamp x 0 1) in *. clearbody y.
  assert (L : (Qfloor 0 <= Qfloor (y * 255 + 0.5))%Z)
    by (apply Qfloor_resp_le; lra).
  assert (U : (Qfloor (y * 255 + 0.5) <= Qfloor 255.5)%Z)
    by (apply Qfloor_resp_le; lra).
  split; [exact L | exact U].
Qed.

Lemma toByte_one : toByte 1 = 255%Z.
Proof. reflexivity. Qed.



(** The affine map of positions to texture coordinates is the one the two
    attribute buffers prescribe at the six vertices. *)
Lemma texCoord_buffers_agree :
  Forall2 (fun pos tc => v2x (v_texCoord_at pos) == v2x tc
                         /\ v2y (v_texCoord_at pos) == v2y tc)
          positionBuffer texCoordBuffer.
Proof. repeat constructor. Qed.

(** A rendered frame is well formed: it has the processor's size and holds
    bytes. *)
Lemma render_well_formed (this : ChromaKeyProcessor) (program : Program)
    (img : ImageData) (s : ChromaKeySettings) :
  well_formed (renderWithProgram this program img s).
Proof.
  split; [apply render_length | ].
  destruct (render_pixels this program img s) as (PX & E & _ & F).
  rewrite E. apply Forall_concat.
  eapply Forall_impl; [ | exact F]. intros px (tc & ->).
  unfold storeColor. repeat constructor; apply toByte_range.
Qed.

(** The texture coordinates of the quad and the flip cancel: a pixel stays
    where it was.  Here on a 2 x 3 frame of colours that the classifier
    keeps and that have no excess. *)
Lemma render_keeps_pixel_positions :
  let img := {| data := [10; 5; 20; 255;   200; 100; 50; 255;
                         0; 100; 200; 255;  255; 0; 255; 255;
                         30; 20; 10; 255;   1; 1; 1; 255]%Z;
                width := 2; height := 3 |} in
  let this := {| cw := 2; ch := 3; maskProgram := 2; blackBgProgram := 5;
                 positionBufferId := 6; texCoordBufferId := 7; texture := 8 |} in
  renderWithProgram this BlackBgProgram img GREEN_SCREEN_SETTINGS = img.
Proof. vm_compute. reflexivity. Qed.

(** C4. For every input frame and every key settings value, every pixel of
    the mask pass is grayscale and opaque: the shader writes
    (alpha, alpha, alpha, 1), and in the frame read back the red, green and
    blue bytes of each pixel are one and the same byte, the stored alpha of
    that pixel, next to an alpha byte of 255. *)
Theorem mask_is_grayscale_opaque (this : ChromaKeyProcessor)
    (img : ImageData) (s : ChromaKeySettings) :
  (forall tex u tc,
      MaskShader.main tex u tc
      = let alpha := MaskShader.main_alpha u (tex tc) in
        Vec4 alpha alpha alpha 1)
  /\ length (data (renderWithProgram this MaskProgram img s))
     = (cw this * ch this * 4)%nat
  /\ forall k, (k < cw this * ch this)%nat ->
       exists tc,
         let alpha := MaskShader.main_alpha (setUniforms s) (texture2D img tc) in
         pixelAt (renderWithProgram this MaskProgram img s) k
         = [toByte alpha; toByte alpha; toByte alpha; 255%Z]
         /\ (0 <= toByte alpha <= 255)%Z.
Proof.
  split; [reflexivity | ]. split; [apply render_length | ].
  intros k Hk. destruct (render_pixelAt this MaskProgram img s k Hk) as (tc & E).
  exists tc. cbv zeta. split; [ | apply toByte_range].
  rewrite E. reflexivity.
Qed.

(** ** Frames filled with one colour *)



Lemma natQ_pos (n : nat) : (0 < n)%nat -> 1 <= natQ n.
Proof.
  intros H. unfold natQ. change 1 with (inject_Z 1).
  rewrite <- Zle_Qle. lia.
Qed.




Lemma fragment_respects_sample (program : Program) (tex1 tex2 : sampler2D)
    (u : Uniforms) (tc1 tc2 : vec2) :
  veq4 (tex1 tc1) (tex2 tc2) ->
  storeColor (fragmentShader program tex1 u tc1)
  = storeColor (fragmentShader program tex2 u tc2).
Proof.
  intros E. apply storeColor_Proper.
  destruct program; unfold fragmentShader.
  - unfold MaskShader.main. cbv zeta.
    pose proof (main_alpha_Proper u u eq_refl _ _ E) as Ea.
    repeat split; cbn [v4x v4y v4z v4w]; (exact Ea || reflexivity).
  - unfold BlackBgShader.main. cbv zeta.
    destruct (main_color_Proper u u eq_refl _ _ E) as (E1 & E2 & E3).
    repeat split; cbn [v4x v4y v4z v4w]; (assumption || reflexivity).
Qed.



(** ** The frame processor *)

Lemma bind_Ok {A B : Type} (m : M A) (k : A -> M B) (w w' : World) (a : A) :
  m w = (Ok a, w') -> bind m k w = k a w'.
Proof. intros H. unfold bind. now rewrite H. Qed.

Lemma bind_Throw {A B : Type} (m : M A) (k : A -> M B) (w w' : World) (e : Error) :
  m w = (Throw e, w') -> bind m k w = (Throw e, w').
Proof. intros H. unfold bind. now rewrite H. Qed.

Lemma processLoop_result (p : ChromaKeyProcessor) (s : ChromaKeySettings)
    (frames : list ImageData) (onProgress : bool) (n : nat) :
  forall (i : nat) (M B : list ImageData) (w : World),
    (i + n = length frames)%nat ->
    fst (processLoop p s frames onProgress n i M B w)
    = Ok (M ++ map (fun f => mask (processFrameAll p f s)) (skipn i frames),
          B ++ map (fun f => black (processFrameAll p f s)) (skipn i frames)).
Proof.
  induction n as [ | n IH]; intros i M B w Hi.
  - rewrite skipn_all2 by lia. simpl. now rewrite !app_nil_r.
  - destruct (nth_error frames i) as [f | ] eqn:E.
    2:{ apply nth_error_None in E. lia. }
    assert (S : skipn i frames = f :: skipn (S i) frames).
    { clear - E. revert i E. induction frames as [ | x l IHl]; intros [ | i] E;
        simpl in *; try discriminate.
      - now inversion E.
      - now apply IHl. }
    cbn [processLoop]. rewrite E, S. cbn [map].
    destruct onProgress; destruct (Nat.eqb (i mod 5) 0);
      unfold bind, emit, modify, ret;
      rewrite IH by lia; rewrite <- !app_assoc; reflexivity.
Qed.

Lemma gl_delete_Ok (k : GLKind) (n : nat) (w : World) :
  exists w', gl_delete k n w = (Ok tt, w').
Proof. unfold gl_delete, bind, get, set_gl, modify. eauto. Qed.

Lemma destroy_Ok (p : ChromaKeyProcessor) (w : World) :
  exists w', destroy p w = (Ok tt, w').
Proof.
  unfold destroy.
  destruct (gl_delete_Ok KBuffer (positionBufferId p) w) as (w1 & E1).
  rewrite (bind_Ok _ _ _ _ _ E1).
  destruct (gl_delete_Ok KBuffer (texCoordBufferId p) w1) as (w2 & E2).
  rewrite (bind_Ok _ _ _ _ _ E2).
  destruct (gl_delete_Ok KTexture (texture p) w2) as (w3 & E3).
  rewrite (bind_Ok _ _ _ _ _ E3).
  destruct (gl_delete_Ok KProgram (maskProgram p) w3) as (w4 & E4).
  rewrite (bind_Ok _ _ _ _ _ E4).
  apply gl_delete_Ok.
Qed.

Lemma gl_create_Ok (env : Browser) (k : GLKind) (w : World) :
  exists o w', gl_create env k w = (Ok o, w').
Proof.
  unfold gl_create. destruct (gl_creates env k).
  - unfold bind, get, set_gl, modify, ret. eauto.
  - unfold ret. eauto.
Qed.

Lemma gl_create_capable (env : Browser) (k : GLKind) (w : World) :
  gl_creates env k = true ->
  exists n w', gl_create env k w = (Ok (Some n), w').
Proof.
  intros H. unfold gl_create. rewrite H.
  unfold bind, get, set_gl, modify, ret. eauto.
Qed.

Lemma createShader_Ok (env : Browser) (t : ShaderType) (src : ShaderSource)
    (w : World) :
  exists o w', createShader env t src w = (Ok o, w').
Proof.
  unfold createShader.
  destruct (gl_create_Ok env KShader w) as (o & w1 & E).
  rewrite (bind_Ok _ _ _ _ _ E). destruct o as [n | ].
  - destruct (gl_compiles env t src).
    + unfold ret. eauto.
    + destruct (gl_delete_Ok KShader n w1) as (w2 & D).
      rewrite (bind_Ok _ _ _ _ _ D). unfold ret. eauto.
  - unfold ret. eauto.
Qed.

Lemma createShader_capable (env : Browser) (t : ShaderType) (src : ShaderSource)
    (w : World) :
  gl_creates env KShader = true -> gl_compiles env t src = true ->
  exists n w', createShader env t src w = (Ok (Some n), w').
Proof.
  intros C K. unfold createShader.
  destruct (gl_create_capable env KShader w C) as (n & w1 & E).
  rewrite (bind_Ok _ _ _ _ _ E), K. unfold ret. eauto.
Qed.

Lemma createProgram_Ok (env : Browser) (vs fs : nat) (w : World) :
  exists o w', createProgram env vs fs w = (Ok o, w').
Proof.
  unfold createProgram.
  destruct (gl_create_Ok env KProgram w) as (o & w1 & E).
  rewrite (bind_Ok _ _ _ _ _ E). destruct o as [n | ].
  - destruct (gl_links env).
    + unfold ret. eauto.
    + destruct (gl_delete_Ok KProgram n w1) as (w2 & D).
      rewrite (bind_Ok _ _ _ _ _ D). unfold ret. eauto.
  - unfold ret. eauto.
Qed.

Lemma createProgram_capable (env : Browser) (vs fs : nat) (w : World) :
  gl_creates env KProgram = true -> gl_links env = true ->
  exists n w', createProgram env vs fs w = (Ok (Some n), w').
Proof.
  intros C K. unfold createProgram.
  destruct (gl_create_capable env KProgram w C) as (n & w1 & E).
  rewrite (bind_Ok _ _ _ _ _ E), K. unfold ret. eauto.
Qed.

Ltac run_step L :=
  let o := fresh "o" in
  let w := fresh "w" in
  let E := fresh "E" in
  destruct L as (o & w & E); rewrite (bind_Ok _ _ _ _ _ E); clear E.

(** The constructor either returns a processor of the size asked for, or
    throws; it always comes back. *)
Lemma ChromaKeyProcessor_new_outcome (env : Browser) (w h : nat) (world : World) :
  match fst (ChromaKeyProcessor_new env w h world) with
  | Ok p => cw p = w /\ ch p = h
  | Throw _ => True
  | Pending => False
  end.
Proof.
  unfold ChromaKeyProcessor_new.
  unfold bind at 1. unfold createCanvas at 1, modify at 1. cbv beta iota.
  set (w0 := {| canvases := S (canvases world) |}).
  destruct (has_webgl env).
  2:{ unfold bind at 1, throw at 1. exact I. }
  unfold bind at 1, ret at 1. cbv beta iota.
  run_step (createShader_Ok env VERTEX_SHADER vertexShaderSource w0).
  run_step (createShader_Ok env FRAGMENT_SHADER maskFragmentShader w1).
  destruct o as [maskVS | ]; [ | exact I].
  destruct o0 as [maskFS | ]; [ | exact I].
  run_step (createProgram_Ok env maskVS maskFS w2).
  destruct o as [maskProg | ]; [ | exact I].
  run_step (createShader_Ok env VERTEX_SHADER vertexShaderSource w3).
  run_step (createShader_Ok env FRAGMENT_SHADER blackBgFragmentShader w4).
  destruct o as [blackVS | ]; [ | exact I].
  destruct o0 as [blackFS | ]; [ | exact I].
  run_step (createProgram_Ok env blackVS blackFS w5).
  destruct o as [blackProg | ]; [ | exact I].
  run_step (gl_create_Ok env KBuffer w6).
  destruct o as [pb | ]; [ | exact I].
  run_step (gl_create_Ok env KBuffer w7).
  destruct o as [tb | ]; [ | exact I].
  run_step (gl_create_Ok env KTexture w8).
  destruct o as [tx | ]; [ | exact I].
  split; reflexivity.
Qed.

Ltac run_capable L :=
  let n := fresh "n" in
  let w := fresh "w" in
  let E := fresh "E" in
  destruct L as (n & w & E); trivial; rewrite (bind_Ok _ _ _ _ _ E); clear E.

Lemma ChromaKeyProcessor_new_capable (env : Browser) (w h : nat) (world : World) :
  capable env ->
  exists p world', ChromaKeyProcessor_new env w h world = (Ok p, world')
                   /\ cw p = w /\ ch p = h.
Proof.
  intros (_ & Hgl & Hcr & Hco & Hli).
  unfold ChromaKeyProcessor_new.
  unfold bind at 1. unfold createCanvas at 1, modify at 1. cbv beta iota.
  set (w0 := {| canvases := S (canvases world) |}).
  rewrite Hgl. unfold bind at 1, ret at 1. cbv beta iota.
  run_capable (createShader_capable env VERTEX_SHADER vertexShaderSource w0).
  run_capable (createShader_capable env FRAGMENT_SHADER maskFragmentShader w1).
  run_capable (createProgram_capable env n n0 w2).
  run_capable (createShader_capable env VERTEX_SHADER vertexShaderSource w3).
  run_capable (createShader_capable env FRAGMENT_SHADER blackBgFragmentShader w4).
  run_capable (createProgram_capable env n2 n3 w5).
  run_capable (gl_create_capable env KBuffer w6).
  run_capable (gl_create_capable env KBuffer w7).
  run_capable (gl_create_capable env KTexture w8).
  unfold ret. eauto.
Qed.

Lemma processFrames_nonempty (env : Browser) (f0 : ImageData)
    (rest : list ImageData) (colorType : ColorType) (onProgress : bool)
    (world world' : World) (p : ChromaKeyProcessor) :
  ChromaKeyProcessor_new env (width f0) (height f0) world = (Ok p, world') ->
  fst (processFrames env (f0 :: rest) colorType onProgress world)
  = Ok (map (fun f => mask (processFrameAll p f (settings_of colorType)))
            (f0 :: rest),
        map (fun f => black (processFrameAll p f (settings_of colorType)))
            (f0 :: rest)).
Proof.
  intros N. unfold processFrames.
  rewrite (bind_Ok _ _ _ _ _ N).
  unfold bind at 1. unfold set_processor at 1, modify at 1.
  set (w1 := {| canvases := canvases world' |}).
  fold (settings_of colorType).
  pose proof (processLoop_result p (settings_of colorType) (f0 :: rest)
                onProgress (length (f0 :: rest)) 0 [] [] w1 eq_refl) as L.
  unfold bind at 1.
  destruct (processLoop p (settings_of colorType) (f0 :: rest) onProgress
              (length (f0 :: rest)) 0 [] [] w1) as [r w2].
  cbn [fst] in L. subst r. cbn [app skipn].
  destruct (destroy_Ok p w2) as (w3 & D).
  rewrite (bind_Ok _ _ _ _ _ D).
  reflexivity.
Qed.

Lemma processFrames_throws (env : Browser) (f0 : ImageData)
    (rest : list ImageData) (colorType : ColorType) (onProgress : bool)
    (world world' : World) (e : Error) :
  ChromaKeyProcessor_new env (width f0) (height f0) world = (Throw e, world') ->
  processFrames env (f0 :: rest) colorType onProgress world = (Throw e, world').
Proof.
  intros N. unfold processFrames. now rewrite (bind_Throw _ _ _ _ _ N).
Qed.

(** C5. For every input frame sequence and either colour mode, the frame
    processor returns a mask sequence and a composite sequence of the length
    of the input, whose element i is the mask, respectively the composite,
    that the processor of the run (sized to the first frame) computes from
    input frame i under the key settings of the colour mode.  The only other
    outcome is the error thrown by the construction of the processor, and
    there is none in a browser where canvas and GL calls succeed. *)
Theorem processFrames_index_aligned (env : Browser) (frames : list ImageData)
    (colorType : ColorType) (onProgress : bool) (world : World) :
  match fst (processFrames env frames colorType onProgress world) with
  | Ok (maskSeq, blackSeq) =>
      length maskSeq = length frames
      /\ length blackSeq = length frames
      /\ exists p,
           (forall f0, hd_error frames = Some f0 ->
                       cw p = width f0 /\ ch p = height f0)
           /\ forall i frame,
                nth_error frames i = Some frame ->
                nth_error maskSeq i
                = Some (mask (processFrameAll p frame (settings_of colorType)))
                /\ nth_error blackSeq i
                   = Some (black (processFrameAll p frame (settings_of colorType)))
  | Throw e =>
      exists f0, hd_error frames = Some f0
        /\ fst (ChromaKeyProcessor_new env (width f0) (height f0) world) = Throw e
  | Pending => False
  end
  /\ (capable env ->
      exists r, fst (processFrames env frames colorType onProgress world) = Ok r).
Proof.
  destruct frames as [ | f0 rest].
  - split.
    + cbn. split; [reflexivity | split; [reflexivity | ]].
      exists {| cw := 0; ch := 0; maskProgram := 0; blackBgProgram := 0;
                positionBufferId := 0; texCoordBufferId := 0; texture := 0 |}.
      split; [discriminate | ]. intros [ | i] frame; discriminate.
    + intros _. eexists. reflexivity.
  - pose proof (ChromaKeyProcessor_new_outcome env (width f0) (height f0) world) as O.
    destruct (ChromaKeyProcessor_new env (width f0) (height f0) world)
      as [[p | e | ] world'] eqn:N; cbn [fst] in O.
    + split.
      * rewrite (processFrames_nonempty env f0 rest colorType onProgress
                   world world' p N).
        rewrite !length_map. split; [reflexivity | split; [reflexivity | ]].
        exists p. split.
        -- intros f Hf. cbn in Hf. inversion Hf; subst. exact O.
        -- intros i frame Hi. rewrite !nth_error_map, Hi. split; reflexivity.
      * intros _. eexists.
        apply (processFrames_nonempty env f0 rest colorType onProgress
                 world world' p N).
    + rewrite (processFrames_throws env f0 rest colorType onProgress
                 world world' e N).
      cbn [fst]. split.
      * exists f0. split; [reflexivity | ]. now rewrite N.
      * intros C.
        destruct (ChromaKeyProcessor_new_capable env (width f0) (height f0)
                    world C) as (p & w' & N' & _).
        rewrite N in N'. discriminate.
    + contradiction.
Qed.

(** C6. On empty input the two stages differ.  The frame processor returns
    two empty sequences and leaves the world as it found it: no canvas and
    no GL object is created, so no processor is constructed (on one frame it
    does create a canvas and nine GL objects).  The reassembler throws
    'No frames to process' and leaves the world as it found it: no canvas,
    no recorder, no output. *)
Theorem empty_input_boundary (env : Browser) (fps : Q) (colorType : ColorType)
    (onProgress : bool) (fuel : nat) (world : World) :
  processFrames env [] colorType onProgress world = (Ok ([], []), world)
  /\ createVideo env fps [] onProgress fuel world
     = (Throw No_frames_to_process, world)
  /\ (let after := snd (processFrames a_browser [solid 1 1 [0; 0; 0; 255]%Z]
                                      colorType false initial_world) in
      canvases after = 1%nat /\ gl_next after = 9%nat).
Proof.
  split; [reflexivity | ]. split; [reflexivity | ].
  destruct colorType; vm_compute; split; reflexivity.
Qed.

(** ** Whole frames of one colour through the pipeline *)








Lemma a_browser_capable : capable a_browser.
Proof. repeat split. Defined.







(** ** The frame extractor *)

Lemma lt_number_Num (i : nat) (T : Z) :
  lt_number i (Num (inject_Z T)) = (Z.of_nat i <? T)%Z.
Proof.
  unfold lt_number, natQ.
  destruct (Qlt_le_dec (inject_Z (Z.of_nat i)) (inject_Z T)) as [L | L].
  - rewrite <- Zlt_Qlt in L. symmetry. now apply Z.ltb_lt.
  - rewrite <- Zle_Qle in L. symmetry. apply Z.ltb_ge. exact L.
Qed.

Lemma extractLoop_runs (video : HTMLVideoElement) (fps : Q) (onProgress : bool)
    (T : Z) (k : nat) :
  forall (i fuel : nat) (frames : list ImageData) (w : World),
    Z.of_nat (i + k) = Z.max 0 T -> (k <= fuel)%nat ->
    exists w',
      extractLoop video onProgress (Num (inject_Z T)) (1 / fps) fuel i frames w
      = (Ok (frames ++ map (frame_at video fps) (seq i k)), w')
      /\ trace w'
         = trace w
           ++ flat_map (extract_events fps onProgress (Num (inject_Z T)))
                       (seq i k).
Proof.
  induction k as [ | k IH]; intros i fuel frames w Hik Hf.
  - exists w. cbn [seq map flat_map]. rewrite !app_nil_r.
    assert (L : lt_number i (Num (inject_Z T)) = false).
    { rewrite lt_number_Num. apply Z.ltb_ge. lia. }
    destruct fuel; cbn [extractLoop]; rewrite L; split; reflexivity.
  - assert (L : lt_number i (Num (inject_Z T)) = true).
    { rewrite lt_number_Num. apply Z.ltb_lt. lia. }
    destruct fuel as [ | fuel]; [lia | ].
    cbn [extractLoop]. rewrite L.
    unfold seekToTime, captureImage.
    set (img := frame_at video fps i).
    set (w1 := snd ((emit (EvSeek (seek_time fps i)) ;;
                     set_currentTime (seek_time fps i) ;;
                     (if onProgress
                      then emit (EvProgress (i + 1) (Num (inject_Z T)))
                      else ret tt)) w)).
    destruct (IH (S i) fuel (frames ++ [img]) w1) as (w' & E & Tr);
      [lia | lia | ].
    exists w'. split.
    + cbn [seq map]. fold img.
      replace (frames ++ img :: map (frame_at video fps) (seq (S i) k))
        with ((frames ++ [img]) ++ map (frame_at video fps) (seq (S i) k))
        by (now rewrite <- app_assoc).
      rewrite <- E. unfold w1, img, frame_at, seek_time.
      destruct onProgress; reflexivity.
    + rewrite Tr.
      cbn [seq flat_map]. unfold w1, extract_events.
      destruct onProgress; cbn; rewrite <- ?app_assoc; reflexivity.
Qed.

Lemma extractLoop_endless (video : HTMLVideoElement) (onProgress : bool)
    (frameInterval : Q) (fuel : nat) :
  forall (i : nat) (frames : list ImageData) (w : World),
    fst (extractLoop video onProgress Infinity frameInterval fuel i frames w)
    = Pending.
Proof.
  induction fuel as [ | fuel IH]; intros i frames w; cbn [extractLoop lt_number].
  - reflexivity.
  - unfold seekToTime, captureImage, bind, emit, modify, set_currentTime, get, ret.
    cbv beta iota. destruct onProgress; apply IH.
Qed.

Lemma seek_time_is_quotient (fps : Q) (i : nat) :
  seek_time fps i == natQ i / fps.
Proof. unfold seek_time, Qdiv. ring. Qed.

Lemma seek_time_increases (fps : Q) (i : nat) :
  0 < fps -> seek_time fps i < seek_time fps (S i).
Proof.
  intros H. rewrite !seek_time_is_quotient.
  apply Qlt_shift_div_l; [exact H | ].
  unfold Qdiv. rewrite <- Qmult_assoc, (Qmult_comm (/ fps)), Qmult_inv_r by lra.
  rewrite Qmult_1_r. unfold natQ. rewrite <- Zlt_Qlt. lia.
Qed.

(** C9. Frame extraction from a source of duration d at rate fps (with a 2D
    canvas available and fps > 0) returns exactly floor(d * fps) frames;
    frame i is the picture captured after seeking to i * (1 / fps) = i / fps;
    the seek times increase strictly; after each frame the progress
    (i + 1, totalFrames) is reported when a callback is given; seeks and
    reports happen in this order.  For duration 0 and for an unknown duration
    (NaN) the result is the empty sequence and nothing is thrown.  (On an
    unbounded source, duration Infinity, the loop has no last iteration.) *)
Theorem extractFrames_schedule (env : Browser) (fps : Q)
    (video : HTMLVideoElement) (onProgress : bool) (fuel : nat) (world : World) :
  has_canvas2d env = true -> 0 < fps ->
  match duration video with
  | Num d =>
      0 <= d -> (Z.to_nat (Qfloor (d * fps)) <= fuel)%nat ->
      let total := Z.to_nat (Qfloor (d * fps)) in
      let totalFrames := Num (inject_Z (Qfloor (d * fps))) in
      exists frames world',
        extractFrames env fps video onProgress fuel world = (Ok frames, world')
        /\ frames = map (frame_at video fps) (seq 0 total)
        /\ length frames = total
        /\ Z.of_nat total = Qfloor (d * fps)
        /\ trace world'
           = trace world
             ++ flat_map (extract_events fps onProgress totalFrames) (seq 0 total)
        /\ (d == 0 -> frames = [])
  | NaN =>
      fst (extractFrames env fps video onProgress fuel world) = Ok []
      /\ trace (snd (extractFrames env fps video onProgress fuel world))
         = trace world
  | Infinity =>
      fst (extractFrames env fps video onProgress fuel world) = Pending
  end
  /\ forall i, seek_time fps i == natQ i / fps
               /\ seek_time fps i < seek_time fps (S i).
Proof.
  intros H2d Hfps. split.
  2:{ intros i. split; [apply seek_time_is_quotient | now apply seek_time_increases]. }
  unfold extractFrames. rewrite H2d.
  unfold bind at 1. unfold createCanvas at 1, modify at 1. cbv beta iota.
  unfold bind at 1, ret at 1. cbv beta iota.
  set (w0 := {| canvases := S (canvases world) |}).
  destruct (duration video) as [ | | d] eqn:D; cbn [times Math_floor].
  - destruct fuel; split; reflexivity.
  - destruct (Qlt_le_dec 0 fps) as [L | L]; [ | lra].
    apply extractLoop_endless.
  - intros Hd Hfuel. set (total := Z.to_nat (Qfloor (d * fps))) in *.
    assert (F0 : (0 <= Qfloor (d * fps))%Z).
    { change 0%Z with (Qfloor 0). apply Qfloor_resp_le. nra. }
    destruct (extractLoop_runs video fps onProgress (Qfloor (d * fps)) total
                0 fuel [] w0) as (w' & E & Tr).
    { unfold total. lia. }
    { exact Hfuel. }
    exists (map (frame_at video fps) (seq 0 total)), w'.
    split; [exact E | ]. split; [reflexivity | ].
    split; [now rewrite length_map, length_seq | ].
    split; [unfold total; lia | ].
    split; [exact Tr | ].
    intros Z0. unfold total.
    assert (Qfloor (d * fps) = 0%Z) as ->.
    { rewrite (Qfloor_comp (d * fps) 0) by (rewrite Z0; ring). reflexivity. }
    reflexivity.
Qed.

Lemma extractFrames_schedule_witness :
  let video := {| videoWidth := 1; videoHeight := 1; duration := Num 0.11;
                  picture := fun t => [Qfloor (t * 1000); 0; 0; 255]%Z |} in
  has_canvas2d a_browser = true /\ 0 < 30 /\ 0 <= 0.11
  /\ (Z.to_nat (Qfloor (0.11 * 30)) <= 5)%nat
  /\ exists frames world',
       extractFrames a_browser 30 video true 5 initial_world = (Ok frames, world')
       /\ length frames = 3%nat.
Proof.
  intros video.
  assert (H1 : has_canvas2d a_browser = true) by reflexivity.
  assert (H2 : 0 < 30) by reflexivity.
  assert (H3 : 0 <= 0.11) by discriminate.
  assert (H4 : (Z.to_nat (Qfloor (0.11 * 30)) <= 5)%nat) by (vm_compute; lia).
  split; [exact H1 | ]. split; [exact H2 | ]. split; [exact H3 | ].
  split; [exact H4 | ].
  destruct (extractFrames_schedule a_browser 30 video true 5 initial_world H1 H2)
    as [S _].
  destruct (S H3 H4) as (frames & world' & E & _ & L & _).
  exists frames, world'. split; [exact E | exact L].
Defined.

(** ** The reassembler *)

Lemma target_closed_form (start interval : Q) (k : nat) :
  target start interval k == start + natQ k * interval.
Proof.
  induction k as [ | k IH].
  - cbn [target]. unfold natQ. cbn. ring.
  - cbn [target]. rewrite IH. unfold natQ.
    rewrite Nat2Z.inj_succ, <- Z.add_1_r, inject_Z_plus.
    change (inject_Z 1) with 1. ring.
Qed.

(** Run the effects of a world computation, field by field. *)
Ltac run_world :=
  cbv beta iota zeta delta
    [bind ret throw get modify emit createCanvas set_gl set_processor
     set_currentTime set_canvas_image set_captured set_timers
     performance_now setTimeout putImageData requestFrame
     canvases gl_next gl_live processor currentTime canvas_image captured
     clock_reads timers trace frameIndex startTime nextFrameTime fst snd].

(** One run of [drawNextFrame] on a frame that exists. *)
Lemma drawNextFrame_frame (env : Browser) (frames : list ImageData)
    (interval : Q) (onProgress : bool) (st : Reassembly) (w : World)
    (f : ImageData) :
  nth_error frames (frameIndex st) = Some f ->
  exists w',
    drawNextFrame env frames interval onProgress st w
    = (Ok {| frameIndex := S (frameIndex st); startTime := startTime st;
             nextFrameTime := nextFrameTime st + interval |}, w')
    /\ trace w'
       = trace w
         ++ [EvPutImageData f]
         ++ (if has_requestFrame env then [EvRequestFrame] else [])
         ++ (if onProgress
             then [EvProgress (frameIndex st + 1) (Num (natQ (length frames)))]
             else [])
         ++ [EvSetTimeout DrawNextFrame
               (Qmax 0 (nextFrameTime st + interval
                        - clock env (S (clock_reads w))))]
    /\ clock_reads w' = S (S (clock_reads w))
    /\ timers w' = timers w
                   ++ [(DrawNextFrame,
                        Qmax 0 (nextFrameTime st + interval
                                - clock env (S (clock_reads w))))]
    /\ captured w' = captured w ++ (if has_requestFrame env then [f] else []).
Proof.
  intros E. unfold drawNextFrame. rewrite E.
  destruct (has_requestFrame env), onProgress; run_world;
    eexists; (split; [reflexivity | ]);
    run_world; rewrite <- ?app_assoc; cbn [app]; rewrite ?app_nil_r;
    repeat split; reflexivity.
Qed.

(** One run of [drawNextFrame] past the last frame. *)
Lemma drawNextFrame_done (env : Browser) (frames : list ImageData)
    (interval : Q) (onProgress : bool) (st : Reassembly) (w : World) :
  nth_error frames (frameIndex st) = None ->
  exists w',
    drawNextFrame env frames interval onProgress st w = (Ok st, w')
    /\ trace w' = trace w ++ [EvSetTimeout StopRecorder 100]
    /\ timers w' = timers w ++ [(StopRecorder, 100)]
    /\ captured w' = captured w.
Proof.
  intros E. unfold drawNextFrame. rewrite E.
  run_world. eexists. split; [reflexivity | ].
  run_world. repeat split; reflexivity.
Qed.

Lemma runTimers_fires_draw (env : Browser) (frames : list ImageData)
    (interval : Q) (onProgress : bool) (fuel : nat) (st : Reassembly)
    (w : World) (dl : Q) (rest : list (Callback * Q)) :
  timers w = (DrawNextFrame, dl) :: rest ->
  runTimers env frames interval onProgress (S fuel) st w
  = bind (drawNextFrame env frames interval onProgress st)
         (fun st' => runTimers env frames interval onProgress fuel st')
         (snd (set_timers rest w)).
Proof.
  intros H. cbn [runTimers]. unfold bind at 1, get at 1. cbv beta iota.
  rewrite H. reflexivity.
Qed.

Lemma runTimers_fires_stop (env : Browser) (frames : list ImageData)
    (interval : Q) (onProgress : bool) (fuel : nat) (st : Reassembly)
    (w : World) (dl : Q) (rest : list (Callback * Q)) :
  timers w = (StopRecorder, dl) :: rest ->
  exists w',
    runTimers env frames interval onProgress (S fuel) st w
    = (Ok (captured w), w')
    /\ trace w' = trace w ++ [EvRecorderStop]
    /\ captured w' = captured w.
Proof.
  intros H. cbn [runTimers]. unfold bind at 1, get at 1. cbv beta iota.
  rewrite H. run_world. eexists. split; [reflexivity | ].
  run_world. split; reflexivity.
Qed.

Lemma skipn_cons_nth {A : Type} (l : list A) (k : nat) (x : A) :
  nth_error l k = Some x -> skipn k l = x :: skipn (S k) l.
Proof.
  revert k. induction l as [ | y l IH]; intros [ | k] E; simpl in *;
    try discriminate.
  - now inversion E.
  - now apply IH.
Qed.

(** The timer loop from frame [k] on: it draws the remaining frames in
    order, each followed by the timer for the next, then sets the 100 ms
    timer and stops the recorder. *)
Lemma runTimers_runs (env : Browser) (frames : list ImageData)
    (interval : Q) (onProgress : bool) (r : nat) (n : nat) :
  forall (k fuel : nat) (st : Reassembly) (w : World) (dl : Q),
    (k + n = length frames)%nat ->
    frameIndex st = k ->
    nextFrameTime st = target (clock env r) interval k ->
    clock_reads w = (r + 2 * k + 1)%nat ->
    timers w = [(DrawNextFrame, dl)] ->
    (n + 2 <= fuel)%nat ->
    exists w',
      runTimers env frames interval onProgress fuel st w
      = (Ok (captured w
             ++ (if has_requestFrame env then skipn k frames else [])), w')
      /\ trace w'
         = trace w
           ++ schedule_events env onProgress interval (length frames) r k
                              (skipn k frames)
           ++ [EvSetTimeout StopRecorder 100; EvRecorderStop]
      /\ captured w'
         = captured w ++ (if has_requestFrame env then skipn k frames else []).
Proof.
  induction n as [ | n IH]; intros k fuel st w dl Hk Hi Ht Hc Htm Hf.
  - destruct fuel as [ | [ | fuel]]; try lia.
    rewrite (runTimers_fires_draw _ _ _ _ _ _ _ _ _ Htm).
    assert (E : nth_error frames (frameIndex st) = None).
    { apply nth_error_None. lia. }
    destruct (drawNextFrame_done env frames interval onProgress st
                (snd (set_timers [] w)) E) as (w1 & D & T1 & M1 & C1).
    rewrite (bind_Ok _ _ _ _ _ D).
    destruct (runTimers_fires_stop env frames interval onProgress fuel st w1
                100 [] M1) as (w2 & R & T2 & C2).
    cbn [set_timers modify snd trace timers captured] in T1, C1.
    exists w2. rewrite skipn_all2 by lia. cbn [schedule_events app].
    assert (B : captured w ++ (if has_requestFrame env then [] else [])
                = captured w1).
    { rewrite C1. destruct (has_requestFrame env); now rewrite app_nil_r. }
    split; [ | split].
    + rewrite B. exact R.
    + rewrite T2, T1. now rewrite <- app_assoc.
    + rewrite C2, <- B. reflexivity.
  - destruct fuel as [ | fuel]; [lia | ].
    rewrite (runTimers_fires_draw _ _ _ _ _ _ _ _ _ Htm).
    destruct (nth_error frames (frameIndex st)) as [f | ] eqn:E.
    2:{ apply nth_error_None in E. lia. }
    destruct (drawNextFrame_frame env frames interval onProgress st
                (snd (set_timers [] w)) f E) as (w1 & D & T1 & R1 & M1 & C1).
    rewrite (bind_Ok _ _ _ _ _ D).
    cbn [set_timers modify snd trace clock_reads timers captured app]
      in T1, R1, M1, C1.
    set (st' := {| frameIndex := S (frameIndex st); startTime := startTime st;
                   nextFrameTime := nextFrameTime st + interval |}) in *.
    assert (Hk' : (S k + n = length frames)%nat) by lia.
    assert (Hi' : frameIndex st' = S k) by (cbn [frameIndex st']; now rewrite Hi).
    assert (Ht' : nextFrameTime st' = target (clock env r) interval (S k))
      by (cbn [nextFrameTime st' target]; now rewrite Ht).
    assert (Hc' : clock_reads w1 = (r + 2 * S k + 1)%nat) by (rewrite R1, Hc; lia).
    assert (Hf' : (n + 2 <= fuel)%nat) by lia.
    destruct (IH (S k) fuel st' w1 _ Hk' Hi' Ht' Hc' M1 Hf') as (w2 & R & T2 & C2).
    + exists w2.
      rewrite Hi in E. rewrite (skipn_cons_nth _ _ _ E).
      cbn [schedule_events]. unfold frame_events.
      assert (B : captured w ++ (if has_requestFrame env
                                 then f :: skipn (S k) frames else [])
                  = captured w1 ++ (if has_requestFrame env
                                    then skipn (S k) frames else [])).
      { rewrite C1. destruct (has_requestFrame env);
          rewrite <- ?app_assoc; rewrite ?app_nil_r; reflexivity. }
      split; [ | split].
      * rewrite B. exact R.
      * rewrite T2, T1, Ht, Hc, Hi. cbn [target].
        replace (S (r + 2 * k + 1)) with (r + 2 * k + 2)%nat by lia.
        repeat (rewrite <- app_assoc || rewrite <- app_comm_cons).
        reflexivity.
      * rewrite C2, B. reflexivity.
Qed.

Lemma puts_app (a b : list Event) : puts (a ++ b) = puts a ++ puts b.
Proof. apply flat_map_app. Qed.

Lemma timeouts_app (a b : list Event) :
  timeouts (a ++ b) = timeouts a ++ timeouts b.
Proof. apply flat_map_app. Qed.

Lemma puts_schedule (env : Browser) (onProgress : bool) (interval : Q)
    (n r : nat) (frames : list ImageData) :
  forall k, puts (schedule_events env onProgress interval n r k frames) = frames.
Proof.
  induction frames as [ | f rest IH]; intros k; [reflexivity | ].
  cbn [schedule_events]. rewrite puts_app, IH. unfold frame_events.
  destruct (has_requestFrame env), onProgress; reflexivity.
Qed.

Lemma timeouts_schedule (env : Browser) (onProgress : bool) (interval : Q)
    (n r : nat) (frames : list ImageData) :
  forall k,
    timeouts (schedule_events env onProgress interval n r k frames)
    = map (fun i => (DrawNextFrame,
                     Qmax 0 (target (clock env r) interval (S i)
                             - clock env (r + 2 * i + 2))))
          (seq k (length frames)).
Proof.
  induction frames as [ | f rest IH]; intros k; [reflexivity | ].
  cbn [schedule_events length seq map]. rewrite timeouts_app, IH.
  unfold frame_events.
  destruct (has_requestFrame env), onProgress; reflexivity.
Qed.

(** C8. Reassembly of N >= 1 frames at rate fps > 0 (2D canvas available,
    no timer pending at the start, the event loop allowed to run N + 1
    timers) resolves with the recorded frames, and along the way: frame k is
    drawn once, in index order, none skipped; the target time of frame k is
    startTime + k * (1000 / fps), whatever the clock reads later, so the
    schedule spans N * 1000 / fps ms, that is N / fps seconds; the timer set
    before each next frame has the delay max(0, target - now), never
    negative, and 0 when the clock has passed the target; after the last
    frame a timer of 100 ms is set and the recorder is stopped only when it
    fires. *)
Theorem createVideo_schedule (env : Browser) (fps : Q)
    (frames : list ImageData) (onProgress : bool) (fuel : nat) (world : World) :
  has_canvas2d env = true -> 0 < fps -> frames <> [] ->
  timers world = [] -> (length frames + 1 <= fuel)%nat ->
  let N := length frames in
  let interval := 1000 / fps in
  let r := clock_reads world in
  let startTime := clock env r in
  exists blob world' events,
    createVideo env fps frames onProgress fuel world = (Ok blob, world')
    /\ trace world' = trace world ++ events
    /\ events = [EvRecorderStart]
                ++ schedule_events env onProgress interval N r 0 frames
                ++ [EvSetTimeout StopRecorder 100; EvRecorderStop]
    /\ puts events = frames
    /\ timeouts events
       = map (fun k => (DrawNextFrame,
                        Qmax 0 (target startTime interval (S k)
                                - clock env (r + 2 * k + 2))))
             (seq 0 N)
         ++ [(StopRecorder, 100)]
    /\ Forall (fun t => 0 <= snd t) (timeouts events)
    /\ (forall k, target startTime interval (S k) <= clock env (r + 2 * k + 2) ->
                  Qmax 0 (target startTime interval (S k)
                          - clock env (r + 2 * k + 2)) == 0)
    /\ (forall k, target startTime interval k
                  == startTime + natQ k * (1000 / fps))
    /\ target startTime interval N - startTime == natQ N / fps * 1000
    /\ (forall env' : Browser,
          clock env' r = startTime ->
          forall k, target (clock env' r) interval k
                    = target startTime interval k)
    /\ blob = captured world ++ (if has_requestFrame env then frames else []).
Proof.
  intros H2d Hfps Hne Htm Hfuel N interval r startTime.
  destruct frames as [ | f0 rest]; [contradiction | ].
  set (frames := f0 :: rest) in *.
  set (w0 := snd ((createCanvas ;; emit EvRecorderStart ;;
                   performance_now env) world)).
  set (st0 := {| frameIndex := 0; startTime := startTime;
                 nextFrameTime := startTime |}).
  assert (CV : createVideo env fps frames onProgress fuel world
               = bind (drawNextFrame env frames interval onProgress st0)
                      (fun st => runTimers env frames interval onProgress fuel st)
                      w0).
  { unfold createVideo, frames. rewrite H2d. reflexivity. }
  destruct (drawNextFrame_frame env frames interval onProgress st0 w0 f0 eq_refl)
    as (w1 & D & T1 & R1 & M1 & C1).
  rewrite CV, (bind_Ok _ _ _ _ _ D).
  assert (W0 : trace w0 = trace world ++ [EvRecorderStart]
               /\ clock_reads w0 = S r /\ timers w0 = timers world
               /\ captured w0 = captured world).
  { unfold w0. repeat split. }
  destruct W0 as (T0 & R0 & M0 & C0).
  rewrite T0, R0 in T1. rewrite R0 in R1, M1. rewrite M0, Htm in M1.
  rewrite C0 in C1. cbn [app] in M1.
  cbn [frameIndex nextFrameTime st0] in T1, M1.
  set (st1 := {| frameIndex := S (frameIndex st0) |}) in *.
  assert (Hc1 : clock_reads w1 = (r + 2 * 1 + 1)%nat) by (rewrite R1; lia).
  assert (Hf1 : (length rest + 2 <= fuel)%nat)
    by (cbn [length frames] in Hfuel; lia).
  pose proof (fun dl H =>
                runTimers_runs env frames interval onProgress r (length rest)
                  1 fuel st1 w1 dl eq_refl eq_refl eq_refl Hc1 H Hf1) as RT.
  destruct (RT _ M1) as (w2 & R & T2 & C2).
  assert (EV : trace w2
               = trace world
                 ++ [EvRecorderStart]
                 ++ schedule_events env onProgress interval N r 0 frames
                 ++ [EvSetTimeout StopRecorder 100; EvRecorderStop]).
  { rewrite T2, T1.
    change (schedule_events env onProgress interval N r 0 frames)
      with (frame_events env onProgress interval N r 0 f0
            ++ schedule_events env onProgress interval N r 1 rest).
    change (skipn 1 frames) with rest.
    unfold frame_events, N. cbn [target].
    replace (r + 2 * 0 + 2)%nat with (S (S r)) by lia.
    repeat (rewrite <- app_assoc || rewrite <- app_comm_cons).
    reflexivity. }
  eexists. exists w2. eexists.
  split; [exact R | ]. split; [exact EV | ]. split; [reflexivity | ].
  assert (TO : timeouts ([EvRecorderStart]
                 ++ schedule_events env onProgress interval N r 0 frames
                 ++ [EvSetTimeout StopRecorder 100; EvRecorderStop])
               = map (fun k => (DrawNextFrame,
                                Qmax 0 (target startTime interval (S k)
                                        - clock env (r + 2 * k + 2))))
                     (seq 0 N)
                 ++ [(StopRecorder, 100)]).
  { rewrite !timeouts_app, timeouts_schedule. reflexivity. }
  split.
  { rewrite !puts_app, puts_schedule. cbn. now rewrite app_nil_r. }
  split; [exact TO | ].
  split.
  { rewrite TO. apply Forall_app. split.
    - rewrite Forall_forall. intros t Ht. apply in_map_iff in Ht.
      destruct Ht as (k & <- & _). cbn [snd]. apply Q.le_max_l.
    - repeat constructor. cbn [snd]. discriminate. }
  split; [intros k L; apply Q.max_l; lra | ].
  split; [intros k; apply target_closed_form | ].
  split.
  { rewrite target_closed_form. unfold interval. field. lra. }
  split; [intros env' E k; now rewrite E | ].
  rewrite C1. cbn [frames skipn].
  destruct (has_requestFrame env); rewrite <- ?app_assoc; rewrite ?app_nil_r;
    reflexivity.
Qed.

(** ** Instances on concrete inputs *)

Lemma createVideo_schedule_witness :
  let frames := [solid 1 1 [0; 255; 0; 255]%Z; solid 1 1 [0; 249; 0; 255]%Z;
                 solid 1 1 [0; 100; 200; 255]%Z] in
  has_canvas2d a_browser = true /\ 0 < 30 /\ frames <> []
  /\ timers initial_world = [] /\ (length frames + 1 <= 4)%nat
  /\ exists blob world' events,
       createVideo a_browser 30 frames true 4 initial_world = (Ok blob, world')
       /\ trace world' = trace initial_world ++ events
       /\ puts events = frames
       /\ blob = frames.
Proof.
  intros frames.
  assert (H1 : has_canvas2d a_browser = true) by reflexivity.
  assert (H2 : 0 < 30) by reflexivity.
  assert (H3 : frames <> []) by discriminate.
  assert (H4 : timers initial_world = []) by reflexivity.
  assert (H5 : (length frames + 1 <= 4)%nat) by (simpl; lia).
  split; [exact H1 | ]. split; [exact H2 | ]. split; [exact H3 | ].
  split; [exact H4 | ]. split; [exact H5 | ].
  destruct (createVideo_schedule a_browser 30 frames true 4 initial_world
              H1 H2 H3 H4 H5)
    as (blob & world' & events & E & T & _ & P & _ & _ & _ & _ & _ & _ & B).
  exists blob, world', events.
  split; [exact E | ]. split; [exact T | ]. split; [exact P | exact B].
Defined.

Lemma suppressSpill_stays_in_range_witness :
  let color := Vec3 0.2 0.9 0.1 in
  let c := Vec4 0.2 0.9 0.1 1 in
  let u := setUniforms GREEN_SCREEN_SETTINGS in
  in_unit3 color /\ in_unit 0.5 /\ in_unit4 c /\ in_unit (u_spillSuppression u)
  /\ in_unit3 (BlackBgShader.suppressSpill color 0.5 true)
  /\ in_unit3 (BlackBgShader.main_color u c).
Proof.
  intros color c u.
  assert (H1 : in_unit3 color) by (repeat split; discriminate).
  assert (H2 : in_unit 0.5) by (split; discriminate).
  assert (H3 : in_unit4 c) by (repeat split; discriminate).
  assert (H4 : in_unit (u_spillSuppression u)) by (split; discriminate).
  split; [exact H1 | ]. split; [exact H2 | ]. split; [exact H3 | ].
  split; [exact H4 | ].
  destruct (suppressSpill_stays_in_range color 0.5 true u c H1 H2 H3 H4)
    as (A & _ & _ & _ & _ & _ & B).
  split; [exact A | exact B].
Defined.

Lemma mask_is_grayscale_opaque_witness :
  let this := {| cw := 1; ch := 1; maskProgram := 2; blackBgProgram := 5;
                 positionBufferId := 6; texCoordBufferId := 7; texture := 8 |} in
  let img := solid 1 1 [0; 249; 0; 255]%Z in
  (0 < cw this * ch this)%nat
  /\ exists tc,
       let alpha := MaskShader.main_alpha (setUniforms GREEN_SCREEN_SETTINGS)
                                          (texture2D img tc) in
       pixelAt (renderWithProgram this MaskProgram img GREEN_SCREEN_SETTINGS) 0
       = [toByte alpha; toByte alpha; toByte alpha; 255%Z].
Proof.
  intros this img.
  assert (H : (0 < cw this * ch this)%nat) by (simpl; lia).
  split; [exact H | ].
  destruct (mask_is_grayscale_opaque this img GREEN_SCREEN_SETTINGS)
    as (_ & _ & P).
  destruct (P 0%nat H) as (tc & E & _).
  exists tc. exact E.
Defined.

Lemma processFrames_index_aligned_witness :
  let frames := [solid 1 1 [0; 255; 0; 255]%Z; solid 1 1 [0; 249; 0; 255]%Z] in
  capable a_browser
  /\ exists r, fst (processFrames a_browser frames blue true initial_world) = Ok r.
Proof.
  intros frames. split; [exact a_browser_capable | ].
  destruct (processFrames_index_aligned a_browser frames blue true initial_world)
    as (_ & R).
  exact (R a_browser_capable).
Defined.

(** * Further properties of the shaders *)

(** The four cases of [rgb2hsv], by which channel is the largest. *)
Lemma rgb2hsv_red_max_upper (r g b : Q) :
  b <= g -> g <= r ->
  veq3 (MaskShader.rgb2hsv (Vec3 r g b))
       (Vec3 (Qabs (0 + (g - b) / (6 * (r - Qmin g b) + 1.0e-10)))
             ((r - Qmin g b) / (r + 1.0e-10))
             r).
Proof.
  intros Hb Hr.
  unfold MaskShader.rgb2hsv, mix4, veq3. cbv zeta. projections.
  rewrite (step_ge b g Hb). rewrite !mix_1.
  rewrite (step_ge g r Hr). rewrite !mix_1.
  repeat split; reflexivity.
Qed.

Lemma rgb2hsv_red_max_lower (r g b : Q) :
  g < b -> b <= r ->
  veq3 (MaskShader.rgb2hsv (Vec3 r g b))
       (Vec3 (Qabs (-1 + (b - g) / (6 * (r - Qmin b g) + 1.0e-10)))
             ((r - Qmin b g) / (r + 1.0e-10))
             r).
Proof.
  intros Hb Hr.
  unfold MaskShader.rgb2hsv, mix4, veq3. cbv zeta. projections.
  rewrite (step_lt b g Hb). rewrite !mix_0.
  rewrite (step_ge b r Hr). rewrite !mix_1.
  repeat split; reflexivity.
Qed.

Lemma rgb2hsv_blue_max (r g b : Q) :
  g < b -> r < b ->
  veq3 (MaskShader.rgb2hsv (Vec3 r g b))
       (Vec3 (Qabs (2 / 3 + (r - g) / (6 * (b - Qmin r g) + 1.0e-10)))
             ((b - Qmin r g) / (b + 1.0e-10))
             b).
Proof.
  intros Hb Hr.
  unfold MaskShader.rgb2hsv, mix4, veq3. cbv zeta. projections.
  rewrite (step_lt b g Hb). rewrite !mix_0.
  rewrite (step_lt b r Hr). rewrite !mix_0.
  repeat split; reflexivity.
Qed.

(** A quotient whose numerator is at most [d] in size, over [6 d + e]. *)
Lemma sixth_bound (n d : Q) :
  0 <= d -> - d <= n <= d ->
  - (1 # 6) < n / (6 * d + 1.0e-10) < 1 # 6.
Proof.
  intros Hd Hn. destruct epsilon_bounds as [E0 _].
  set (e := 1.0e-10) in *. clearbody e.
  split.
  - apply Qlt_shift_div_l; lra.
  - apply Qlt_shift_div_r; lra.
Qed.

Lemma quotient_sign (n d : Q) :
  0 <= d -> (0 <= n -> 0 <= n / (6 * d + 1.0e-10))
            /\ (0 < n -> 0 < n / (6 * d + 1.0e-10)).
Proof.
  intros Hd. destruct epsilon_bounds as [E0 _].
  set (e := 1.0e-10) in *. clearbody e.
  split; intros Hn.
  - apply Qle_shift_div_l; lra.
  - apply Qlt_shift_div_l; lra.
Qed.










(** X3. For any uniforms and any sampled colour, whatever its range, both
    shaders compute one and the same alpha, it lies in [0, 1], and the mask
    shader's output has all four components in [0, 1]. *)
Theorem alpha_range_both_shaders (tex : sampler2D) (u : Uniforms) (tc : vec2) :
  let alpha := MaskShader.main_alpha u (tex tc) in
  0 <= alpha <= 1
  /\ BlackBgShader.main_alpha u (tex tc) = alpha
  /\ in_unit4 (MaskShader.main tex u tc).
Proof.
  cbv zeta. pose proof (main_alpha_unit u (tex tc)) as A.
  split; [exact A | ]. split; [apply main_alpha_same | ].
  unfold MaskShader.main, in_unit4. cbv zeta. cbn [v4x v4y v4z v4w].
  repeat split; try apply A; discriminate.
Qed.

Lemma kept_pixel_composite (u : Uniforms) (c : vec4) :
  MaskShader.main_alpha u c == 1 ->
  veq3 (BlackBgShader.main_color u c)
       (BlackBgShader.suppressSpill (rgb c) (u_spillSuppression u * 0.5)
                                    (BlackBgShader.isGreen u)).
Proof.
  intros A. unfold BlackBgShader.main_color. rewrite main_alpha_same.
  set (al := MaskShader.main_alpha u c) in *. clearbody al.
  assert (K : u_spillSuppression u * (1 - al * 0.5)
              == u_spillSuppression u * 0.5) by (rewrite A; ring).
  destruct (suppressSpill_Proper (rgb c) (rgb c) (reflexivity _) _ _ K
              (BlackBgShader.isGreen u) _ eq_refl) as (S1 & S2 & S3).
  set (d := BlackBgShader.suppressSpill (rgb c) (u_spillSuppression u * (1 - al * 0.5)) _) in *.
  clearbody d.
  unfold veq3, scale3. cbn [v3x v3y v3z].
  rewrite A, <- S1, <- S2, <- S3. repeat split; ring.
Qed.

(** X4. With 0 < smoothness <= 0.3, a pixel that fails any one gate is kept
    with alpha exactly 1 by both shaders: a value below valMin or above
    valMax, a saturation of at most satMin / 2, a hue at least hueRange away
    from hueTarget, or a key channel that does not exceed the larger of the
    other two.  Its composite colour is the colour despilled at half the
    spill-suppression strength: spill suppression is applied to kept
    pixels too. *)
Theorem failed_gate_keeps_pixel (u : Uniforms) (c : vec4) :
  0 < u_smoothness u -> u_smoothness u <= 0.3 ->
  val_of c < u_valMin u
  \/ u_valMax u < val_of c
  \/ (0 < u_satMin u /\ sat_of c <= u_satMin u * 0.5)
  \/ (0 < u_hueRange u /\ u_hueRange u <= hueDiff_of u c)
  \/ keyChannel (BlackBgShader.isGreen u) (rgb c)
     <= (if BlackBgShader.isGreen u then Qmax (v4x c) (v4z c)
         else Qmax (v4x c) (v4y c)) ->
  MaskShader.main_alpha u c == 1
  /\ BlackBgShader.main_alpha u c == 1
  /\ veq3 (BlackBgShader.main_color u c)
          (BlackBgShader.suppressSpill (rgb c) (u_spillSuppression u * 0.5)
                                       (BlackBgShader.isGreen u)).
Proof.
  intros S0 S1 G.
  assert (A : MaskShader.main_alpha u c == 1).
  { destruct G as [G | [G | [[P G] | [[P G] | G]]]].
    - apply keyStrength_zero_alpha_one; trivial.
      unfold keyStrength_of, valMatch_of.
      rewrite (step_lt (u_valMin u) (val_of c) G). ring.
    - now apply too_bright_not_keyed.
    - apply keyStrength_zero_alpha_one; trivial.
      unfold keyStrength_of, satMatch_of.
      rewrite smoothstep_below; [ring | lra | exact G].
    - apply keyStrength_zero_alpha_one; trivial.
      unfold keyStrength_of, hueMatch_of.
      rewrite smoothstep_above; [ring | lra | exact G].
    - now apply not_dominant_not_keyed. }
  split; [exact A | ]. split; [now rewrite main_alpha_same | ].
  now apply kept_pixel_composite.
Qed.

Lemma failed_gate_keeps_pixel_witness :
  let u := setUniforms GREEN_SCREEN_SETTINGS in
  let c := Vec4 1 1 1 1 in
  0 < u_smoothness u /\ u_smoothness u <= 0.3
  /\ u_valMax u < val_of c
  /\ MaskShader.main_alpha u c == 1.
Proof.
  intros u c.
  assert (H1 : 0 < u_smoothness u) by reflexivity.
  assert (H2 : u_smoothness u <= 0.3) by discriminate.
  assert (H3 : u_valMax u < val_of c) by (vm_compute; reflexivity).
  split; [exact H1 | ]. split; [exact H2 | ]. split; [exact H3 | ].
  destruct (failed_gate_keeps_pixel u c H1 H2 (or_intror (or_introl H3)))
    as (A & _).
  exact A.
Defined.

(** X5. With 0 < smoothness <= 0.7, a pixel that passes every gate in full
    is removed: hue within hueRange / 2 of hueTarget, saturation at least
    satMin, value in [valMin, valMax] and the key channel at least 0.1 above
    the other two give alpha exactly 0 in both shaders, hence a black mask
    pixel and a black composite pixel. *)
Theorem passed_gates_remove_pixel (u : Uniforms) (c : vec4) :
  0 < u_smoothness u -> u_smoothness u <= 0.7 ->
  0 < u_hueRange u -> hueDiff_of u c <= u_hueRange u * 0.5 ->
  0 < u_satMin u -> u_satMin u <= sat_of c ->
  u_valMin u <= val_of c -> val_of c <= u_valMax u ->
  0.1 <= keyChannel (BlackBgShader.isGreen u) (rgb c)
         - (if BlackBgShader.isGreen u then Qmax (v4x c) (v4z c)
            else Qmax (v4x c) (v4y c)) ->
  MaskShader.main_alpha u c == 0
  /\ BlackBgShader.main_alpha u c == 0
  /\ veq4 (MaskShader.main (fun _ => c) u (Vec2 0 0)) (Vec4 0 0 0 1)
  /\ veq3 (BlackBgShader.main_color u c) (Vec3 0 0 0).
Proof.
  intros S0 S1 R0 R1 T0 T1 V0 V1 D.
  assert (K : keyStrength_of u c == 1).
  { unfold keyStrength_of.
    assert (K1 : hueMatch_of u c == 1).
    { unfold hueMatch_of. rewrite smoothstep_below; [ring | lra | exact R1]. }
    assert (K2 : satMatch_of u c == 1).
    { unfold satMatch_of. apply smoothstep_above; [lra | exact T1]. }
    assert (K3 : valMatch_of u c == 1).
    { unfold valMatch_of. rewrite (step_ge _ _ V0), (step_ge _ _ V1). ring. }
    assert (K4 : dominance_of u c == 1).
    { unfold dominance_of. unfold BlackBgShader.isGreen, keyChannel in D.
      destruct (Qlt_le_dec (u_hueTarget u) 180); projections;
        (apply smoothstep_above; [reflexivity | lra]). }
    rewrite K1, K2, K3, K4. ring. }
  assert (A : MaskShader.main_alpha u c == 0)
    by now apply keyStrength_one_alpha_zero.
  split; [exact A | ]. split; [now rewrite main_alpha_same | ].
  split.
  { unfold MaskShader.main, veq4. cbv zeta. cbn [v4x v4y v4z v4w].
    repeat split; (exact A || reflexivity). }
  unfold BlackBgShader.main_color. rewrite main_alpha_same.
  set (al := MaskShader.main_alpha u c) in *. clearbody al.
  set (d := BlackBgShader.suppressSpill _ _ _). clearbody d.
  unfold veq3, scale3. cbn [v3x v3y v3z].
  repeat split; rewrite A; ring.
Qed.

Lemma passed_gates_remove_pixel_witness :
  let u := setUniforms BLUE_SCREEN_SETTINGS in
  let c := Vec4 0 0 0.5 1 in
  0 < u_smoothness u /\ u_smoothness u <= 0.7
  /\ 0 < u_hueRange u /\ hueDiff_of u c <= u_hueRange u * 0.5
  /\ 0 < u_satMin u /\ u_satMin u <= sat_of c
  /\ u_valMin u <= val_of c /\ val_of c <= u_valMax u
  /\ MaskShader.main_alpha u c == 0
  /\ veq3 (BlackBgShader.main_color u c) (Vec3 0 0 0).
Proof.
  intros u c.
  assert (H1 : 0 < u_smoothness u) by reflexivity.
  assert (H2 : u_smoothness u <= 0.7) by discriminate.
  assert (H3 : 0 < u_hueRange u) by reflexivity.
  assert (H4 : hueDiff_of u c <= u_hueRange u * 0.5)
    by (vm_compute; discriminate).
  assert (H5 : 0 < u_satMin u) by reflexivity.
  assert (H6 : u_satMin u <= sat_of c) by (vm_compute; discriminate).
  assert (H7 : u_valMin u <= val_of c) by (vm_compute; discriminate).
  assert (H8 : val_of c <= u_valMax u) by (vm_compute; discriminate).
  assert (H9 : 0.1 <= keyChannel (BlackBgShader.isGreen u) (rgb c)
                      - (if BlackBgShader.isGreen u then Qmax (v4x c) (v4z c)
                         else Qmax (v4x c) (v4y c)))
    by (vm_compute; discriminate).
  split; [exact H1 | ]. split; [exact H2 | ]. split; [exact H3 | ].
  split; [exact H4 | ]. split; [exact H5 | ]. split; [exact H6 | ].
  split; [exact H7 | ]. split; [exact H8 | ].
  destruct (passed_gates_remove_pixel u c H1 H2 H3 H4 H5 H6 H7 H8 H9)
    as (A & _ & _ & B).
  split; [exact A | exact B].
Defined.

Lemma spill_shift (key o1 o2 amount : Q) :
  o1 <= 1 -> o2 <= 1 -> 0 <= amount ->
  let excess := Qmax 0 (key - (o1 + o2) * 0.5) in
  key - excess * amount <= key
  /\ o1 <= Qmin 1 (o1 + excess * amount * 0.2)
  /\ o2 <= Qmin 1 (o2 + excess * amount * 0.2)
  /\ Qmin 1 (o1 + excess * amount * 0.2) + (key - excess * amount)
     + Qmin 1 (o2 + excess * amount * 0.2)
     <= o1 + key + o2.
Proof.
  intros H1 H2 Ha excess.
  assert (X : 0 <= excess) by apply Q.le_max_l.
  clearbody excess.
  assert (P : 0 <= excess * amount) by nra.
  set (p := excess * amount) in *. clearbody p.
  destruct (Q.min_spec 1 (o1 + p * 0.2)) as [[? E1] | [? E1]];
    destruct (Q.min_spec 1 (o2 + p * 0.2)) as [[? E2] | [? E2]];
    rewrite E1, E2; repeat split; lra.
Qed.

(** X6. [suppressSpill] on a colour with channels in [0, 1] and an amount
    >= 0 only moves colour away from the key channel: the key channel never
    rises, neither of the other two channels falls, and the sum of the three
    channels never grows.  With amount 0, or when the key channel does not
    exceed the average of the other two, the colour is returned unchanged. *)
Theorem suppressSpill_shifts_from_key (color : vec3) (amount : Q)
    (isGreen : bool) :
  in_unit3 color -> 0 <= amount ->
  let out := BlackBgShader.suppressSpill color amount isGreen in
  keyChannel isGreen out <= keyChannel isGreen color
  /\ v3x color <= v3x out
  /\ (if isGreen then v3z color <= v3z out else v3y color <= v3y out)
  /\ v3x out + v3y out + v3z out <= v3x color + v3y color + v3z color
  /\ (amount == 0 -> veq3 out color)
  /\ (keyChannel isGreen color <= othersAverage isGreen color ->
      veq3 out color).
Proof.
  intros U Ha out. split; [ | split; [ | split; [ | split; [ | split]]]].
  6:{ intros K. now apply despill_identity. }
  all: destruct color as [r g b]; destruct U as (Ur & Ug & Ub);
    unfold in_unit in *; projections;
    unfold out, BlackBgShader.suppressSpill, keyChannel, veq3;
    destruct isGreen; projections.
  all: try (destruct (spill_shift g r b amount) as (A & B & C & D);
            [lra | lra | lra | ]; cbv zeta in *; lra).
  all: try (destruct (spill_shift b r g amount) as (A & B & C & D);
            [lra | lra | lra | ]; cbv zeta in *; lra).
  - intros Z. rewrite Z. repeat split; try ring.
    + setoid_replace (r + Qmax 0 (g - (r + b) * 0.5) * 0 * 0.2) with r by ring.
      apply Q.min_r. lra.
    + setoid_replace (b + Qmax 0 (g - (r + b) * 0.5) * 0 * 0.2) with b by ring.
      apply Q.min_r. lra.
  - intros Z. rewrite Z. repeat split; try ring.
    + setoid_replace (r + Qmax 0 (b - (r + g) * 0.5) * 0 * 0.2) with r by ring.
      apply Q.min_r. lra.
    + setoid_replace (g + Qmax 0 (b - (r + g) * 0.5) * 0 * 0.2) with g by ring.
      apply Q.min_r. lra.
Qed.

Lemma suppressSpill_shifts_from_key_witness :
  let color := Vec3 0.2 0.9 0.1 in
  in_unit3 color /\ 0 <= 0.35
  /\ v3y (BlackBgShader.suppressSpill color 0.35 true) <= v3y color
  /\ v3x color <= v3x (BlackBgShader.suppressSpill color 0.35 true).
Proof.
  intros color.
  assert (H1 : in_unit3 color) by (repeat split; discriminate).
  assert (H2 : 0 <= 0.35) by discriminate.
  split; [exact H1 | ]. split; [exact H2 | ].
  destruct (suppressSpill_shifts_from_key color 0.35 true H1 H2)
    as (A & B & _).
  split; [exact A | exact B].
Defined.

(** * Further properties of the GL pass *)

Lemma bilinear_at_texel (t00 t10 t01 t11 : vec4) (a b : Q) :
  a == 0 -> b == 0 ->
  veq4 (mix4 (mix4 t00 t10 a) (mix4 t01 t11 a) b) t00.
Proof.
  intros Ha Hb. unfold mix4, mix, veq4. cbn [v4x v4y v4z v4w].
  rewrite Ha, Hb. repeat split; ring.
Qed.

(** At the centre of drawing-buffer pixel (i, j) of a frame-sized viewport
    the clamped, scaled coordinate is the texel index itself. *)
Lemma centre_coordinate (n i : nat) :
  (i < n)%nat ->
  clampToEdge n ((2 * (natQ i + 0.5) / natQ n - 1 + 1) / 2) * natQ n - 0.5
  == natQ i.
Proof.
  intros Hi. unfold clampToEdge.
  assert (HN : 1 <= natQ n) by (apply natQ_pos; lia).
  assert (Hi' : natQ i + 1 <= natQ n).
  { unfold natQ. change 1 with (inject_Z 1). rewrite <- inject_Z_plus.
    rewrite <- Zle_Qle. lia. }
  assert (I0 : 0 <= natQ i).
  { unfold natQ. change 0 with (inject_Z 0). rewrite <- Zle_Qle. lia. }
  set (N := natQ n) in *. set (I := natQ i) in *. clearbody N I.
  assert (S : (2 * (I + 0.5) / N - 1 + 1) / 2 == (I + 0.5) / N) by (field; lra).
  rewrite S.
  rewrite clamp_inside.
  - field. lra.
  - split.
    + apply Qle_shift_div_l; [lra | ].
      setoid_replace (1 / (2 * N) * N) with 0.5 by (field; lra). lra.
    + apply Qle_shift_div_r; [lra | ].
      setoid_replace ((1 - 1 / (2 * N)) * N) with (N - 0.5) by (field; lra).
      lra.
Qed.

Lemma centre_coordinate_flipped (n j : nat) :
  (j < n)%nat ->
  clampToEdge n ((1 - (2 * (natQ j + 0.5) / natQ n - 1)) / 2) * natQ n - 0.5
  == natQ (n - 1 - j).
Proof.
  intros Hj.
  assert (E : (1 - (2 * (natQ j + 0.5) / natQ n - 1)) / 2
              == (2 * (natQ (n - 1 - j) + 0.5) / natQ n - 1 + 1) / 2).
  { assert (HN : 1 <= natQ n) by (apply natQ_pos; lia).
    assert (R : natQ (n - 1 - j) == natQ n - 1 - natQ j).
    { unfold natQ. rewrite !Nat2Z.inj_sub by lia.
      unfold Z.sub. rewrite !inject_Z_plus, !inject_Z_opp. reflexivity. }
    rewrite R. field. lra. }
  unfold clampToEdge in *. rewrite E.
  apply (centre_coordinate n (n - 1 - j)). lia.
Qed.

(** Sampling at the centre of drawing-buffer pixel (i, j), j counted from
    the bottom, of a frame-sized viewport returns texel (i, H - 1 - j). *)
Lemma texture2D_at_centre (img : ImageData) (i j : nat) :
  (i < width img)%nat -> (j < height img)%nat ->
  veq4 (texture2D img (v_texCoord_at (pixelCentre (width img) (height img) i j)))
       (texelFetch img i (height img - 1 - j)).
Proof.
  intros Hi Hj. unfold texture2D, v_texCoord_at, pixelCentre. cbn [v2x v2y].
  pose proof (centre_coordinate (width img) i Hi) as U.
  pose proof (centre_coordinate_flipped (height img) j Hj) as V.
  set (u := clampToEdge (width img) _ * natQ (width img) - 0.5) in *.
  set (v := clampToEdge (height img) _ * natQ (height img) - 0.5) in *.
  clearbody u v. cbv zeta.
  assert (Fu : Qfloor u = Z.of_nat i).
  { rewrite (Qfloor_comp _ _ U). apply Qfloor_Z. }
  assert (Fv : Qfloor v = Z.of_nat (height img - 1 - j)).
  { rewrite (Qfloor_comp _ _ V). apply Qfloor_Z. }
  rewrite Fu, Fv, !Nat2Z.id.
  apply bilinear_at_texel.
  - rewrite U. unfold natQ. ring.
  - rewrite V. unfold natQ. ring.
Qed.

Lemma nth_concat_uniform {A : Type} (n : nat) (rows : list (list A))
    (y x : nat) (d : A) :
  uniform n rows -> (y < length rows)%nat -> (x < n)%nat ->
  nth (y * n + x) (concat rows) d = nth x (nth y rows []) d.
Proof.
  intros U. revert y. induction U as [ | r rs Hr _ IH]; intros y Hy Hx.
  - simpl in Hy. lia.
  - destruct y as [ | y].
    + simpl. apply app_nth1. lia.
    + simpl concat. simpl nth at 2.
      rewrite app_nth2 by (rewrite Hr; simpl; lia).
      rewrite Hr. replace (S y * n + x - n)%nat with (y * n + x)%nat
        by (simpl; lia).
      apply IH; [simpl in Hy; lia | exact Hx].
Qed.

(** The data of a rendered frame, row by row: output row y (from the top)
    is drawing-buffer row H - 1 - y. *)
Lemma render_rows (this : ChromaKeyProcessor) (program : Program)
    (img : ImageData) (s : ChromaKeySettings) :
  let W := cw this in
  let H := ch this in
  let shade := fragmentShader program (texture2D img) (setUniforms s) in
  let rowpx := fun j =>
    map (fun i => storeColor (shade (v_texCoord_at (pixelCentre W H i j))))
        (seq 0 W) in
  data (renderWithProgram this program img s)
  = concat (concat (rev (map rowpx (seq 0 H)))).
Proof.
  intros W H shade rowpx.
  assert (RP : readPixels W H shade
               = concat (map (fun j => concat (rowpx j)) (seq 0 H))).
  { unfold readPixels. rewrite flat_map_concat_map. f_equal.
    apply map_ext. intros j. now rewrite flat_map_concat_map. }
  assert (UR : uniform (W * 4) (map (fun j => concat (rowpx j)) (seq 0 H))).
  { unfold uniform. rewrite Forall_forall. intros r Hr.
    apply in_map_iff in Hr. destruct Hr as (j & <- & _).
    rewrite (length_concat_uniform 4).
    - unfold rowpx. now rewrite length_map, length_seq.
    - unfold uniform. rewrite Forall_forall. intros x Hx.
      apply in_map_iff in Hx. destruct Hx as (i & <- & _). reflexivity. }
  unfold renderWithProgram. cbn [data]. fold W H shade.
  rewrite RP, (flipY_reverses_rows W H _ UR)
    by now rewrite length_map, length_seq.
  rewrite <- concat_map_concat. f_equal.
  rewrite <- map_rev. rewrite <- (map_map rowpx (@concat _)).
  now rewrite map_rev.
Qed.

(** X7. When the frame has the size of the processor, rendering works pixel
    by pixel and keeps every pixel in place: the pixel in column x of row y
    of the output is the stored colour of the fragment shader run on the
    texel in column x of row y of the input.  The flipped texture
    coordinates of the quad and the "Flip Y" loop cancel. *)
Theorem render_is_pixelwise (this : ChromaKeyProcessor) (program : Program)
    (img : ImageData) (s : ChromaKeySettings) (x y : nat) :
  width img = cw this -> height img = ch this ->
  (x < cw this)%nat -> (y < ch this)%nat ->
  pixelAt (renderWithProgram this program img s) (y * cw this + x)
  = storeColor (fragmentShader program (fun _ => texelFetch img x y)
                               (setUniforms s) (Vec2 0 0)).
Proof.
  intros Ew Eh Hx Hy.
  pose proof (render_rows this program img s) as R. cbv zeta in R.
  set (W := cw this) in *. set (H := ch this) in *.
  set (shade := fragmentShader program (texture2D img) (setUniforms s)) in *.
  set (rowpx := fun j =>
         map (fun i => storeColor (shade (v_texCoord_at (pixelCentre W H i j))))
             (seq 0 W)) in *.
  set (rows := rev (map rowpx (seq 0 H))) in *.
  assert (UW : uniform W rows).
  { unfold uniform. rewrite Forall_forall. intros r Hr.
    apply in_rev, in_map_iff in Hr. destruct Hr as (j & <- & _).
    unfold rowpx. now rewrite length_map, length_seq. }
  assert (LR : length rows = H).
  { unfold rows. now rewrite length_rev, length_map, length_seq. }
  assert (U4 : uniform 4 (concat rows)).
  { unfold uniform. rewrite Forall_forall. intros p Hp.
    apply in_concat in Hp. destruct Hp as (r & Hr & Hp).
    apply in_rev, in_map_iff in Hr. destruct Hr as (j & <- & _).
    apply in_map_iff in Hp. destruct Hp as (i & <- & _). reflexivity. }
  assert (LP : length (concat rows) = (H * W)%nat).
  { rewrite (length_concat_uniform W _ UW), LR. reflexivity. }
  rewrite (pixelAt_concat _ (concat rows) (y * W + x) R U4) by nia.
  rewrite (nth_concat_uniform W rows y x [] UW) by lia.
  assert (NR : nth y rows [] = rowpx (H - 1 - y)%nat).
  { unfold rows. rewrite rev_nth by (rewrite length_map, length_seq; lia).
    rewrite length_map, length_seq.
    rewrite (nth_indep _ [] (rowpx 0%nat))
      by (rewrite length_map, length_seq; lia).
    rewrite (map_nth rowpx), seq_nth by lia. f_equal. lia. }
  rewrite NR. unfold rowpx.
  rewrite (nth_indep _ []
             (storeColor (shade (v_texCoord_at (pixelCentre W H 0 (H - 1 - y))))))
    by (rewrite length_map, length_seq; lia).
  rewrite (map_nth (fun i => storeColor
                      (shade (v_texCoord_at (pixelCentre W H i (H - 1 - y)))))).
  rewrite seq_nth by lia. cbn [Nat.add].
  unfold shade. apply fragment_respects_sample.
  replace (texelFetch img x y)
    with (texelFetch img x (height img - 1 - (H - 1 - y)))
    by (f_equal; rewrite Eh; fold H; lia).
  replace (pixelCentre W H x (H - 1 - y))
    with (pixelCentre (width img) (height img) x (H - 1 - y))
    by (now rewrite Ew, Eh).
  apply texture2D_at_centre; rewrite ?Ew, ?Eh; fold W H; lia.
Qed.

Lemma render_is_pixelwise_witness :
  let img := {| data := [10; 5; 20; 255;   200; 100; 50; 255;
                         0; 100; 200; 255;  0; 249; 0; 255]%Z;
                width := 2; height := 2 |} in
  let this := {| cw := 2; ch := 2; maskProgram := 2; blackBgProgram := 5;
                 positionBufferId := 6; texCoordBufferId := 7; texture := 8 |} in
  width img = cw this /\ height img = ch this
  /\ (1 < cw this)%nat /\ (1 < ch this)%nat
  /\ pixelAt (renderWithProgram this MaskProgram img GREEN_SCREEN_SETTINGS)
             (1 * cw this + 1)
     = storeColor (fragmentShader MaskProgram (fun _ => texelFetch img 1 1)
                                  (setUniforms GREEN_SCREEN_SETTINGS) (Vec2 0 0)).
Proof.
  intros img this.
  assert (H1 : width img = cw this) by reflexivity.
  assert (H2 : height img = ch this) by reflexivity.
  assert (H3 : (1 < cw this)%nat) by (simpl; lia).
  assert (H4 : (1 < ch this)%nat) by (simpl; lia).
  split; [exact H1 | ]. split; [exact H2 | ]. split; [exact H3 | ].
  split; [exact H4 | ].
  exact (render_is_pixelwise this MaskProgram img GREEN_SCREEN_SETTINGS 1 1
           H1 H2 H3 H4).
Defined.

(** X8. The "Flip Y" loop on an array of H rows of W pixels returns the rows
    in reverse order, each row unchanged, and applied twice it returns the
    array it started from. *)
Theorem flipY_reverses_and_undoes (W H : nat) (rows : list (list Z)) :
  uniform (W * 4) rows -> length rows = H ->
  flipY W H (concat rows) = concat (rev rows)
  /\ flipY W H (flipY W H (concat rows)) = concat rows
  /\ length (flipY W H (concat rows)) = length (concat rows).
Proof.
  intros U L.
  assert (U' : uniform (W * 4) (rev rows)).
  { unfold uniform in *. rewrite Forall_forall in *.
    intros r Hr. apply U. now apply in_rev. }
  assert (L' : length (rev rows) = H) by now rewrite length_rev.
  rewrite (flipY_reverses_rows W H rows U L).
  split; [reflexivity | ]. split.
  - rewrite (flipY_reverses_rows W H (rev rows) U' L'). now rewrite rev_involutive.
  - now rewrite !(length_concat_uniform (W * 4)), length_rev.
Qed.

Lemma flipY_reverses_and_undoes_witness :
  let rows := [[1; 2; 3; 4; 5; 6; 7; 8]; [9; 10; 11; 12; 13; 14; 15; 16];
               [17; 18; 19; 20; 21; 22; 23; 24]]%Z in
  uniform (2 * 4) rows /\ length rows = 3%nat
  /\ flipY 2 3 (concat rows) = concat (rev rows).
Proof.
  intros rows.
  assert (H1 : uniform (2 * 4) rows) by (repeat constructor).
  assert (H2 : length rows = 3%nat) by reflexivity.
  split; [exact H1 | ]. split; [exact H2 | ].
  destruct (flipY_reverses_and_undoes 2 3 rows H1 H2) as (A & _).
  exact A.
Defined.

(** X9. Whatever frame it is given (of any size, well formed or not),
    [renderWithProgram] returns a frame of the processor's size holding
    width * height * 4 bytes, each in 0..255, and every pixel of it is
    opaque (alpha byte 255), for the mask and for the composite program. *)
Theorem render_output_shape (this : ChromaKeyProcessor) (program : Program)
    (img : ImageData) (s : ChromaKeySettings) :
  let out := renderWithProgram this program img s in
  width out = cw this /\ height out = ch this
  /\ length (data out) = (cw this * ch this * 4)%nat
  /\ Forall (fun b => (0 <= b <= 255)%Z) (data out)
  /\ forall k, (k < cw this * ch this)%nat -> nth 3 (pixelAt out k) 0%Z = 255%Z.
Proof.
  cbv zeta. split; [reflexivity | ]. split; [reflexivity | ].
  destruct (render_well_formed this program img s) as [L B].
  split; [exact (render_length this program img s) | ]. split; [exact B | ].
  intros k Hk. destruct (render_pixelAt this program img s k Hk) as (tc & ->).
  destruct program; reflexivity.
Qed.

Lemma render_output_shape_witness :
  let this := {| cw := 2; ch := 1; maskProgram := 2; blackBgProgram := 5;
                 positionBufferId := 6; texCoordBufferId := 7; texture := 8 |} in
  let img := {| data := [7; 300]%Z; width := 3; height := 5 |} in
  (0 < cw this * ch this)%nat
  /\ nth 3 (pixelAt (renderWithProgram this BlackBgProgram img
                                       BLUE_SCREEN_SETTINGS) 0) 0%Z = 255%Z.
Proof.
  intros this img.
  assert (H : (0 < cw this * ch this)%nat) by (simpl; lia).
  split; [exact H | ].
  destruct (render_output_shape this BlackBgProgram img BLUE_SCREEN_SETTINGS)
    as (_ & _ & _ & _ & P).
  exact (P 0%nat H).
Defined.

(** * Further properties of the GL objects and of the frame processor *)

Lemma same_object_same (k : GLKind) (a : nat) : same_object (k, a) (k, a) = true.
Proof. unfold same_object. cbn [fst snd]. rewrite Nat.eqb_refl. now destruct k. Qed.

Lemma same_object_other_name (k k' : GLKind) (a b : nat) :
  a <> b -> same_object (k, a) (k', b) = false.
Proof.
  intros H. unfold same_object. cbn [fst snd].
  apply Nat.eqb_neq in H. rewrite H. apply andb_false_r.
Qed.

Lemma filter_fresh (live : list (GLKind * nat)) (k : GLKind) (m n : nat) :
  Forall (fun o => (snd o < n)%nat) live -> (n <= m)%nat ->
  filter (fun o => negb (same_object o (k, m))) live = live.
Proof.
  intros F Hm. induction F as [ | [k0 a] l Ha _ IH]; [reflexivity | ].
  cbn [filter]. cbn [snd] in Ha. rewrite same_object_other_name by lia.
  cbn [negb]. now rewrite IH.
Qed.

Ltac gl_names :=
  repeat (rewrite same_object_same || rewrite same_object_other_name by lia).

Ltac run_gl :=
  cbv beta iota zeta delta
    [bind ret throw get modify emit createCanvas set_gl set_processor
     canvases gl_next gl_live processor currentTime canvas_image captured
     clock_reads timers trace fst snd].

(** The constructor in a browser where every call succeeds. *)
Lemma ChromaKeyProcessor_new_world (env : Browser) (w h : nat) (world : World) :
  capable env ->
  exists p w1,
    ChromaKeyProcessor_new env w h world = (Ok p, w1)
    /\ gl_live w1 = gl_live world
         ++ [(KShader, gl_next world); (KShader, (1 + gl_next world)%nat);
             (KProgram, (2 + gl_next world)%nat);
             (KShader, (3 + gl_next world)%nat);
             (KShader, (4 + gl_next world)%nat);
             (KProgram, (5 + gl_next world)%nat);
             (KBuffer, (6 + gl_next world)%nat);
             (KBuffer, (7 + gl_next world)%nat);
             (KTexture, (8 + gl_next world)%nat)]
    /\ gl_next w1 = (9 + gl_next world)%nat
    /\ canvases w1 = S (canvases world)
    /\ processor w1 = processor world
    /\ trace w1 = trace world
    /\ maskProgram p = (2 + gl_next world)%nat
    /\ blackBgProgram p = (5 + gl_next world)%nat
    /\ positionBufferId p = (6 + gl_next world)%nat
    /\ texCoordBufferId p = (7 + gl_next world)%nat
    /\ texture p = (8 + gl_next world)%nat
    /\ cw p = w /\ ch p = h.
Proof.
  intros (_ & Hgl & Hcr & Hco & Hli).
  destruct world as [cv nx lv pr ct ci cap cr tm tr].
  unfold ChromaKeyProcessor_new, createShader, createProgram, gl_create.
  rewrite Hgl, Hli, !Hcr, !Hco.
  run_gl.
  eexists. eexists. split; [reflexivity | ].
  cbn [gl_live gl_next canvases processor trace maskProgram blackBgProgram
       positionBufferId texCoordBufferId texture cw ch Nat.add].
  rewrite <- !app_assoc. cbn [app]. repeat split; reflexivity.
Qed.

Lemma destroy_world (p : ChromaKeyProcessor) (w : World) :
  exists w',
    destroy p w = (Ok tt, w')
    /\ gl_live w'
       = filter (fun o => negb (same_object o (KProgram, blackBgProgram p)))
          (filter (fun o => negb (same_object o (KProgram, maskProgram p)))
            (filter (fun o => negb (same_object o (KTexture, texture p)))
              (filter (fun o => negb (same_object o (KBuffer, texCoordBufferId p)))
                (filter (fun o => negb (same_object o (KBuffer, positionBufferId p)))
                        (gl_live w)))))
    /\ gl_next w' = gl_next w /\ canvases w' = canvases w
    /\ processor w' = processor w /\ trace w' = trace w.
Proof.
  destruct w as [cv nx lv pr ct ci cap cr tm tr].
  unfold destroy, gl_delete. run_gl.
  eexists. split; [reflexivity | ].
  cbn [gl_live gl_next canvases processor trace]. repeat split; reflexivity.
Qed.

(** The loop of [processFrames] touches nothing but the trace. *)
Lemma processLoop_world (p : ChromaKeyProcessor) (s : ChromaKeySettings)
    (frames : list ImageData) (onProgress : bool) (n : nat) :
  forall (i : nat) (M B : list ImageData) (w : World),
    (i + n = length frames)%nat ->
    let w' := snd (processLoop p s frames onProgress n i M B w) in
    gl_live w' = gl_live w /\ gl_next w' = gl_next w
    /\ canvases w' = canvases w /\ processor w' = processor w
    /\ trace w' = trace w
                  ++ flat_map (process_events onProgress (length frames))
                              (seq i n).
Proof.
  induction n as [ | n IH]; intros i M B w Hi; cbv zeta.
  - cbn. rewrite app_nil_r. repeat split; reflexivity.
  - destruct (nth_error frames i) as [f | ] eqn:E.
    2:{ apply nth_error_None in E. lia. }
    destruct w as [cv nx lv pr ct ci cap cr tm tr].
    cbn [processLoop]. rewrite E. cbn [seq flat_map].
    unfold process_events at 1.
    destruct onProgress; destruct (Nat.eqb (i mod 5) 0);
      unfold bind, emit, modify, ret;
      match goal with
      | |- context [processLoop p s frames ?b n (S i) ?M' ?B' ?w2] =>
          destruct (IH (S i) M' B' w2 ltac:(lia)) as (A1 & A2 & A3 & A4 & A5);
          rewrite A1, A2, A3, A4, A5
      end;
      cbn [gl_live gl_next canvases processor trace app];
      rewrite <- ?app_assoc; cbn [app]; repeat split; reflexivity.
Qed.

(** The world after [processFrames], from the world the constructor left. *)
Lemma processFrames_world_after (env : Browser) (f0 : ImageData)
    (rest : list ImageData) (colorType : ColorType) (onProgress : bool)
    (world w1 : World) (p : ChromaKeyProcessor) :
  ChromaKeyProcessor_new env (width f0) (height f0) world = (Ok p, w1) ->
  let w' := snd (processFrames env (f0 :: rest) colorType onProgress world) in
  gl_live w'
  = filter (fun o => negb (same_object o (KProgram, blackBgProgram p)))
     (filter (fun o => negb (same_object o (KProgram, maskProgram p)))
       (filter (fun o => negb (same_object o (KTexture, texture p)))
         (filter (fun o => negb (same_object o (KBuffer, texCoordBufferId p)))
           (filter (fun o => negb (same_object o (KBuffer, positionBufferId p)))
                   (gl_live w1)))))
  /\ gl_next w' = gl_next w1
  /\ canvases w' = canvases w1
  /\ processor w' = None
  /\ trace w' = trace w1
                ++ flat_map (process_events onProgress (length (f0 :: rest)))
                            (seq 0 (length (f0 :: rest))).
Proof.
  intros N. cbv zeta.
  remember (snd (processFrames env (f0 :: rest) colorType onProgress world))
    as wf eqn:E.
  unfold processFrames in E. rewrite (bind_Ok _ _ _ _ _ N) in E.
  unfold bind at 1 in E. unfold set_processor at 1, modify at 1 in E.
  set (w2 := {| canvases := canvases w1 |}) in E.
  fold (settings_of colorType) in E.
  pose proof (processLoop_result p (settings_of colorType) (f0 :: rest)
                onProgress (length (f0 :: rest)) 0 [] [] w2 eq_refl) as R.
  destruct (processLoop_world p (settings_of colorType) (f0 :: rest)
              onProgress (length (f0 :: rest)) 0 [] [] w2 eq_refl)
    as (L3 & X3 & C3 & P3 & T3).
  unfold bind at 1 in E.
  destruct (processLoop p (settings_of colorType) (f0 :: rest) onProgress
              (length (f0 :: rest)) 0 [] [] w2) as [r w3].
  cbn [fst snd] in R, L3, X3, C3, P3, T3. subst r.
  destruct (destroy_world p w3) as (w4 & D & L4 & X4 & C4 & P4 & T4).
  rewrite (bind_Ok _ _ _ _ _ D) in E.
  unfold bind, set_processor, modify, ret in E. cbn [snd] in E. subst wf.
  cbn [gl_live gl_next canvases processor trace].
  rewrite L4, X4, C4, T4, L3, X3, C3, T3.
  unfold w2. cbn [gl_live gl_next canvases trace].
  repeat split; reflexivity.
Qed.

(** The constructor calls nothing outside the canvas and its GL context. *)
Lemma ChromaKeyProcessor_new_quiet (env : Browser) (w h : nat) (world : World) :
  let r := ChromaKeyProcessor_new env w h world in
  trace (snd r) = trace world /\ processor (snd r) = processor world
  /\ canvases (snd r) = S (canvases world) /\ fst r <> Pending.
Proof.
  destruct world as [cv nx lv pr ct ci cap cr tm tr]. cbv zeta.
  unfold ChromaKeyProcessor_new, createShader, createProgram, gl_create, gl_delete.
  destruct (has_webgl env);
    [ | run_gl; repeat split; try reflexivity; discriminate].
  destruct (gl_creates env KShader);
    [ | run_gl; repeat split; try reflexivity; discriminate].
  destruct (gl_compiles env VERTEX_SHADER vertexShaderSource),
    (gl_compiles env FRAGMENT_SHADER maskFragmentShader);
    try (run_gl; repeat split; try reflexivity; discriminate).
  destruct (gl_creates env KProgram);
    [ | run_gl; repeat split; try reflexivity; discriminate].
  destruct (gl_links env);
    [ | run_gl; repeat split; try reflexivity; discriminate].
  destruct (gl_compiles env FRAGMENT_SHADER blackBgFragmentShader);
    [ | run_gl; repeat split; try reflexivity; discriminate].
  destruct (gl_creates env KBuffer);
    [ | run_gl; repeat split; try reflexivity; discriminate].
  destruct (gl_creates env KTexture);
    run_gl; repeat split; try reflexivity; discriminate.
Qed.

Lemma fresh_later (live : list (GLKind * nat)) (n m : nat) :
  Forall (fun o => (snd o < n)%nat) live -> (n <= m)%nat ->
  Forall (fun o => (snd o < m)%nat) live.
Proof.
  intros F H. eapply Forall_impl; [ | exact F]. cbv beta. intros o Ho. lia.
Qed.

Lemma gl_create_then_delete (live : list (GLKind * nat)) (k : GLKind) (n : nat) :
  Forall (fun o => (snd o < n)%nat) live ->
  filter (fun o => negb (same_object o (k, n))) (live ++ [(k, n)]) = live.
Proof.
  intros F. rewrite filter_app, (filter_fresh live k n n F) by lia.
  cbn [filter]. rewrite same_object_same. cbn [negb]. apply app_nil_r.
Qed.

(** X10. [createShader] and [createProgram] never throw and keep a GL object
    only when they return it (in a state where every live GL object has a
    name that was handed out before): when the browser creates the object
    and the compilation, respectively the linking, succeeds, the result is
    the new object and it is the one object added to the live ones; when
    creation gives null, or the compilation or linking fails, the result is
    null and the live objects are those from before the call (the object of
    a failed compilation or linking is deleted again, and no other object
    is). *)
Theorem create_keeps_only_what_it_returns (env : Browser) (type : ShaderType)
    (source : ShaderSource) (vs fs : nat) (w : World) :
  fresh w ->
  let sh := createShader env type source w in
  let pr := createProgram env vs fs w in
  let shader_ok := gl_creates env KShader && gl_compiles env type source in
  let program_ok := gl_creates env KProgram && gl_links env in
  fst sh = Ok (if shader_ok then Some (gl_next w) else None)
  /\ gl_live (snd sh)
     = gl_live w ++ (if shader_ok then [(KShader, gl_next w)] else [])
  /\ fresh (snd sh)
  /\ fst pr = Ok (if program_ok then Some (gl_next w) else None)
  /\ gl_live (snd pr)
     = gl_live w ++ (if program_ok then [(KProgram, gl_next w)] else [])
  /\ fresh (snd pr).
Proof.
  intros F. destruct w as [cv nx lv pr ct ci cap cr tm tr].
  unfold fresh in *. cbn [gl_live gl_next] in F. cbv zeta.
  unfold createShader, createProgram, gl_create, gl_delete.
  assert (F' : Forall (fun o => (snd o < S nx)%nat) lv)
    by (apply (fresh_later lv nx); [exact F | lia]).
  assert (G : forall k, Forall (fun o => (snd o < S nx)%nat) (lv ++ [(k, nx)])).
  { intros k. apply Forall_app. split; [exact F' | ].
    constructor; [cbn [snd]; lia | constructor]. }
  destruct (gl_creates env KShader), (gl_compiles env type source),
    (gl_creates env KProgram), (gl_links env);
    run_gl; cbn [andb gl_live gl_next];
    rewrite ?(gl_create_then_delete lv _ nx F), ?app_nil_r;
    repeat split; try reflexivity; try exact F; try exact F'; try apply G.
Qed.

Lemma progress_app (a b : list Event) : progress (a ++ b) = progress a ++ progress b.
Proof. unfold progress. apply flat_map_app. Qed.

Lemma yields_app (a b : list Event) : yields (a ++ b) = (yields a + yields b)%nat.
Proof. unfold yields. now rewrite filter_app, length_app. Qed.

Lemma progress_process_events (onProgress : bool) (N : nat) (l : list nat) :
  progress (flat_map (process_events onProgress N) l)
  = if onProgress then map (fun i => ((i + 1)%nat, Num (natQ N))) l else [].
Proof.
  induction l as [ | i l IH]; [now destruct onProgress | ].
  cbn [flat_map]. rewrite progress_app, IH. unfold process_events.
  destruct onProgress, (Nat.eqb (i mod 5) 0); reflexivity.
Qed.

Lemma yields_process_events (onProgress : bool) (N : nat) (l : list nat) :
  yields (flat_map (process_events onProgress N) l)
  = length (filter (fun i => Nat.eqb (i mod 5) 0) l).
Proof.
  induction l as [ | i l IH]; [reflexivity | ].
  cbn [flat_map filter]. rewrite yields_app, IH. unfold process_events.
  destruct onProgress, (Nat.eqb (i mod 5) 0); reflexivity.
Qed.

Lemma multiples_of_five_below (N : nat) :
  length (filter (fun i => Nat.eqb (i mod 5) 0) (seq 0 N)) = ((N + 4) / 5)%nat.
Proof.
  induction N as [ | N IH]; [reflexivity | ].
  rewrite seq_S, filter_app, length_app, IH. cbn [filter Nat.add].
  pose proof (Nat.div_mod_eq N 5) as D1.
  pose proof (Nat.mod_upper_bound N 5 ltac:(lia)) as B1.
  pose proof (Nat.div_mod_eq (N + 4) 5) as D2.
  pose proof (Nat.mod_upper_bound (N + 4) 5 ltac:(lia)) as B2.
  pose proof (Nat.div_mod_eq (S (N + 4)) 5) as D3.
  pose proof (Nat.mod_upper_bound (S (N + 4)) 5 ltac:(lia)) as B3.
  destruct (Nat.eqb (N mod 5) 0) eqn:E; cbn [length].
  - apply Nat.eqb_eq in E. lia.
  - apply Nat.eqb_neq in E. lia.
Qed.

(** X11. In a browser where every canvas and GL call succeeds, and from a
    state where every live GL object has a name that was handed out before,
    a run of [processFrames] on a non-empty sequence creates one canvas and
    nine GL objects and, before it returns, deletes the two buffers, the
    texture and the two programs; the four shaders are never deleted, so
    they are what the run adds to the live GL objects, in the order of their
    creation.  The [processor] field is null again at the end. *)
Theorem processFrames_releases_all_but_shaders (env : Browser) (f0 : ImageData)
    (rest : list ImageData) (colorType : ColorType) (onProgress : bool)
    (world : World) :
  capable env -> fresh world ->
  let w' := snd (processFrames env (f0 :: rest) colorType onProgress world) in
  let n := gl_next world in
  gl_live w' = gl_live world
               ++ [(KShader, n); (KShader, (1 + n)%nat);
                   (KShader, (3 + n)%nat); (KShader, (4 + n)%nat)]
  /\ gl_next w' = (9 + n)%nat
  /\ canvases w' = S (canvases world)
  /\ processor w' = None
  /\ fresh w'.
Proof.
  intros C F. cbv zeta.
  destruct (ChromaKeyProcessor_new_world env (width f0) (height f0) world C)
    as (p & w1 & N & L1 & X1 & C1 & P1 & T1 & I1 & I2 & I3 & I4 & I5 & _).
  destruct (processFrames_world_after env f0 rest colorType onProgress
              world w1 p N) as (L & X & Cv & P & _).
  assert (G : gl_live (snd (processFrames env (f0 :: rest) colorType
                              onProgress world))
              = gl_live world
                ++ [(KShader, gl_next world); (KShader, (1 + gl_next world)%nat);
                    (KShader, (3 + gl_next world)%nat);
                    (KShader, (4 + gl_next world)%nat)]).
  { rewrite L, L1, I1, I2, I3, I4, I5. unfold fresh in F.
    repeat (rewrite filter_app;
            rewrite (filter_fresh (gl_live world) _ _ _ F) by lia;
            cbn [filter]; gl_names; cbn [negb]).
    reflexivity. }
  split; [exact G | ].
  split; [now rewrite X, X1 | ].
  split; [now rewrite Cv, C1 | ].
  split; [exact P | ].
  unfold fresh. rewrite G, X, X1. apply Forall_app. split.
  - apply (fresh_later _ _ _ F). lia.
  - repeat constructor; cbn [snd]; lia.
Qed.

(** X12. In a browser where every canvas and GL call succeeds,
    [processFrames] on N >= 1 frames does, for i = 0 .. N-1 in this order:
    report the progress (i + 1, N) when a callback is given, then hand
    control back to the event loop when i is a multiple of 5.  So the
    callback is called N times with 1/N .. N/N (never when none is given),
    and the run yields ceil(N / 5) = floor((N + 4) / 5) times. *)
Theorem processFrames_progress_and_yields (env : Browser) (f0 : ImageData)
    (rest : list ImageData) (colorType : ColorType) (onProgress : bool)
    (world : World) :
  capable env ->
  let N := length (f0 :: rest) in
  let w' := snd (processFrames env (f0 :: rest) colorType onProgress world) in
  trace w' = trace world ++ flat_map (process_events onProgress N) (seq 0 N)
  /\ progress (trace w')
     = progress (trace world)
       ++ (if onProgress
           then map (fun i => ((i + 1)%nat, Num (natQ N))) (seq 0 N)
           else [])
  /\ yields (trace w') = (yields (trace world) + (N + 4) / 5)%nat.
Proof.
  intros C. cbv zeta.
  destruct (ChromaKeyProcessor_new_world env (width f0) (height f0) world C)
    as (p & w1 & N & _ & _ & _ & _ & T1 & _).
  destruct (processFrames_world_after env f0 rest colorType onProgress
              world w1 p N) as (_ & _ & _ & _ & T).
  rewrite T1 in T. rewrite T. split; [reflexivity | ].
  rewrite progress_app, yields_app, progress_process_events,
    yields_process_events, multiples_of_five_below.
  split; reflexivity.
Qed.

(** X13. When the browser creates and compiles the shaders but does not link
    the program (and every live GL object has a name that was handed out
    before), the constructor deletes the mask program and throws
    'Failed to create mask program', and [processFrames] rejects with this
    error; the two mask shaders compiled before are not deleted and stay
    live.  The [processor] field keeps its value and no progress is
    reported. *)
Theorem link_failure_leaves_mask_shaders (env : Browser) (f0 : ImageData)
    (rest : list ImageData) (colorType : ColorType) (onProgress : bool)
    (world : World) :
  has_webgl env = true -> (forall k, gl_creates env k = true) ->
  (forall t s, gl_compiles env t s = true) -> gl_links env = false ->
  fresh world ->
  exists w',
    processFrames env (f0 :: rest) colorType onProgress world
    = (Throw Failed_to_create_mask_program, w')
    /\ ChromaKeyProcessor_new env (width f0) (height f0) world
       = (Throw Failed_to_create_mask_program, w')
    /\ gl_live w' = gl_live world
                    ++ [(KShader, gl_next world);
                        (KShader, (1 + gl_next world)%nat)]
    /\ gl_next w' = (3 + gl_next world)%nat
    /\ processor w' = processor world
    /\ trace w' = trace world.
Proof.
  intros Hgl Hcr Hco Hli F.
  assert (N : exists w',
             ChromaKeyProcessor_new env (width f0) (height f0) world
             = (Throw Failed_to_create_mask_program, w')
             /\ gl_live w' = gl_live world
                             ++ [(KShader, gl_next world);
                                 (KShader, (1 + gl_next world)%nat)]
             /\ gl_next w' = (3 + gl_next world)%nat
             /\ processor w' = processor world
             /\ trace w' = trace world).
  { destruct world as [cv nx lv pr ct ci cap cr tm tr].
    unfold fresh in F. cbn [gl_live gl_next] in F.
    unfold ChromaKeyProcessor_new, createShader, createProgram, gl_create,
      gl_delete.
    rewrite Hgl, Hli, !Hcr, !Hco. run_gl.
    eexists. split; [reflexivity | ].
    cbn [gl_live gl_next processor trace Nat.add].
    rewrite <- !app_assoc. cbn [app].
    repeat (rewrite filter_app; rewrite (filter_fresh lv _ _ _ F) by lia;
            cbn [filter]; gl_names; cbn [negb]).
    repeat split; reflexivity. }
  destruct N as (w' & N & L & X & P & T).
  exists w'. split; [ | repeat split; assumption].
  exact (processFrames_throws env f0 rest colorType onProgress world w'
           Failed_to_create_mask_program N).
Qed.

(** X14. In any browser, [processFrames] on a non-empty sequence has created
    one canvas when it ends.  When it rejects, it is with the error of the
    constructor, before anything else happened: no progress was reported, no
    yield was made and the [processor] field has the value from before the
    call.  When it resolves, the [processor] field is null. *)
Theorem processFrames_failure_is_silent (env : Browser) (f0 : ImageData)
    (rest : list ImageData) (colorType : ColorType) (onProgress : bool)
    (world : World) :
  let r := processFrames env (f0 :: rest) colorType onProgress world in
  canvases (snd r) = S (canvases world)
  /\ match fst r with
     | Ok _ => processor (snd r) = None
     | Throw e =>
         fst (ChromaKeyProcessor_new env (width f0) (height f0) world) = Throw e
         /\ trace (snd r) = trace world
         /\ processor (snd r) = processor world
     | Pending => False
     end.
Proof.
  cbv zeta.
  destruct (ChromaKeyProcessor_new_quiet env (width f0) (height f0) world)
    as (T & P & Cv & NP).
  destruct (ChromaKeyProcessor_new env (width f0) (height f0) world)
    as [[p | e | ] w1] eqn:N; cbn [fst snd] in T, P, Cv, NP.
  - destruct (processFrames_world_after env f0 rest colorType onProgress
                world w1 p N) as (_ & _ & Cw & Pw & _).
    rewrite (processFrames_nonempty env f0 rest colorType onProgress
               world w1 p N).
    split; [now rewrite Cw | exact Pw].
  - rewrite (processFrames_throws env f0 rest colorType onProgress
               world w1 e N).
    cbn [fst snd]. repeat split; assumption.
  - now contradiction NP.
Qed.

Lemma create_keeps_only_what_it_returns_witness :
  let env := {| has_canvas2d := true; has_webgl := true;
                gl_creates := fun _ => true; gl_compiles := fun _ _ => false;
                gl_links := true; has_requestFrame := true;
                clock := fun _ => 0 |} in
  let w := snd (gl_create env KBuffer initial_world) in
  fresh w
  /\ fst (createShader env FRAGMENT_SHADER maskFragmentShader w) = Ok None
  /\ gl_live (snd (createShader env FRAGMENT_SHADER maskFragmentShader w))
     = [(KBuffer, 0%nat)]
  /\ gl_live (snd (createProgram env 1 2 w))
     = [(KBuffer, 0%nat); (KProgram, 1%nat)].
Proof.
  intros env w.
  assert (F : fresh w) by (repeat constructor).
  split; [exact F | ].
  destruct (create_keeps_only_what_it_returns env FRAGMENT_SHADER
              maskFragmentShader 1 2 w F) as (R & L & _ & _ & L' & _).
  split; [exact R | ]. split; [exact L | exact L'].
Defined.

Lemma processFrames_releases_all_but_shaders_witness :
  let frame := solid 1 1 [0; 255; 0; 255]%Z in
  capable a_browser /\ fresh initial_world
  /\ gl_live (snd (processFrames a_browser [frame; frame] green false
                                 initial_world))
     = [(KShader, 0%nat); (KShader, 1%nat); (KShader, 3%nat); (KShader, 4%nat)].
Proof.
  intros frame.
  assert (F : fresh initial_world) by constructor.
  split; [exact a_browser_capable | ]. split; [exact F | ].
  destruct (processFrames_releases_all_but_shaders a_browser frame [frame]
              green false initial_world a_browser_capable F) as (L & _).
  exact L.
Defined.

Lemma processFrames_progress_and_yields_witness :
  let frame := solid 1 1 [0; 255; 0; 255]%Z in
  let frames := [frame; frame; frame; frame; frame; frame] in
  capable a_browser
  /\ yields (trace (snd (processFrames a_browser frames blue true
                                       initial_world))) = 2%nat
  /\ length (progress (trace (snd (processFrames a_browser frames blue true
                                                 initial_world)))) = 6%nat.
Proof.
  intros frame frames.
  split; [exact a_browser_capable | ].
  destruct (processFrames_progress_and_yields a_browser frame
              [frame; frame; frame; frame; frame] blue true initial_world
              a_browser_capable) as (_ & P & Y).
  split; [exact Y | ].
  unfold frames. rewrite P. reflexivity.
Defined.

Lemma link_failure_leaves_mask_shaders_witness :
  let env := {| has_canvas2d := true; has_webgl := true;
                gl_creates := fun _ => true; gl_compiles := fun _ _ => true;
                gl_links := false; has_requestFrame := true;
                clock := fun _ => 0 |} in
  let frame := solid 1 1 [0; 255; 0; 255]%Z in
  has_webgl env = true /\ (forall k, gl_creates env k = true)
  /\ (forall t s, gl_compiles env t s = true) /\ gl_links env = false
  /\ fresh initial_world
  /\ exists w',
       processFrames env [frame] green true initial_world
       = (Throw Failed_to_create_mask_program, w')
       /\ gl_live w' = [(KShader, 0%nat); (KShader, 1%nat)].
Proof.
  intros env frame.
  assert (H1 : has_webgl env = true) by reflexivity.
  assert (H2 : forall k, gl_creates env k = true) by reflexivity.
  assert (H3 : forall t s, gl_compiles env t s = true) by reflexivity.
  assert (H4 : gl_links env = false) by reflexivity.
  assert (H5 : fresh initial_world) by constructor.
  split; [exact H1 | ]. split; [exact H2 | ]. split; [exact H3 | ].
  split; [exact H4 | ]. split; [exact H5 | ].
  destruct (link_failure_leaves_mask_shaders env frame [] green true
              initial_world H1 H2 H3 H4 H5) as (w' & E & _ & L & _).
  exists w'. split; [exact E | exact L].
Defined.

(** * Further properties of the two passes together *)

(** The pixel in column [x] of row [y] of a rendered frame, whatever the
    size of the input: the stored colour of the fragment at the centre of
    drawing-buffer pixel (x, H - 1 - y). *)
Lemma render_pixel_at (this : ChromaKeyProcessor) (program : Program)
    (img : ImageData) (s : ChromaKeySettings) (x y : nat) :
  (x < cw this)%nat -> (y < ch this)%nat ->
  pixelAt (renderWithProgram this program img s) (y * cw this + x)
  = storeColor (fragmentShader program (texture2D img) (setUniforms s)
                  (v_texCoord_at (pixelCentre (cw this) (ch this) x
                                              (ch this - 1 - y)))).
Proof.
  intros Hx Hy.
  pose proof (render_rows this program img s) as R. cbv zeta in R.
  set (W := cw this) in *. set (H := ch this) in *.
  set (shade := fragmentShader program (texture2D img) (setUniforms s)) in *.
  set (rowpx := fun j =>
         map (fun i => storeColor (shade (v_texCoord_at (pixelCentre W H i j))))
             (seq 0 W)) in *.
  set (rows := rev (map rowpx (seq 0 H))) in *.
  assert (UW : uniform W rows).
  { unfold uniform. rewrite Forall_forall. intros r Hr.
    apply in_rev, in_map_iff in Hr. destruct Hr as (j & <- & _).
    unfold rowpx. now rewrite length_map, length_seq. }
  assert (LR : length rows = H).
  { unfold rows. now rewrite length_rev, length_map, length_seq. }
  assert (U4 : uniform 4 (concat rows)).
  { unfold uniform. rewrite Forall_forall. intros p Hp.
    apply in_concat in Hp. destruct Hp as (r & Hr & Hp).
    apply in_rev, in_map_iff in Hr. destruct Hr as (j & <- & _).
    apply in_map_iff in Hp. destruct Hp as (i & <- & _). reflexivity. }
  assert (LP : length (concat rows) = (H * W)%nat).
  { rewrite (length_concat_uniform W _ UW), LR. reflexivity. }
  rewrite (pixelAt_concat _ (concat rows) (y * W + x) R U4) by nia.
  rewrite (nth_concat_uniform W rows y x [] UW) by lia.
  assert (NR : nth y rows [] = rowpx (H - 1 - y)%nat).
  { unfold rows. rewrite rev_nth by (rewrite length_map, length_seq; lia).
    rewrite length_map, length_seq.
    rewrite (nth_indep _ [] (rowpx 0%nat))
      by (rewrite length_map, length_seq; lia).
    rewrite (map_nth rowpx), seq_nth by lia. f_equal. lia. }
  rewrite NR. unfold rowpx.
  rewrite (nth_indep _ []
             (storeColor (shade (v_texCoord_at (pixelCentre W H 0 (H - 1 - y))))))
    by (rewrite length_map, length_seq; lia).
  rewrite (map_nth (fun i => storeColor
                      (shade (v_texCoord_at (pixelCentre W H i (H - 1 - y)))))).
  rewrite seq_nth by lia. reflexivity.
Qed.

Lemma unorm_at_most_one (b : Z) : (b <= 255)%Z -> unorm b <= 1.
Proof.
  intros U. unfold unorm. rewrite Zle_Qle in U.
  change (inject_Z 255) with 255 in U.
  apply Qle_shift_div_r; [reflexivity | ]. lra.
Qed.

Lemma nth_at_most_255 (l : list Z) (o : nat) :
  Forall (fun b => (b <= 255)%Z) l -> (nth o l 0 <= 255)%Z.
Proof.
  intros F. destruct (nth_in_or_default o l 0%Z) as [I | ->]; [ | lia].
  rewrite Forall_forall in F. now apply F.
Qed.

Lemma texelFetch_at_most_one (img : ImageData) (i j : nat) :
  Forall (fun b => (b <= 255)%Z) (data img) ->
  at_most_one (texelFetch img i j).
Proof.
  intros F. unfold texelFetch, at_most_one. cbv zeta. cbn [v4x v4y v4z v4w].
  repeat split; apply unorm_at_most_one, nth_at_most_255, F.
Qed.

Lemma mix_at_most_one (x y a : Q) :
  x <= 1 -> y <= 1 -> 0 <= a <= 1 -> mix x y a <= 1.
Proof. intros Hx Hy Ha. unfold mix. nra. Qed.

Lemma mix4_at_most_one (x y : vec4) (a : Q) :
  at_most_one x -> at_most_one y -> 0 <= a <= 1 -> at_most_one (mix4 x y a).
Proof.
  intros (X1 & X2 & X3 & X4) (Y1 & Y2 & Y3 & Y4) Ha.
  unfold mix4, at_most_one. cbn [v4x v4y v4z v4w].
  repeat split; now apply mix_at_most_one.
Qed.

Lemma fraction_unit (u : Q) : 0 <= u - inject_Z (Qfloor u) <= 1.
Proof.
  pose proof (Qfloor_le u) as L. pose proof (Qlt_floor u) as U.
  rewrite inject_Z_plus in U. change (inject_Z 1) with 1 in U. lra.
Qed.

Lemma texture2D_at_most_one (img : ImageData) (tc : vec2) :
  Forall (fun b => (b <= 255)%Z) (data img) ->
  at_most_one (texture2D img tc).
Proof.
  intros F. unfold texture2D. cbv zeta.
  repeat apply mix4_at_most_one;
    try apply texelFetch_at_most_one; try exact F; apply fraction_unit.
Qed.

Lemma spill_at_most_one (color : vec3) (amount : Q) (g : bool) :
  v3x color <= 1 -> v3y color <= 1 -> v3z color <= 1 -> 0 <= amount ->
  let out := BlackBgShader.suppressSpill color amount g in
  v3x out <= 1 /\ v3y out <= 1 /\ v3z out <= 1.
Proof.
  intros Hx Hy Hz Ha. destruct color as [r gg b]. cbn [v3x v3y v3z] in *.
  unfold BlackBgShader.suppressSpill. destruct g; cbv zeta; cbn [v3x v3y v3z].
  - pose proof (Q.le_max_l 0 (gg - (r + b) * 0.5)) as E.
    set (ex := Qmax 0 (gg - (r + b) * 0.5)) in *. clearbody ex.
    repeat split; try apply Q.le_min_l. nra.
  - pose proof (Q.le_max_l 0 (b - (r + gg) * 0.5)) as E.
    set (ex := Qmax 0 (b - (r + gg) * 0.5)) in *. clearbody ex.
    repeat split; try apply Q.le_min_l. nra.
Qed.

Lemma composite_at_most_alpha (u : Uniforms) (c : vec4) :
  at_most_one c -> 0 <= u_spillSuppression u ->
  let out := BlackBgShader.main_color u c in
  let alpha := MaskShader.main_alpha u c in
  v3x out <= alpha /\ v3y out <= alpha /\ v3z out <= alpha.
Proof.
  intros (C1 & C2 & C3 & _) Hs. cbv zeta.
  unfold BlackBgShader.main_color. cbv zeta. rewrite main_alpha_same.
  pose proof (main_alpha_unit u c) as A. unfold in_unit in A.
  set (al := MaskShader.main_alpha u c) in *. clearbody al.
  assert (Ham : 0 <= u_spillSuppression u * (1 - al * 0.5)) by nra.
  destruct (spill_at_most_one (rgb c) _ (BlackBgShader.isGreen u)
              C1 C2 C3 Ham) as (D1 & D2 & D3).
  set (d := BlackBgShader.suppressSpill _ _ _) in *. clearbody d.
  unfold scale3. cbn [v3x v3y v3z]. repeat split; nra.
Qed.

Lemma clamp_monotone (x y lo hi : Q) : x <= y -> clamp x lo hi <= clamp y lo hi.
Proof.
  intros H. unfold clamp.
  apply Q.min_le_compat_r. now apply Q.max_le_compat_r.
Qed.

Lemma toByte_monotone (x y : Q) : x <= y -> (toByte x <= toByte y)%Z.
Proof.
  intros H. unfold toByte. apply Qfloor_resp_le.
  pose proof (clamp_monotone x y 0 1 H). lra.
Qed.

(** X15. For any input frame whose bytes are at most 255 and a spill
    suppression setting that is not negative, the two passes agree pixel by
    pixel: the mask pixel is a grey (m, m, m, 255), and each colour byte of
    the composite pixel at the same place lies between 0 and m.  So where
    the mask is black the composite is black, whatever the sizes of frame and
    processor. *)
Theorem composite_no_brighter_than_mask (this : ChromaKeyProcessor)
    (img : ImageData) (s : ChromaKeySettings) (x y : nat) :
  Forall (fun b => (b <= 255)%Z) (data img) -> 0 <= spillSuppression s ->
  (x < cw this)%nat -> (y < ch this)%nat ->
  let result := processFrameAll this img s in
  let k := (y * cw this + x)%nat in
  exists m r g b : Z,
    pixelAt (mask result) k = [m; m; m; 255]%Z
    /\ pixelAt (black result) k = [r; g; b; 255]%Z
    /\ (0 <= r <= m)%Z /\ (0 <= g <= m)%Z /\ (0 <= b <= m)%Z
    /\ (m <= 255)%Z
    /\ (m = 0%Z -> pixelAt (black result) k = [0; 0; 0; 255]%Z).
Proof.
  intros F Hs Hx Hy. cbv zeta.
  unfold processFrameAll. cbn [mask black].
  rewrite !(render_pixel_at this _ img s x y Hx Hy).
  set (tc := v_texCoord_at _).
  pose proof (texture2D_at_most_one img tc F) as C.
  unfold fragmentShader, MaskShader.main, BlackBgShader.main. cbv zeta.
  set (c := texture2D img tc) in *. clearbody c.
  destruct (composite_at_most_alpha (setUniforms s) c C Hs) as (L1 & L2 & L3).
  set (out := BlackBgShader.main_color (setUniforms s) c) in *. clearbody out.
  set (al := MaskShader.main_alpha (setUniforms s) c) in *. clearbody al.
  unfold storeColor. cbn [v4x v4y v4z v4w].
  apply toByte_monotone in L1, L2, L3.
  pose proof (toByte_range (v3x out)). pose proof (toByte_range (v3y out)).
  pose proof (toByte_range (v3z out)). pose proof (toByte_range al).
  exists (toByte al), (toByte (v3x out)), (toByte (v3y out)), (toByte (v3z out)).
  rewrite toByte_one.
  repeat split; try lia.
  intros Z. repeat f_equal; lia.
Qed.

Lemma composite_no_brighter_than_mask_witness :
  let this := {| cw := 2; ch := 1; maskProgram := 2; blackBgProgram := 5;
                 positionBufferId := 6; texCoordBufferId := 7; texture := 8 |} in
  let img := {| data := [0; 255; 0; 255; 200; 100; 50; 255]%Z;
                width := 2; height := 1 |} in
  Forall (fun b => (b <= 255)%Z) (data img)
  /\ 0 <= spillSuppression GREEN_SCREEN_SETTINGS
  /\ (0 < cw this)%nat /\ (0 < ch this)%nat
  /\ exists m r g b : Z,
       pixelAt (mask (processFrameAll this img GREEN_SCREEN_SETTINGS)) 0
       = [m; m; m; 255]%Z
       /\ pixelAt (black (processFrameAll this img GREEN_SCREEN_SETTINGS)) 0
          = [r; g; b; 255]%Z
       /\ (r <= m)%Z /\ (g <= m)%Z /\ (b <= m)%Z.
Proof.
  intros this img.
  assert (H1 : Forall (fun b => (b <= 255)%Z) (data img))
    by (repeat constructor; discriminate).
  assert (H2 : 0 <= spillSuppression GREEN_SCREEN_SETTINGS) by discriminate.
  assert (H3 : (0 < cw this)%nat) by (simpl; lia).
  assert (H4 : (0 < ch this)%nat) by (simpl; lia).
  split; [exact H1 | ]. split; [exact H2 | ]. split; [exact H3 | ].
  split; [exact H4 | ].
  destruct (composite_no_brighter_than_mask this img GREEN_SCREEN_SETTINGS
              0 0 H1 H2 H3 H4)
    as (m & r & g & b & M & B & (_ & Hr) & (_ & Hg) & (_ & Hb) & _).
  exists m, r, g, b. repeat split; assumption.
Defined.

(** In a frame of the size of the processor every pixel is computed from
    the pixel at the same place. *)
Lemma render_pixel_in_place (this : ChromaKeyProcessor) (program : Program)
    (img : ImageData) (s : ChromaKeySettings) (x y : nat) :
  width img = cw this -> height img = ch this ->
  (x < cw this)%nat -> (y < ch this)%nat ->
  pixelAt (renderWithProgram this program img s) (y * cw this + x)
  = storeColor (fragmentShader program (fun _ => texelFetch img x y)
                               (setUniforms s) (Vec2 0 0)).
Proof.
  intros Ew Eh Hx Hy. rewrite (render_pixel_at this program img s x y Hx Hy).
  apply fragment_respects_sample.
  replace (texelFetch img x y)
    with (texelFetch img x (height img - 1 - (ch this - 1 - y)))
    by (f_equal; rewrite Eh; lia).
  rewrite <- Ew, <- Eh.
  apply texture2D_at_centre; rewrite ?Ew, ?Eh; lia.
Qed.

Lemma extractLoop_sizes (video : HTMLVideoElement) (onProgress : bool)
    (totalFrames : number) (frameInterval : Q) (fuel : nat) :
  forall (i : nat) (acc : list ImageData) (w : World)
         (frames : list ImageData) (w' : World),
    Forall (video_sized video) acc ->
    extractLoop video onProgress totalFrames frameInterval fuel i acc w
    = (Ok frames, w') ->
    Forall (video_sized video) frames.
Proof.
  induction fuel as [ | fuel IH]; intros i acc w frames w' A E.
  - cbn [extractLoop] in E. destruct (lt_number i totalFrames).
    + discriminate.
    + unfold ret in E. now inversion E; subst.
  - cbn [extractLoop] in E. destruct (lt_number i totalFrames).
    + destruct w as [cv nx lv pr ct ci cap cr tm tr].
      unfold seekToTime, captureImage, set_currentTime in E.
      destruct onProgress;
        cbv beta iota zeta delta
          [bind ret throw get modify emit
           canvases gl_next gl_live processor currentTime canvas_image captured
           clock_reads timers trace fst snd] in E;
        (eapply IH; [ | exact E]);
        (apply Forall_app; split; [exact A | ]);
        repeat constructor.
    + unfold ret in E. now inversion E; subst.
Qed.

Lemma extractFrames_sizes (env : Browser) (fps : Q) (video : HTMLVideoElement)
    (onProgress : bool) (fuel : nat) (world w' : World)
    (frames : list ImageData) :
  extractFrames env fps video onProgress fuel world = (Ok frames, w') ->
  Forall (video_sized video) frames.
Proof.
  unfold extractFrames. intros E.
  destruct (has_canvas2d env).
  - unfold bind at 1 in E. unfold createCanvas at 1, modify at 1 in E.
    cbv beta iota in E. unfold bind at 1, ret at 1 in E. cbv beta iota in E.
    eapply extractLoop_sizes; [ | exact E]. constructor.
  - unfold bind at 1 in E. unfold createCanvas at 1, modify at 1 in E.
    cbv beta iota in E. unfold bind at 1, throw at 1 in E. discriminate.
Qed.

(** X16. Extraction and processing fit together.  Every frame that
    [extractFrames] returns has the size of the video, so the processor that
    [processFrames] sizes to the first of them fits them all: in a browser
    where every canvas and GL call succeeds, processing what extraction
    returned resolves with as many masks and composites as there are frames,
    all of the size of the video, and pixel (x, y) of the i-th mask and
    composite is the stored output of the respective shader on pixel (x, y)
    of the i-th extracted frame. *)
Theorem extracted_frames_fit_the_processor (env : Browser) (fps : Q)
    (video : HTMLVideoElement) (colorType : ColorType)
    (onExtract onProcess : bool) (fuel : nat) (world w1 : World)
    (frames : list ImageData) :
  capable env ->
  extractFrames env fps video onExtract fuel world = (Ok frames, w1) ->
  let W := videoWidth video in
  let H := videoHeight video in
  let u := setUniforms (settings_of colorType) in
  exists maskSeq blackSeq,
    fst (processFrames env frames colorType onProcess w1)
    = Ok (maskSeq, blackSeq)
    /\ length maskSeq = length frames /\ length blackSeq = length frames
    /\ forall i f, nth_error frames i = Some f ->
         width f = W /\ height f = H
         /\ exists m b,
              nth_error maskSeq i = Some m /\ nth_error blackSeq i = Some b
              /\ width m = W /\ height m = H /\ width b = W /\ height b = H
              /\ forall x y, (x < W)%nat -> (y < H)%nat ->
                   pixelAt m (y * W + x)
                   = storeColor (MaskShader.main (fun _ => texelFetch f x y)
                                                 u (Vec2 0 0))
                   /\ pixelAt b (y * W + x)
                      = storeColor (BlackBgShader.main
                                      (fun _ => texelFetch f x y) u (Vec2 0 0)).
Proof.
  intros C E. cbv zeta.
  pose proof (extractFrames_sizes env fps video onExtract fuel world w1
                frames E) as S.
  destruct frames as [ | f0 rest].
  - exists [], []. split; [reflexivity | ]. split; [reflexivity | ].
    split; [reflexivity | ]. intros i f Hf. destruct i; discriminate.
  - destruct (ChromaKeyProcessor_new_world env (width f0) (height f0) w1 C)
      as (p & w2 & N & _ & _ & _ & _ & _ & _ & _ & _ & _ & _ & Pw & Ph).
    pose proof (Forall_inv S) as (S0w & S0h).
    rewrite S0w in Pw. rewrite S0h in Ph.
    rewrite (processFrames_nonempty env f0 rest colorType onProcess w1 w2 p N).
    eexists. eexists. split; [reflexivity | ].
    rewrite !length_map. split; [reflexivity | ]. split; [reflexivity | ].
    intros i f Hf.
    rewrite Forall_forall in S.
    destruct (S f (nth_error_In _ _ Hf)) as (Fw & Fh).
    split; [exact Fw | ]. split; [exact Fh | ].
    rewrite !nth_error_map, Hf. cbn [option_map].
    eexists. eexists. split; [reflexivity | ]. split; [reflexivity | ].
    unfold processFrameAll. cbn [mask black renderWithProgram width height].
    repeat (split; [assumption | ]).
    intros x y Hx Hy. rewrite <- Pw in Hx |- *. rewrite <- Ph in Hy.
    split.
    + apply (render_pixel_in_place p MaskProgram f (settings_of colorType) x y);
        congruence.
    + apply (render_pixel_in_place p BlackBgProgram f (settings_of colorType) x y);
        congruence.
Qed.

Lemma extracted_frames_fit_the_processor_witness :
  let video := {| videoWidth := 1; videoHeight := 1; duration := Num 0.11;
                  picture := fun t => [Qfloor (t * 1000); 0; 0; 255]%Z |} in
  let frames := map (frame_at video 30) (seq 0 3) in
  let w1 := snd (extractFrames a_browser 30 video false 5 initial_world) in
  capable a_browser
  /\ extractFrames a_browser 30 video false 5 initial_world = (Ok frames, w1)
  /\ exists maskSeq blackSeq,
       fst (processFrames a_browser frames green false w1)
       = Ok (maskSeq, blackSeq)
       /\ length maskSeq = 3%nat /\ length blackSeq = 3%nat.
Proof.
  intros video frames w1.
  assert (H : extractFrames a_browser 30 video false 5 initial_world
              = (Ok frames, w1)) by (vm_compute; reflexivity).
  split; [exact a_browser_capable | ]. split; [exact H | ].
  destruct (extracted_frames_fit_the_processor a_browser 30 video green
              false false 5 initial_world w1 frames a_browser_capable H)
    as (maskSeq & blackSeq & E & L1 & L2 & _).
  exists maskSeq, blackSeq. split; [exact E | ]. split; [exact L1 | exact L2].
Defined.

(** * Further properties of the reassembler and the extractor *)

Lemma same_resources_refl (w : World) : same_resources w w.
Proof. repeat split. Qed.

Lemma same_resources_trans (a b c : World) :
  same_resources a b -> same_resources b c -> same_resources a c.
Proof.
  intros (A1 & A2 & A3 & A4 & A5) (B1 & B2 & B3 & B4 & B5).
  repeat split; congruence.
Qed.

Lemma drawNextFrame_resources (env : Browser) (frames : list ImageData)
    (interval : Q) (onProgress : bool) (st : Reassembly) (w : World) :
  let w' := snd (drawNextFrame env frames interval onProgress st w) in
  same_resources w w'
  /\ canvas_image w' = match nth_error frames (frameIndex st) with
                       | Some f => Some f
                       | None => canvas_image w
                       end.
Proof.
  destruct w as [cv nx lv pr ct ci cap cr tm tr]. cbv zeta.
  unfold drawNextFrame, same_resources.
  destruct (nth_error frames (frameIndex st)) as [f | ];
    [destruct (has_requestFrame env), onProgress | ];
    run_world; repeat split; reflexivity.
Qed.

Lemma set_timers_resources (l : list (Callback * Q)) (w : World) :
  same_resources w (snd (set_timers l w))
  /\ canvas_image (snd (set_timers l w)) = canvas_image w
  /\ clock_reads (snd (set_timers l w)) = clock_reads w.
Proof. repeat split. Qed.

Lemma runTimers_stop_world (env : Browser) (frames : list ImageData)
    (interval : Q) (onProgress : bool) (fuel : nat) (st : Reassembly)
    (w : World) (dl : Q) (rest : list (Callback * Q)) :
  timers w = (StopRecorder, dl) :: rest ->
  let w' := snd (runTimers env frames interval onProgress (S fuel) st w) in
  timers w' = rest /\ clock_reads w' = clock_reads w
  /\ same_resources w w' /\ canvas_image w' = canvas_image w.
Proof.
  destruct w as [cv nx lv pr ct ci cap cr tm tr]. cbn [timers]. intros ->.
  cbv zeta. unfold same_resources. cbn [runTimers]. run_world.
  repeat split; reflexivity.
Qed.

Lemma drawNextFrame_done_clock (env : Browser) (frames : list ImageData)
    (interval : Q) (onProgress : bool) (st : Reassembly) (w : World) :
  nth_error frames (frameIndex st) = None ->
  clock_reads (snd (drawNextFrame env frames interval onProgress st w))
  = clock_reads w.
Proof.
  intros E. destruct w. unfold drawNextFrame. rewrite E. run_world.
  reflexivity.
Qed.

(** The end of the timer loop from frame [k] on. *)
Lemma runTimers_end (env : Browser) (frames : list ImageData)
    (interval : Q) (onProgress : bool) (n : nat) :
  forall (k fuel : nat) (st : Reassembly) (w : World) (dl : Q),
    (k + n = length frames)%nat ->
    frameIndex st = k ->
    timers w = [(DrawNextFrame, dl)] ->
    (n + 2 <= fuel)%nat ->
    let w' := snd (runTimers env frames interval onProgress fuel st w) in
    timers w' = []
    /\ clock_reads w' = (clock_reads w + 2 * n)%nat
    /\ same_resources w w'
    /\ canvas_image w' = match n with
                         | O => canvas_image w
                         | S _ => nth_error frames (length frames - 1)
                         end.
Proof.
  induction n as [ | n IH]; intros k fuel st w dl Hk Hi Htm Hf; cbv zeta.
  - destruct fuel as [ | [ | fuel]]; try lia.
    rewrite (runTimers_fires_draw _ _ _ _ _ _ _ _ _ Htm).
    assert (E : nth_error frames (frameIndex st) = None).
    { apply nth_error_None. lia. }
    destruct (drawNextFrame_done env frames interval onProgress st
                (snd (set_timers [] w)) E) as (w1 & D & T1 & M1 & C1).
    destruct (drawNextFrame_resources env frames interval onProgress st
                (snd (set_timers [] w))) as (R1 & I1).
    rewrite D in R1, I1. rewrite E in I1. cbn [snd] in R1, I1.
    rewrite (bind_Ok _ _ _ _ _ D).
    cbn [set_timers modify snd timers app] in M1.
    pose proof (drawNextFrame_done_clock env frames interval onProgress st
                  (snd (set_timers [] w)) E) as K1.
    rewrite D in K1. cbn [snd set_timers modify clock_reads] in K1.
    destruct (runTimers_stop_world env frames interval onProgress fuel st w1
                100 [] M1) as (M2 & K2 & R2 & I2).
    destruct (set_timers_resources [] w) as (R0 & I0 & _).
    split; [exact M2 | ]. split; [rewrite K2, K1; lia | ].
    split; [ | now rewrite I2, I1, I0].
    apply (same_resources_trans _ _ _ R0).
    apply (same_resources_trans _ _ _ R1). exact R2.
  - destruct fuel as [ | fuel]; [lia | ].
    rewrite (runTimers_fires_draw _ _ _ _ _ _ _ _ _ Htm).
    destruct (nth_error frames (frameIndex st)) as [f | ] eqn:E.
    2:{ apply nth_error_None in E. lia. }
    destruct (drawNextFrame_frame env frames interval onProgress st
                (snd (set_timers [] w)) f E) as (w1 & D & T1 & K1 & M1 & C1).
    destruct (drawNextFrame_resources env frames interval onProgress st
                (snd (set_timers [] w))) as (R1 & I1).
    rewrite D in R1, I1. rewrite E in I1. cbn [snd] in R1, I1.
    rewrite (bind_Ok _ _ _ _ _ D).
    cbn [set_timers modify snd clock_reads timers app] in K1, M1.
    set (st' := {| frameIndex := S (frameIndex st); startTime := startTime st;
                   nextFrameTime := nextFrameTime st + interval |}) in *.
    assert (Hk' : (S k + n = length frames)%nat) by lia.
    assert (Hi' : frameIndex st' = S k) by (cbn [frameIndex st']; now rewrite Hi).
    assert (Hf' : (n + 2 <= fuel)%nat) by lia.
    destruct (IH (S k) fuel st' w1 _ Hk' Hi' M1 Hf') as (M2 & K2 & R2 & I2).
    split; [exact M2 | ]. split; [rewrite K2, K1; lia | ].
    destruct (set_timers_resources [] w) as (R0 & _).
    split.
    + apply (same_resources_trans _ _ _ R0).
      apply (same_resources_trans _ _ _ R1). exact R2.
    + rewrite I2. destruct n as [ | n']; [ | reflexivity].
      rewrite I1, <- E, Hi. f_equal. lia.
Qed.

(** X17. [createVideo] on N >= 1 frames (2D canvas available, no timer
    pending at the start, the event loop allowed to run N + 1 timers)
    resolves with the frames the recorder took, and at that point no timer
    is left pending, the clock has been read 2 N + 1 times, the canvas shows
    the last frame, and one canvas has been created; GL objects, the
    processor field and the time of the video are as before. *)
Theorem createVideo_end_state (env : Browser) (fps : Q)
    (frames : list ImageData) (onProgress : bool) (fuel : nat) (world : World) :
  has_canvas2d env = true -> frames <> [] ->
  timers world = [] -> (length frames + 1 <= fuel)%nat ->
  let r := createVideo env fps frames onProgress fuel world in
  fst r = Ok (captured world ++ (if has_requestFrame env then frames else []))
  /\ timers (snd r) = []
  /\ clock_reads (snd r) = (clock_reads world + 2 * length frames + 1)%nat
  /\ canvas_image (snd r) = nth_error frames (length frames - 1)
  /\ canvases (snd r) = S (canvases world)
  /\ gl_next (snd r) = gl_next world /\ gl_live (snd r) = gl_live world
  /\ processor (snd r) = processor world
  /\ currentTime (snd r) = currentTime world.
Proof.
  intros H2d Hne Htm Hfuel. cbv zeta.
  destruct frames as [ | f0 rest]; [contradiction | ].
  set (frames := f0 :: rest) in *.
  set (interval := 1000 / fps).
  set (w0 := snd ((createCanvas ;; emit EvRecorderStart ;;
                   performance_now env) world)).
  set (st0 := {| frameIndex := 0; startTime := clock env (clock_reads world);
                 nextFrameTime := clock env (clock_reads world) |}).
  assert (CV : createVideo env fps frames onProgress fuel world
               = bind (drawNextFrame env frames interval onProgress st0)
                      (fun st => runTimers env frames interval onProgress fuel st)
                      w0).
  { unfold createVideo, frames. rewrite H2d. reflexivity. }
  destruct (drawNextFrame_frame env frames interval onProgress st0 w0 f0 eq_refl)
    as (w1 & D & T1 & K1 & M1 & C1).
  destruct (drawNextFrame_resources env frames interval onProgress st0 w0)
    as (R1 & I1).
  rewrite D in R1, I1. cbn [snd] in R1, I1.
  rewrite CV, (bind_Ok _ _ _ _ _ D).
  assert (W0 : clock_reads w0 = S (clock_reads world)
               /\ timers w0 = timers world
               /\ captured w0 = captured world
               /\ canvases w0 = S (canvases world)
               /\ gl_next w0 = gl_next world /\ gl_live w0 = gl_live world
               /\ processor w0 = processor world
               /\ currentTime w0 = currentTime world).
  { unfold w0. repeat split. }
  destruct W0 as (K0 & M0 & C0 & V0 & X0 & L0 & P0 & U0).
  rewrite K0 in K1. rewrite M0, Htm in M1. rewrite C0 in C1. cbn [app] in M1.
  set (st1 := {| frameIndex := S (frameIndex st0) |}) in *.
  assert (Hf1 : (length rest + 2 <= fuel)%nat)
    by (cbn [length frames] in Hfuel; lia).
  assert (Hc1 : clock_reads w1 = (clock_reads world + 2 * 1 + 1)%nat)
    by (rewrite K1; lia).
  destruct (runTimers_runs env frames interval onProgress (clock_reads world)
              (length rest) 1 fuel st1 w1 _ eq_refl eq_refl eq_refl Hc1 M1 Hf1)
    as (w2 & R & _).
  destruct (runTimers_end env frames interval onProgress (length rest)
              1 fuel st1 w1 _ eq_refl eq_refl M1 Hf1) as (M2 & K2 & R2 & I2).
  rewrite R in M2, K2, R2, I2 |- *. cbn [fst snd] in *.
  destruct R1 as (A1 & A2 & A3 & A4 & A5).
  destruct R2 as (B1 & B2 & B3 & B4 & B5).
  split.
  { rewrite C1. change (skipn 1 frames) with rest. unfold frames.
    destruct (has_requestFrame env); rewrite <- ?app_assoc, ?app_nil_r;
      reflexivity. }
  split; [exact M2 | ].
  split; [rewrite K2, K1; cbn [length frames]; lia | ].
  split.
  { rewrite I2. destruct rest as [ | f1 rest']; [ | reflexivity].
    exact I1. }
  repeat split; congruence.
Qed.

Lemma createVideo_end_state_witness :
  let frames := [solid 1 1 [0; 255; 0; 255]%Z; solid 1 1 [0; 249; 0; 255]%Z;
                 solid 1 1 [0; 100; 200; 255]%Z] in
  has_canvas2d a_browser = true /\ frames <> []
  /\ timers initial_world = [] /\ (length frames + 1 <= 4)%nat
  /\ timers (snd (createVideo a_browser 30 frames true 4 initial_world)) = []
  /\ clock_reads (snd (createVideo a_browser 30 frames true 4 initial_world))
     = 7%nat.
Proof.
  intros frames.
  assert (H1 : has_canvas2d a_browser = true) by reflexivity.
  assert (H3 : frames <> []) by discriminate.
  assert (H4 : timers initial_world = []) by reflexivity.
  assert (H5 : (length frames + 1 <= 4)%nat) by (simpl; lia).
  split; [exact H1 | ]. split; [exact H3 | ]. split; [exact H4 | ].
  split; [exact H5 | ].
  destruct (createVideo_end_state a_browser 30 frames true 4 initial_world
              H1 H3 H4 H5) as (_ & M & K & _).
  split; [exact M | exact K].
Defined.

(** The world after the loop of [extractFrames]: the video stands at the
    last seek, nothing else but the trace has changed. *)
Lemma extractLoop_world (video : HTMLVideoElement) (fps : Q) (onProgress : bool)
    (T : Z) (k : nat) :
  forall (i fuel : nat) (frames : list ImageData) (w : World),
    Z.of_nat (i + k) = Z.max 0 T -> (k <= fuel)%nat ->
    let w' := snd (extractLoop video onProgress (Num (inject_Z T)) (1 / fps)
                               fuel i frames w) in
    currentTime w' = match k with
                     | O => currentTime w
                     | S _ => seek_time fps (i + k - 1)
                     end
    /\ canvases w' = canvases w /\ gl_next w' = gl_next w
    /\ gl_live w' = gl_live w /\ processor w' = processor w
    /\ timers w' = timers w /\ clock_reads w' = clock_reads w
    /\ captured w' = captured w.
Proof.
  induction k as [ | k IH]; intros i fuel frames w Hik Hf; cbv zeta.
  - assert (L : lt_number i (Num (inject_Z T)) = false).
    { rewrite lt_number_Num. apply Z.ltb_ge. lia. }
    destruct fuel; cbn [extractLoop]; rewrite L; repeat split; reflexivity.
  - assert (L : lt_number i (Num (inject_Z T)) = true).
    { rewrite lt_number_Num. apply Z.ltb_lt. lia. }
    destruct fuel as [ | fuel]; [lia | ].
    cbn [extractLoop]. rewrite L.
    unfold seekToTime, captureImage.
    set (img := frame_at video fps i).
    set (w1 := snd ((emit (EvSeek (seek_time fps i)) ;;
                     set_currentTime (seek_time fps i) ;;
                     (if onProgress
                      then emit (EvProgress (i + 1) (Num (inject_Z T)))
                      else ret tt)) w)).
    destruct (IH (S i) fuel (frames ++ [img]) w1 ltac:(lia) ltac:(lia))
      as (A1 & A2 & A3 & A4 & A5 & A6 & A7 & A8).
    assert (W1 : currentTime w1 = seek_time fps i
                 /\ canvases w1 = canvases w /\ gl_next w1 = gl_next w
                 /\ gl_live w1 = gl_live w /\ processor w1 = processor w
                 /\ timers w1 = timers w /\ clock_reads w1 = clock_reads w
                 /\ captured w1 = captured w).
    { unfold w1. destruct onProgress; repeat split. }
    destruct W1 as (B1 & B2 & B3 & B4 & B5 & B6 & B7 & B8).
    assert (E : extractLoop video onProgress (Num (inject_Z T)) (1 / fps) fuel
                  (S i) (frames ++ [img]) w1
                = (_ <- (_ <- emit (EvSeek (natQ i * (1 / fps)));;
                         set_currentTime (natQ i * (1 / fps)));;
                   imageData <- (t <- get currentTime;;
                                 ret {| data := picture video t;
                                        width := videoWidth video;
                                        height := videoHeight video |});;
                   _ <- (if onProgress
                         then emit (EvProgress (i + 1) (Num (inject_Z T)))
                         else ret tt);;
                   extractLoop video onProgress (Num (inject_Z T)) (1 / fps)
                     fuel (S i) (frames ++ [imageData])) w).
    { unfold w1, img, frame_at, seek_time. destruct onProgress; reflexivity. }
    rewrite <- E.
    rewrite A2, A3, A4, A5, A6, A7, A8, A1.
    split.
    + destruct k as [ | k']; [rewrite B1; f_equal; lia | f_equal; lia].
    + repeat split; assumption.
Qed.

(** X18. With a 2D canvas, fps > 0 and a known duration d, [extractFrames]
    returns the floor(d * fps) frames (none when d * fps < 1, negative
    durations included, and then nothing is sought or reported) and leaves
    the video at the time of the last frame it sought, (total - 1) * (1 /
    fps); it does not restore the time the video had.  It creates one canvas
    and touches no GL object, no timer, the clock or the recorder. *)
Theorem extractFrames_end_state (env : Browser) (fps : Q)
    (video : HTMLVideoElement) (onProgress : bool) (fuel : nat)
    (world : World) (d : Q) :
  has_canvas2d env = true -> 0 < fps -> duration video = Num d ->
  (Z.to_nat (Qfloor (d * fps)) <= fuel)%nat ->
  let total := Z.to_nat (Qfloor (d * fps)) in
  let r := extractFrames env fps video onProgress fuel world in
  fst r = Ok (map (frame_at video fps) (seq 0 total))
  /\ currentTime (snd r) = match total with
                           | O => currentTime world
                           | S k => seek_time fps k
                           end
  /\ canvases (snd r) = S (canvases world)
  /\ gl_next (snd r) = gl_next world /\ gl_live (snd r) = gl_live world
  /\ processor (snd r) = processor world
  /\ timers (snd r) = timers world
  /\ clock_reads (snd r) = clock_reads world
  /\ captured (snd r) = captured world
  /\ (d * fps < 1 -> fst r = Ok [] /\ trace (snd r) = trace world).
Proof.
  intros H2d _ D Hfuel. cbv zeta.
  set (total := Z.to_nat (Qfloor (d * fps))) in *.
  set (w0 := snd (createCanvas world)).
  assert (EF : extractFrames env fps video onProgress fuel world
               = extractLoop video onProgress (Num (inject_Z (Qfloor (d * fps))))
                             (1 / fps) fuel 0 [] w0).
  { unfold extractFrames. rewrite H2d, D. reflexivity. }
  rewrite EF.
  assert (HT : Z.of_nat (0 + total) = Z.max 0 (Qfloor (d * fps)))
    by (unfold total; lia).
  destruct (extractLoop_runs video fps onProgress (Qfloor (d * fps)) total
              0 fuel [] w0 HT Hfuel) as (w' & E & Tr).
  destruct (extractLoop_world video fps onProgress (Qfloor (d * fps)) total
              0 fuel [] w0 HT Hfuel)
    as (A1 & A2 & A3 & A4 & A5 & A6 & A7 & A8).
  rewrite E in A1, A2, A3, A4, A5, A6, A7, A8 |- *. cbn [fst snd app] in *.
  split; [reflexivity | ].
  split.
  { rewrite A1. destruct total as [ | k]; [reflexivity | ]. f_equal. lia. }
  repeat (split; [assumption | ]).
  intros Small.
  assert (Z0 : total = 0%nat).
  { unfold total. pose proof (Qfloor_le (d * fps)) as L.
    assert (L1 : inject_Z (Qfloor (d * fps)) < inject_Z 1)
      by (change (inject_Z 1) with 1; lra).
    rewrite <- Zlt_Qlt in L1. lia. }
  rewrite Z0 in Tr |- *. cbn [seq map flat_map] in *.
  split; [reflexivity | ]. rewrite Tr. now rewrite app_nil_r.
Qed.

Lemma extractFrames_end_state_witness :
  let video := {| videoWidth := 1; videoHeight := 1; duration := Num 0.11;
                  picture := fun t => [Qfloor (t * 1000); 0; 0; 255]%Z |} in
  has_canvas2d a_browser = true /\ 0 < 30 /\ duration video = Num 0.11
  /\ (Z.to_nat (Qfloor (0.11 * 30)) <= 5)%nat
  /\ currentTime (snd (extractFrames a_browser 30 video true 5 initial_world))
     = seek_time 30 2.
Proof.
  intros video.
  assert (H1 : has_canvas2d a_browser = true) by reflexivity.
  assert (H0 : 0 < 30) by reflexivity.
  assert (H2 : duration video = Num 0.11) by reflexivity.
  assert (H3 : (Z.to_nat (Qfloor (0.11 * 30)) <= 5)%nat) by (vm_compute; lia).
  split; [exact H1 | ]. split; [exact H0 | ]. split; [exact H2 | ].
  split; [exact H3 | ].
  destruct (extractFrames_end_state a_browser 30 video true 5 initial_world
              0.11 H1 H0 H2 H3) as (_ & T & _).
  exact T.
Defined.

(** X19. Without a 2D canvas context both [extractFrames] and [createVideo]
    (on a non-empty sequence) throw 'Failed to get canvas context' once the
    canvas element has been created and before anything else: no seek and no
    progress report, the recorder is not started, the clock is not read and
    no timer is set.  The duration of the video and the number of steps
    allowed play no part. *)
Theorem no_canvas_context_stops_both (env : Browser) (fps : Q)
    (video : HTMLVideoElement) (frames : list ImageData) (onProgress : bool)
    (fuel : nat) (world : World) :
  has_canvas2d env = false ->
  let e := extractFrames env fps video onProgress fuel world in
  let c := createVideo env fps frames onProgress fuel world in
  fst e = Throw Failed_to_get_canvas_context
  /\ trace (snd e) = trace world
  /\ currentTime (snd e) = currentTime world
  /\ canvases (snd e) = S (canvases world)
  /\ (frames <> [] ->
      fst c = Throw Failed_to_get_canvas_context
      /\ trace (snd c) = trace world
      /\ timers (snd c) = timers world
      /\ clock_reads (snd c) = clock_reads world
      /\ captured (snd c) = captured world
      /\ canvases (snd c) = S (canvases world)).
Proof.
  intros H. cbv zeta. unfold extractFrames, createVideo. rewrite H.
  repeat split; try reflexivity;
    destruct frames as [ | f0 rest]; try contradiction; reflexivity.
Qed.

Lemma no_canvas_context_stops_both_witness :
  let env := {| has_canvas2d := false; has_webgl := true;
                gl_creates := fun _ => true; gl_compiles := fun _ _ => true;
                gl_links := true; has_requestFrame := true;
                clock := fun _ => 0 |} in
  let video := {| videoWidth := 1; videoHeight := 1; duration := Infinity;
                  picture := fun _ => [0; 0; 0; 255]%Z |} in
  has_canvas2d env = false
  /\ fst (extractFrames env 30 video true 0 initial_world)
     = Throw Failed_to_get_canvas_context.
Proof.
  intros env video.
  assert (H : has_canvas2d env = false) by reflexivity.
  split; [exact H | ].
  destruct (no_canvas_context_stops_both env 30 video [] true 0 initial_world H)
    as (E & _).
  exact E.
Defined.

(** * Green mode and blue mode *)

Lemma hue_fraction (t : Q) :
  - (1 # 6) < t < 1 # 6 ->
  Qabs (2 / 3 + t) == 1 - Qabs (-1 / 3 + t).
Proof.
  intros [L U].
  change (2 / 3) with (2 # 3). change (-1 / 3) with (- (1 # 3)).
  rewrite (Qabs_pos ((2 # 3) + t)) by lra.
  rewrite (Qabs_neg (- (1 # 3) + t)) by lra. ring.
Qed.

Lemma hue_fraction_red (t : Q) :
  0 <= t < 1 # 6 -> Qabs (-1 + t) == 1 - Qabs (0 + t).
Proof.
  intros [L U].
  rewrite (Qabs_neg (-1 + t)) by lra.
  rewrite (Qabs_pos (0 + t)) by lra. ring.
Qed.

(** Exchanging green and blue reflects the hue and keeps saturation and
    value, unless the two channels are equal. *)
Lemma rgb2hsv_mirror (r g b : Q) :
  ~ g == b ->
  v3x (MaskShader.rgb2hsv (Vec3 r b g))
  == 1 - v3x (MaskShader.rgb2hsv (Vec3 r g b))
  /\ v3y (MaskShader.rgb2hsv (Vec3 r b g))
     == v3y (MaskShader.rgb2hsv (Vec3 r g b))
  /\ v3z (MaskShader.rgb2hsv (Vec3 r b g))
     == v3z (MaskShader.rgb2hsv (Vec3 r g b)).
Proof.
  intros N.
  destruct (Qlt_le_dec g b) as [Hgb | Hgb].
  - destruct (Qlt_le_dec r b) as [Hr | Hr].
    + destruct (rgb2hsv_blue_max r g b Hgb Hr) as (A1 & A2 & A3).
      destruct (rgb2hsv_green_max r b g ltac:(lra) Hr) as (B1 & B2 & B3).
      projections. rewrite A1, A2, A3, B1, B2, B3.
      destruct (sixth_bound (r - g) (b - Qmin r g)) as [L U].
      { destruct (Q.min_spec r g) as [[? E] | [? E]]; rewrite E; lra. }
      { destruct (Q.min_spec r g) as [[? E] | [? E]]; rewrite E; lra. }
      set (t := (r - g) / (6 * (b - Qmin r g) + 1.0e-10)) in *. clearbody t.
      rewrite (hue_fraction t) by lra.
      repeat split; try reflexivity. ring.
    + destruct (rgb2hsv_red_max_lower r g b Hgb Hr) as (A1 & A2 & A3).
      destruct (rgb2hsv_red_max_upper r b g ltac:(lra) Hr) as (B1 & B2 & B3).
      projections. rewrite A1, A2, A3, B1, B2, B3.
      rewrite (Q.min_r b g) by lra.
      destruct (sixth_bound (b - g) (r - g)) as [L U]; [lra | lra | ].
      destruct (quotient_sign (b - g) (r - g)) as [S _]; [lra | ].
      assert (S' := S ltac:(lra)).
      set (t := (b - g) / (6 * (r - g) + 1.0e-10)) in *. clearbody t.
      rewrite (hue_fraction_red t) by lra.
      repeat split; try reflexivity. ring.
  - assert (Hbg : b < g).
    { destruct (Qlt_le_dec b g) as [? | ?]; [assumption | ].
      exfalso. apply N. lra. }
    destruct (Qlt_le_dec r g) as [Hr | Hr].
    + destruct (rgb2hsv_green_max r g b Hgb Hr) as (A1 & A2 & A3).
      destruct (rgb2hsv_blue_max r b g Hbg Hr) as (B1 & B2 & B3).
      projections. rewrite A1, A2, A3, B1, B2, B3.
      destruct (sixth_bound (r - b) (g - Qmin r b)) as [L U].
      { destruct (Q.min_spec r b) as [[? E] | [? E]]; rewrite E; lra. }
      { destruct (Q.min_spec r b) as [[? E] | [? E]]; rewrite E; lra. }
      set (t := (r - b) / (6 * (g - Qmin r b) + 1.0e-10)) in *. clearbody t.
      rewrite (hue_fraction t) by lra.
      repeat split; reflexivity.
    + destruct (rgb2hsv_red_max_upper r g b Hgb Hr) as (A1 & A2 & A3).
      destruct (rgb2hsv_red_max_lower r b g Hbg Hr) as (B1 & B2 & B3).
      projections. rewrite A1, A2, A3, B1, B2, B3.
      rewrite (Q.min_r g b) by lra.
      destruct (sixth_bound (g - b) (r - b)) as [L U]; [lra | lra | ].
      destruct (quotient_sign (g - b) (r - b)) as [S _]; [lra | ].
      assert (S' := S ltac:(lra)).
      set (t := (g - b) / (6 * (r - b) + 1.0e-10)) in *. clearbody t.
      rewrite (hue_fraction_red t) by lra.
      repeat split; reflexivity.
Qed.

Lemma mirror_views (c : vec4) :
  ~ v4y c == v4z c ->
  hue_of (swap_gb c) == 360 - hue_of c
  /\ sat_of (swap_gb c) == sat_of c
  /\ val_of (swap_gb c) == val_of c.
Proof.
  intros N. destruct c as [r g b a]. cbn [v4y v4z] in N.
  unfold hue_of, sat_of, val_of, swap_gb, rgb. cbn [v4x v4y v4z v4w].
  destruct (rgb2hsv_mirror r g b N) as (H1 & H2 & H3).
  set (h' := MaskShader.rgb2hsv (Vec3 r b g)) in *.
  set (h := MaskShader.rgb2hsv (Vec3 r g b)) in *. clearbody h h'.
  split; [lra | ]. split; assumption.
Qed.

Lemma mirror_dominance (u : Uniforms) (c : vec4) :
  u_hueTarget u < 180 ->
  dominance_of (mirror u) (swap_gb c) = dominance_of u c.
Proof.
  intros T. unfold dominance_of, mirror, swap_gb.
  cbn [u_hueTarget v4x v4y v4z].
  destruct (Qlt_le_dec (u_hueTarget u) 180) as [? | ?]; [ | lra].
  destruct (Qlt_le_dec (360 - u_hueTarget u) 180) as [? | ?]; [lra | ].
  reflexivity.
Qed.

Lemma mirror_hueDiff (u : Uniforms) (c : vec4) :
  ~ v4y c == v4z c ->
  hueDiff_of (mirror u) (swap_gb c) == hueDiff_of u c.
Proof.
  intros N. destruct (mirror_views c N) as (H & _).
  unfold hueDiff_of. cbv zeta.
  change (u_hueTarget (mirror u)) with (360 - u_hueTarget u).
  assert (E : Qabs (hue_of (swap_gb c) - (360 - u_hueTarget u))
              == Qabs (hue_of c - u_hueTarget u)).
  { set (h' := hue_of (swap_gb c)) in *. set (h := hue_of c) in *.
    clearbody h h'.
    transitivity (Qabs (- (h - u_hueTarget u))); [ | apply Qabs_opp].
    apply Qabs_wd. lra. }
  set (X := Qabs (hue_of (swap_gb c) - (360 - u_hueTarget u))) in *.
  set (Y := Qabs (hue_of c - u_hueTarget u)) in *. clearbody X Y.
  destruct (Qlt_le_dec 180 X), (Qlt_le_dec 180 Y); lra.
Qed.

Lemma mirror_keyStrength (u : Uniforms) (c : vec4) :
  u_hueTarget u < 180 ->
  keyStrength_of (mirror u) (swap_gb c) == keyStrength_of u c.
Proof.
  intros T. unfold keyStrength_of. rewrite (mirror_dominance u c T).
  destruct (Qeq_dec (v4y c) (v4z c)) as [E | N].
  - assert (D : dominance_of u c == 0).
    { unfold dominance_of.
      destruct (Qlt_le_dec (u_hueTarget u) 180) as [? | ?]; [ | lra].
      apply smoothstep_below; [reflexivity | ].
      pose proof (Q.le_max_r (v4x c) (v4z c)). lra. }
    rewrite D. ring.
  - destruct (mirror_views c N) as (_ & S & V).
    pose proof (mirror_hueDiff u c N) as HD.
    assert (E1 : hueMatch_of (mirror u) (swap_gb c) == hueMatch_of u c).
    { unfold hueMatch_of. rewrite HD. reflexivity. }
    assert (E2 : satMatch_of (mirror u) (swap_gb c) == satMatch_of u c).
    { unfold satMatch_of. rewrite S. reflexivity. }
    assert (E3 : valMatch_of (mirror u) (swap_gb c) == valMatch_of u c).
    { unfold valMatch_of. cbn [mirror u_valMin u_valMax]. rewrite V.
      reflexivity. }
    rewrite E1, E2, E3. reflexivity.
Qed.

Lemma mirror_alpha (u : Uniforms) (c : vec4) :
  u_hueTarget u < 180 ->
  MaskShader.main_alpha (mirror u) (swap_gb c) == MaskShader.main_alpha u c.
Proof.
  intros T. rewrite !main_alpha_view.
  rewrite (mirror_keyStrength u c T). reflexivity.
Qed.

Lemma mirror_isGreen (u : Uniforms) :
  u_hueTarget u < 180 ->
  BlackBgShader.isGreen u = true /\ BlackBgShader.isGreen (mirror u) = false.
Proof.
  intros T. unfold BlackBgShader.isGreen, mirror. cbn [u_hueTarget].
  destruct (Qlt_le_dec (u_hueTarget u) 180) as [? | ?]; [ | lra].
  destruct (Qlt_le_dec (360 - u_hueTarget u) 180) as [? | ?]; [lra | ].
  split; reflexivity.
Qed.

Lemma mirror_suppressSpill (color : vec3) (amount : Q) :
  BlackBgShader.suppressSpill (swap_gb3 color) amount false
  = swap_gb3 (BlackBgShader.suppressSpill color amount true).
Proof. reflexivity. Qed.

(** X20. Blue mode is the mirror image of green mode.  With a hue target
    below 180, exchanging the green and blue channels of a pixel and
    reflecting the hue target (360 - target) gives the same alpha in both
    shaders, and the composite colour with green and blue exchanged.  The
    uniforms of the blue preset are the reflected uniforms of the green
    preset, so the blue preset treats (r, g, b) as the green preset treats
    (r, b, g). *)
Theorem blue_mode_mirrors_green_mode (u : Uniforms) (c : vec4) :
  u_hueTarget u < 180 ->
  MaskShader.main_alpha (mirror u) (swap_gb c) == MaskShader.main_alpha u c
  /\ veq3 (BlackBgShader.main_color (mirror u) (swap_gb c))
          (swap_gb3 (BlackBgShader.main_color u c))
  /\ mirror (setUniforms GREEN_SCREEN_SETTINGS)
     = setUniforms BLUE_SCREEN_SETTINGS.
Proof.
  intros T. pose proof (mirror_alpha u c T) as A.
  split; [exact A | ]. split; [ | reflexivity].
  destruct (mirror_isGreen u T) as (G1 & G2).
  unfold BlackBgShader.main_color. cbv zeta.
  rewrite !main_alpha_same, G1, G2.
  change (rgb (swap_gb c)) with (swap_gb3 (rgb c)).
  change (u_spillSuppression (mirror u)) with (u_spillSuppression u).
  set (al' := MaskShader.main_alpha (mirror u) (swap_gb c)) in *.
  set (al := MaskShader.main_alpha u c) in *. clearbody al al'.
  rewrite mirror_suppressSpill.
  assert (K : u_spillSuppression u * (1 - al' * 0.5)
              == u_spillSuppression u * (1 - al * 0.5)) by (rewrite A; ring).
  destruct (suppressSpill_Proper (rgb c) (rgb c) (reflexivity _) _ _ K
              true _ eq_refl) as (S1 & S2 & S3).
  set (d' := BlackBgShader.suppressSpill
               (rgb c) (u_spillSuppression u * (1 - al' * 0.5)) true) in *.
  set (d := BlackBgShader.suppressSpill
              (rgb c) (u_spillSuppression u * (1 - al * 0.5)) true) in *.
  clearbody d d'.
  unfold veq3, scale3, swap_gb3. cbn [v3x v3y v3z].
  rewrite S1, S2, S3, A. repeat split; reflexivity.
Qed.

Lemma blue_mode_mirrors_green_mode_witness :
  let u := setUniforms GREEN_SCREEN_SETTINGS in
  let c := Vec4 0.2 0.9 0.1 1 in
  u_hueTarget u < 180
  /\ MaskShader.main_alpha (setUniforms BLUE_SCREEN_SETTINGS) (swap_gb c)
     == MaskShader.main_alpha u c.
Proof.
  intros u c.
  assert (H : u_hueTarget u < 180) by reflexivity.
  split; [exact H | ].
  destruct (blue_mode_mirrors_green_mode u c H) as (A & _ & M).
  unfold u in M. rewrite <- M. exact A.
Defined.
